(** * FogLAMP core: configuration manager and task scheduler

    A shallow embedding of
      - python/foglamp/common/configuration_manager.py
        (ConfigurationCache, ConfigurationManager), and
      - src/python/foglamp/core/scheduler.py (Scheduler),
    with the properties of the specification stated over it.

    Python dictionaries are association lists in insertion order (with
    distinct keys), the storage service is the pair of tables the manager
    reads and writes, audit records, writes to storage and callbacks are
    logged in the state, and exceptions are values of [outcome].

    The storage service answers every call as the code expects;
    [StorageServerError] does not occur. Category values are JSON values:
    [None], strings, lists of strings and dictionaries. The library
    functions the validator calls ([int], [float], [ipaddress.ip_address],
    [urlparse], [Utils.is_json]) are the fields of [Builtins]. The
    scheduler runs on one event loop; what other coroutines do while
    [stop] sleeps is an argument of [stop]. *)

From Stdlib Require Import List String Ascii Bool Arith ZArith QArith Qround Lia.
Import ListNotations.
Close Scope Q_scope.
Open Scope string_scope.
Open Scope list_scope.

Set Implicit Arguments.

(* ================================================================== *)
(** ** Python dictionaries *)

Module Dict.
Section Ops.
Variable V : Type.

Definition t := list (string * V).

(** [d.get(k)] *)
Fixpoint get (k : string) (d : t) : option V :=
    match d with
    | [] => None
    | (k', v) :: r => if String.eqb k k' then Some v else get k r
    end.

(** [k in d] *)
Definition mem (k : string) (d : t) : bool :=
    match get k d with Some _ => true | None => false end.

(** [d[k] = v]: an existing key keeps its place, a new one goes last. *)
Fixpoint set (k : string) (v : V) (d : t) : t :=
    match d with
    | [] => [(k, v)]
    | (k', v') :: r =>
        if String.eqb k k' then (k', v) :: r else (k', v') :: set k v r
    end.

(** [d.pop(k)] on a present key; an absent key leaves [d] as it is
    (the callers below only pop keys they have just found). *)
Fixpoint pop (k : string) (d : t) : t :=
    match d with
    | [] => []
    | (k', v') :: r => if String.eqb k k' then r else (k', v') :: pop k r
    end.

Definition keys (d : t) : list string := map fst d.

(** [len(d)] *)
Definition len (d : t) : nat := List.length d.
End Ops.
End Dict.

(** Exceptions the modelled code raises. *)
Inductive exn : Type :=
| KeyError | ValueError (msg : string) | TypeError (msg : string)
| NameError | AttributeError | IndexError | TimeoutError | RuntimeError
| ImportError.

Inductive outcome (A : Type) : Type :=
| Return (a : A)
| Raise (e : exn).
Arguments Return {A} a.
Arguments Raise {A} e.

(* ================================================================== *)
(** ** Scheduler (scheduler.py) *)

Module Scheduler.

Inductive ScheduleType := TIMED | INTERVAL | MANUAL | STARTUP.

(** The fields of the [_Schedule] named tuple the modelled methods read. *)
Record Schedule := {
  id : string;
  name : string;
  type : ScheduleType;
  repeat_seconds : option Z;
  exclusive : bool;
  scheduled_process_name : string
}.

(** A subprocess handle: [terminate()] raises [ProcessLookupError] once the
    process has exited. *)
Record Process := { pid : Z; exited : bool }.

(** Times are the floats of [time.time()]. They are rationals here: the
    arithmetic on them is exact, and the rounding of floating-point
    arithmetic is not modelled. *)
Record ScheduleExecution := {
  next_start_time : option Q;
  task_processes : Dict.t Process
}.

Record State := {
  _start_time : option Q;
  _paused : bool;
  _scheduled_processes : Dict.t (list string);
  _schedules : Dict.t Schedule;
  _schedule_executions : Dict.t ScheduleExecution;
  _active_task_count : Z;
  _main_sleep_task : bool
}.

(** What the scheduler does to the outside world. *)
Inductive Effect :=
| CancelMainSleep
| Terminate (p : Z)
| Sleep (seconds : Q)
| EnsureFutureMain.

Definition set_paused (b : bool) (s : State) : State :=
  {| _start_time := _start_time s; _paused := b;
     _scheduled_processes := _scheduled_processes s;
     _schedules := _schedules s;
     _schedule_executions := _schedule_executions s;
     _active_task_count := _active_task_count s;
     _main_sleep_task := _main_sleep_task s |}.

Definition set_start_time (t : option Q) (s : State) : State :=
  {| _start_time := t; _paused := _paused s;
     _scheduled_processes := _scheduled_processes s;
     _schedules := _schedules s;
     _schedule_executions := _schedule_executions s;
     _active_task_count := _active_task_count s;
     _main_sleep_task := _main_sleep_task s |}.

Definition set_executions (e : Dict.t ScheduleExecution) (s : State) : State :=
  {| _start_time := _start_time s; _paused := _paused s;
     _scheduled_processes := _scheduled_processes s;
     _schedules := _schedules s;
     _schedule_executions := e;
     _active_task_count := _active_task_count s;
     _main_sleep_task := _main_sleep_task s |}.

Definition set_count (n : Z) (s : State) : State :=
  {| _start_time := _start_time s; _paused := _paused s;
     _scheduled_processes := _scheduled_processes s;
     _schedules := _schedules s;
     _schedule_executions := _schedule_executions s;
     _active_task_count := n;
     _main_sleep_task := _main_sleep_task s |}.

(** [_resume_check_schedules] *)
Definition _resume_check_schedules (s : State) : list Effect :=
  if _main_sleep_task s then [CancelMainSleep] else [].

Section Clock.
(** [time.mktime((datetime.fromtimestamp(t) + timedelta(seconds=n)).timetuple())]:
    the local-time arithmetic of the TIMED branch. *)
Variable timed_advance : Q -> Z -> Q.

(** [_schedule_next_task(schedule)], with [now] the value of [time.time()].
    The assignment [self.next_start_time = None] of the paused branch
    sets an attribute of the scheduler that nothing reads. *)
Definition _schedule_next_task (now : Q) (schedule : Schedule) (s : State)
    : outcome bool * State :=
    match repeat_seconds schedule with
    | None => (Return false, s)
    | Some repeat =>
        if _paused s then (Return false, s) else
        match Dict.get (id schedule) (_schedule_executions s) with
        | None => (Raise KeyError, s)
        | Some schedule_execution =>
            match next_start_time schedule_execution with
            | None => (Raise (TypeError "unsupported operand type(s)"), s)
            | Some next =>
                let advance_seconds :=
                  if exclusive schedule && negb (repeat =? 0)%Z
                  then (repeat + Qceiling ((now - next) / inject_Z repeat)%Q)%Z
                  else repeat in
                let next' :=
                  match type schedule with
                  | TIMED => timed_advance next advance_seconds
                  | _ => (next + inject_Z advance_seconds)%Q
                  end in
                (Return true,
                 set_executions
                   (Dict.set (id schedule)
                      {| next_start_time := Some next';
                         task_processes := task_processes schedule_execution |}
                      (_schedule_executions s)) s)
            end
        end
    end.

(** [_on_task_completion(schedule, process, task_id)]; the effects are the
    wake-ups of the main loop. *)
Definition _on_task_completion (now : Q) (schedule : Schedule) (task_id : string)
      (s : State) : outcome unit * State * list Effect :=
    match Dict.get (scheduled_process_name schedule) (_scheduled_processes s) with
    | None => (Raise KeyError, s, [])
    | Some _ =>
        let s1 := if (_active_task_count s =? 0)%Z then s
                  else set_count (_active_task_count s - 1) s in
        match Dict.get (id schedule) (_schedule_executions s1) with
        | None => (Raise KeyError, s1, [])
        | Some _ =>
            let '(r, s2) :=
              if exclusive schedule then _schedule_next_task now schedule s1
              else (Return false, s1) in
            match r with
            | Raise e => (Raise e, s2, [])
            | Return advanced =>
                let eff := if advanced then _resume_check_schedules s2 else [] in
                match Dict.get (id schedule) (_schedule_executions s2) with
                | None => (Raise KeyError, s2, eff)
                | Some schedule_execution =>
                    match next_start_time schedule_execution with
                    | None =>
                        (Return tt,
                         set_executions
                           (Dict.pop (id schedule) (_schedule_executions s2)) s2,
                         eff)
                    | Some _ =>
                        if Dict.mem task_id (task_processes schedule_execution)
                        then
                          (Return tt,
                           set_executions
                             (Dict.set (id schedule)
                                {| next_start_time := next_start_time schedule_execution;
                                   task_processes :=
                                     Dict.pop task_id (task_processes schedule_execution) |}
                                (_schedule_executions s2)) s2,
                           eff)
                        else (Raise KeyError, s2, eff)
                    end
                end
            end
        end
    end.

(** The coroutines that may run while [stop] sleeps: completion handlers
    of tasks whose process has exited. *)
Record Completion := {
    c_now : Q; c_schedule : Schedule; c_task_id : string
  }.

Fixpoint run_completions (cs : list Completion) (s : State) : State :=
    match cs with
    | [] => s
    | c :: r =>
        let '(_, s', _) :=
          _on_task_completion (c_now c) (c_schedule c) (c_task_id c) s in
        run_completions r s'
    end.

(** The inner loop of [stop]: [process.terminate()] on every task of one
    execution, [ProcessLookupError] ignored. *)
Fixpoint terminate_tasks (schedule_id : string) (s : State)
      (tasks : list (string * Process)) : outcome unit * list Effect :=
    match tasks with
    | [] => (Return tt, [])
    | (task_id, process) :: r =>
        (* the logging call indexes both dictionaries *)
        match Dict.get schedule_id (_schedules s) with
        | None => (Raise KeyError, [])
        | Some schedule =>
            match Dict.get (scheduled_process_name schedule) (_scheduled_processes s) with
            | None => (Raise KeyError, [])
            | Some _ =>
                let sent := if exited process then [] else [Terminate (pid process)] in
                let '(o, eff) := terminate_tasks schedule_id s r in
                (o, sent ++ eff)
            end
        end
    end.

(** The outer loop of [stop], over a snapshot of the keys. *)
Fixpoint terminate_all (s : State) (schedule_ids : list string)
      : outcome unit * list Effect :=
    match schedule_ids with
    | [] => (Return tt, [])
    | schedule_id :: r =>
        match Dict.get schedule_id (_schedule_executions s) with
        | None => terminate_all s r
        | Some schedule_execution =>
            match terminate_tasks schedule_id s (task_processes schedule_execution) with
            | (Raise e, eff) => (Raise e, eff)
            | (Return _, eff) =>
                let '(o, eff') := terminate_all s r in
                (o, eff ++ eff')
            end
        end
    end.

(** [stop()]. [during_sleep] are the completion handlers that run while
    [stop] awaits [asyncio.sleep(.1)]. *)
Definition stop (during_sleep : list Completion) (s : State)
      : outcome bool * State * list Effect :=
    let s1 := set_paused true s in
    let eff0 := _resume_check_schedules s1 in
    match terminate_all s1 (Dict.keys (_schedule_executions s1)) with
    | (Raise e, eff) => (Raise e, s1, eff0 ++ eff)
    | (Return _, eff) =>
        let s2 := run_completions during_sleep s1 in
        let eff := eff0 ++ eff ++ [Sleep (1 # 10)%Q] in
        if negb (_active_task_count s2 =? 0)%Z
        then (Raise TimeoutError, s2, eff)
        else (Return true, set_start_time None s2, eff)
    end.
End Clock.

End Scheduler.

(* ================================================================== *)
(** ** Values (configuration_manager.py) *)

(** The JSON values the manager handles: [None], strings, lists of strings
    (the [options] of an enumeration) and dictionaries (an item, or the
    value of a JSON item). *)
#[warnings="-register-all"]
Inductive pyval : Type :=
| PNone
| PStr (s : string)
| PList (l : list string)
| PDict (d : list (string * pyval)).

Definition bind {A B : Type} (m : outcome A) (f : A -> outcome B) : outcome B :=
  match m with
  | Return a => f a
  | Raise e => Raise e
  end.

Notation "x <- m ;; k" := (bind m (fun x => k))
  (at level 61, m at next level, right associativity).

Module Py.

Fixpoint list_eqb (l m : list string) : bool :=
  match l, m with
  | [], [] => true
  | a :: l', b :: m' => String.eqb a b && list_eqb l' m'
  | _, _ => false
  end.

(** Structural equality. *)
Fixpoint pyval_eqb (a b : pyval) : bool :=
  match a, b with
  | PNone, PNone => true
  | PStr s, PStr t => String.eqb s t
  | PList l, PList m => list_eqb l m
  | PDict d, PDict e =>
      (fix go (d e : list (string * pyval)) : bool :=
         match d, e with
         | [], [] => true
         | (k, v) :: d', (k', v') :: e' =>
             String.eqb k k' && pyval_eqb v v' && go d' e'
         | _, _ => false
         end) d e
  | _, _ => false
  end.

(** Sorting a dictionary by key, as [json.dumps(..., sort_keys=True)] does. *)
Fixpoint insert_key (V : Type) (k : string) (v : V) (d : list (string * V))
  : list (string * V) :=
  match d with
  | [] => [(k, v)]
  | (k', v') :: r =>
      if String.leb k k' then (k, v) :: d else (k', v') :: insert_key k v r
  end.

Fixpoint sort_keys (V : Type) (d : list (string * V)) : list (string * V) :=
  match d with
  | [] => []
  | (k, v) :: r => insert_key k v (sort_keys r)
  end.

(** The key-sorted form of a value: two values have the same
    [json.dumps(v, sort_keys=True)], and are [==] in Python, when their
    sorted forms coincide. *)
Fixpoint canon (a : pyval) : pyval :=
  match a with
  | PDict d =>
      PDict (sort_keys
               ((fix go (d : list (string * pyval)) : list (string * pyval) :=
                   match d with
                   | [] => []
                   | (k, v) :: r => (k, canon v) :: go r
                   end) d))
  | _ => a
  end.

(** [a == b] *)
Definition eq (a b : pyval) : bool := pyval_eqb (canon a) (canon b).

(** [json.dumps(a, sort_keys=True) == json.dumps(b, sort_keys=True)] on
    category values. *)
Definition json_dumps_sorted_eq (a b : pyval) : bool := eq a b.

(** [x[k] = v] *)
Definition set_item (x : pyval) (k : string) (v : pyval) : outcome pyval :=
  match x with
  | PDict d => Return (PDict (Dict.set k v d))
  | _ => Raise (TypeError "does not support item assignment")
  end.

(** [x is None] *)
Definition is_None (x : pyval) : bool :=
  match x with PNone => true | _ => false end.

(** [x[k]] *)
Definition subscript (x : pyval) (k : string) : outcome pyval :=
  match x with
  | PDict d =>
      match Dict.get k d with
      | Some v => Return v
      | None => Raise KeyError
      end
  | _ => Raise (TypeError "not subscriptable")
  end.

(** [s1 in s2] on strings. *)
Fixpoint substring_of (s1 s2 : string) : bool :=
  String.prefix s1 s2 ||
  match s2 with
  | EmptyString => false
  | String _ r => substring_of s1 r
  end.

(** [v in container] *)
Definition contains (container v : pyval) : outcome bool :=
  match container with
  | PList l =>
      Return (match v with PStr s => existsb (String.eqb s) l | _ => false end)
  | PDict d =>
      match v with
      | PStr s => Return (Dict.mem s d)
      | PNone => Return false
      | _ => Raise (TypeError "unhashable type")
      end
  | PStr s2 =>
      match v with
      | PStr s1 => Return (substring_of s1 s2)
      | _ => Raise (TypeError "'in <string>' requires string as left operand")
      end
  | PNone => Raise (TypeError "argument of type 'NoneType' is not iterable")
  end.

(** [isinstance(v, str)], [isinstance(v, dict)] *)
Definition is_str (v : pyval) : bool :=
  match v with PStr _ => true | _ => false end.
Definition is_dict (v : pyval) : bool :=
  match v with PDict _ => true | _ => false end.

(** [t == name] for a string constant [name]. *)
Definition is_name (t : pyval) (name : string) : bool :=
  match t with PStr s => String.eqb s name | _ => false end.

Definition lower_ascii (c : ascii) : ascii :=
  let n := nat_of_ascii c in
  if (65 <=? n)%nat && (n <=? 90)%nat then ascii_of_nat (n + 32) else c.

(** [s.lower()] on the bytes of [s]; the letters of [true] and [false]
    are the lower case of ASCII letters only. *)
Fixpoint lower (s : string) : string :=
  match s with
  | EmptyString => EmptyString
  | String c r => String (lower_ascii c) (lower r)
  end.

End Py.

(* ================================================================== *)
(** ** Type validation and cleaning *)

(** What [import_module(callback)] finds: no module ([ImportError]), a
    module without [run], a module whose [run] is not a coroutine
    function, or a module with a coroutine [run], given by what
    [await cb.run(category_name)] does: it returns or it raises. The code
    of [run] is the callback's own and is taken to act outside the
    manager. *)
Inductive callback_module : Type :=
| NotImportable
| NoRun
| RunNotCoroutine
| Run (run : string -> outcome unit).

(** The library functions the validator and the manager call. *)
Class Builtins : Type := {
  (** [int(s)] does not raise [ValueError] *)
  int_parses : string -> bool;
  (** [str(float(s))], [None] when [float(s)] raises [ValueError] *)
  float_str : string -> option string;
  (** the address [ipaddress.ip_address(s)] returns, [None] when it raises
      [ValueError] *)
  ip_address : string -> option string;
  (** [urlparse(s)] has a non-empty scheme and a non-empty netloc *)
  url_scheme_and_netloc : string -> bool;
  (** [Utils.is_json(v)] of the storage client *)
  is_json : pyval -> bool;
  (** [importlib.import_module(callback)] *)
  import_module : string -> callback_module
}.

(** What [_validate_type_value] returns: a boolean, [None] when no branch
    is taken, or the address object of the IP branch. *)
Inductive vresult : Type :=
| VBool (b : bool)
| VNone
| VAddress (a : string).

(** [r is False] *)
Definition is_False (r : vresult) : bool :=
  match r with VBool false => true | _ => false end.

(** [bool(r)] *)
Definition truthy (r : vresult) : bool :=
  match r with VBool b => b | VNone => false | VAddress _ => true end.

Definition _valid_type_strings : list string :=
  ["IPv4"; "IPv6"; "JSON"; "URL"; "X509 certificate"; "boolean"; "enumeration";
   "float"; "integer"; "password"; "script"; "string"].

Section Validator.
Context {B : Builtins}.

Definition _str_to_bool (item_val : pyval) : outcome vresult :=
    match item_val with
    | PStr s => Return (VBool (existsb (String.eqb (Py.lower s)) ["true"; "false"]))
    | _ => Raise AttributeError
    end.

Definition _str_to_int (item_val : pyval) : outcome vresult :=
    match item_val with
    | PStr s => Return (VBool (int_parses s))
    | _ => Raise (TypeError "int() argument must be a string")
    end.

Definition _str_to_float (item_val : pyval) : outcome vresult :=
    match item_val with
    | PStr s => Return (VBool (match float_str s with Some _ => true | None => false end))
    | _ => Raise (TypeError "float() argument must be a string")
    end.

Definition _str_to_ipaddress (item_val : pyval) : outcome vresult :=
    match item_val with
    | PStr s =>
        Return (match ip_address s with Some a => VAddress a | None => VBool false end)
    | _ => Return (VBool false)
    end.

(** [_validate_type_value(_type, _value)] *)
Definition _validate_type_value (_type _value : pyval) : outcome vresult :=
    if Py.is_name _type "boolean" then _str_to_bool _value
    else if Py.is_name _type "integer" then _str_to_int _value
    else if Py.is_name _type "float" then _str_to_float _value
    else if Py.is_name _type "JSON" then
      if Py.is_dict _value then Return (VBool true)
      else Return (VBool (is_json _value))
    else if Py.is_name _type "IPv4" || Py.is_name _type "IPv6" then
      _str_to_ipaddress _value
    else if Py.is_name _type "URL" then
      match _value with
      | PStr s => Return (VBool (url_scheme_and_netloc s))
      | _ => Return (VBool false)
      end
    else if Py.is_name _type "string" then Return (VBool (Py.is_str _value))
    else Return VNone.

(** [_clean(item_type, item_val)] *)
Definition _clean (item_type item_val : pyval) : outcome pyval :=
    if Py.is_name item_type "boolean" then
      match item_val with
      | PStr s => Return (PStr (Py.lower s))
      | _ => Raise AttributeError
      end
    else if Py.is_name item_type "float" then
      match item_val with
      | PStr s =>
          match float_str s with
          | Some c => Return (PStr c)
          | None => Raise (ValueError "could not convert string to float")
          end
      | _ => Raise (TypeError "float() argument must be a string")
      end
    else Return item_val.

  (* ---------------------------------------------------------------- *)
  (** *** [_validate_category_val] *)

(** The values of [expected_item_entries]: [0], [1], or the entry value
    that [update] stores before the entry is counted. *)
Inductive mark : Type := M0 | M1 | MVal (v : pyval).

Definition optional_item_entries : list string :=
    ["readonly"; "order"; "length"; "maximum"; "minimum"; "deprecated"; "displayName"].

(** [get_entry_val(k)]: the first element of a list comprehension. *)
Definition get_entry_val (item_val : Dict.t pyval) (k : string) : outcome pyval :=
    match Dict.get k item_val with
    | Some v => Return v
    | None => Raise IndexError
    end.

Definition require_str (entry_val : pyval) : outcome unit :=
    if Py.is_str entry_val then Return tt
    else Raise (TypeError "entry_val must be a string").

Definition reject_False (r : vresult) (msg : string) : outcome unit :=
    if is_False r then Raise (ValueError msg) else Return tt.

(** ['type' in item_val and get_entry_val("type") == 'enumeration'] *)
Definition is_enumeration (item_val : Dict.t pyval) : outcome bool :=
    if Dict.mem "type" item_val
    then t <- get_entry_val item_val "type" ;;
         Return (Py.is_name t "enumeration")
    else Return false.

(** The first block of the loop over the entries: the enumeration type
    with its mandatory [options], and the type of the entry value. *)
Definition check_enumeration (is_enum : bool) (item_val : Dict.t pyval)
      (entry_name : string) (entry_val : pyval)
      (expected_item_entries : Dict.t mark) : outcome (Dict.t mark) :=
    if is_enum then
      if negb (Dict.mem "options" item_val)
      then Raise KeyError
      else if String.eqb entry_name "options" then
        match entry_val with
        | PList [] => Raise (ValueError "entry_val cannot be empty list")
        | PList _ =>
            d <- get_entry_val item_val "default" ;;
            present <- Py.contains entry_val d ;;
            if present
            then Return (Dict.set entry_name (MVal entry_val) expected_item_entries)
            else Raise (ValueError "entry_val does not exist in options list")
        | _ => Raise (TypeError "entry_val must be a list")
        end
      else _ <- require_str entry_val ;; Return expected_item_entries
    else _ <- require_str entry_val ;; Return expected_item_entries.

(** The second block: an entry of the optional list is checked and added
    to the expected entries. *)
Definition check_optional (entry_name : string) (entry_val : pyval)
      (expected_item_entries : Dict.t mark) : outcome (Dict.t mark) :=
    if existsb (String.eqb entry_name) optional_item_entries then
      _ <-
        (if String.eqb entry_name "readonly" || String.eqb entry_name "deprecated"
         then r <- _validate_type_value (PStr "boolean") entry_val ;;
              reject_False r "Entry value must be boolean"
         else if String.eqb entry_name "minimum" || String.eqb entry_name "maximum"
         then ri <- _validate_type_value (PStr "integer") entry_val ;;
              r <- (if truthy ri then Return ri
                    else _validate_type_value (PStr "float") entry_val) ;;
              reject_False r "Entry value must be an integer or float"
         else if String.eqb entry_name "displayName"
         then if Py.is_str entry_val then Return tt
              else Raise (ValueError "Entry value must be string")
         else r <- _validate_type_value (PStr "integer") entry_val ;;
              reject_False r "Entry value must be an integer") ;;
      Return (Dict.set entry_name (MVal entry_val) expected_item_entries)
    else Return expected_item_entries.

(** The third block: the entry is recognised and counted. *)
Definition count_entry (set_value_val_from_default_val : bool)
      (entry_name : string) (entry_val : pyval)
      (expected_item_entries : Dict.t mark) : outcome (Dict.t mark) :=
    let num_entries := Dict.get entry_name expected_item_entries in
    if set_value_val_from_default_val && String.eqb entry_name "value"
    then Raise (ValueError "Specifying value_name and value_val is not allowed")
    else
      match num_entries with
      | None => Raise (ValueError "Unrecognized entry_name")
      | Some _ =>
          if String.eqb entry_name "type"
             && negb (match entry_val with
                      | PStr s => existsb (String.eqb s) _valid_type_strings
                      | _ => false
                      end)
          then Raise (ValueError "Invalid entry_val for entry_name type")
          else Return (Dict.set entry_name M1 expected_item_entries)
      end.

(** The body of the loop over the entries of one item. *)
Definition check_entry (set_value_val_from_default_val : bool)
      (item_val : Dict.t pyval) (entry_name : string) (entry_val : pyval)
      (expected_item_entries : Dict.t mark) : outcome (Dict.t mark) :=
    is_enum <- is_enumeration item_val ;;
    expected1 <- check_enumeration is_enum item_val entry_name entry_val
                   expected_item_entries ;;
    expected2 <- check_optional entry_name entry_val expected1 ;;
    count_entry set_value_val_from_default_val entry_name entry_val expected2.

Fixpoint check_entries (set_value_val_from_default_val : bool)
      (item_val : Dict.t pyval) (entries : list (string * pyval))
      (expected_item_entries : Dict.t mark) : outcome (Dict.t mark) :=
    match entries with
    | [] => Return expected_item_entries
    | (entry_name, entry_val) :: r =>
        e <- check_entry set_value_val_from_default_val item_val
               entry_name entry_val expected_item_entries ;;
        check_entries set_value_val_from_default_val item_val r e
    end.

(** The loop that looks for an expected entry still counted [0]. *)
Fixpoint check_missing (expected_item_entries : Dict.t mark) : outcome unit :=
    match expected_item_entries with
    | [] => Return tt
    | (_, M0) :: _ => Raise (ValueError "Missing entry_name")
    | _ :: r => check_missing r
    end.

(** [item_val[k] = self._clean('boolean', item_val[k])] when [k] is present. *)
Definition clean_boolean_entry (k : string) (item_val : Dict.t pyval)
    : outcome (Dict.t pyval) :=
    match Dict.get k item_val with
    | Some v => c <- _clean (PStr "boolean") v ;; Return (Dict.set k c item_val)
    | None => Return item_val
    end.

(** The body of the loop over the items of a category. *)
Definition validate_item (set_value_val_from_default_val : bool) (item : pyval)
    : outcome pyval :=
    match item with
    | PDict item_val =>
        let expected_item_entries :=
          [("description", M0); ("default", M0); ("type", M0)]
          ++ (if negb set_value_val_from_default_val then [("value", M0)] else []) in
        expected <- check_entries set_value_val_from_default_val item_val item_val
                      expected_item_entries ;;
        _ <- check_missing expected ;;
        t <- get_entry_val item_val "type" ;;
        d <- get_entry_val item_val "default" ;;
        r <- _validate_type_value t d ;;
        _ <- reject_False r "Unrecognized value for item_name" ;;
        item_val1 <- clean_boolean_entry "readonly" item_val ;;
        item_val2 <- clean_boolean_entry "deprecated" item_val1 ;;
        if set_value_val_from_default_val then
          t <- Py.subscript (PDict item_val2) "type" ;;
          d <- Py.subscript (PDict item_val2) "default" ;;
          c <- _clean t d ;;
          Return (PDict (Dict.set "value" c (Dict.set "default" c item_val2)))
        else Return (PDict item_val2)
    | _ => Raise (TypeError "item_value must be a dict")
    end.

(** The loop over the items of the copy. *)
Fixpoint validate_items (items : Dict.t pyval)
      (set_value_val_from_default_val : bool) : outcome (Dict.t pyval) :=
    match items with
    | [] => Return []
    | (item_name, item_val) :: r =>
        item_val' <- validate_item set_value_val_from_default_val item_val ;;
        r' <- validate_items r set_value_val_from_default_val ;;
        Return ((item_name, item_val') :: r')
    end.

(** [_validate_category_val(category_val, set_value_val_from_default_val)]:
    the validated deep copy. *)
Definition _validate_category_val (category_val : pyval)
      (set_value_val_from_default_val : bool) : outcome pyval :=
    match category_val with
    | PDict items =>
        items' <- validate_items items set_value_val_from_default_val ;;
        Return (PDict items')
    | _ => Raise (TypeError "category_val must be a dictionary")
    end.
End Validator.

(* ================================================================== *)
(** ** The state of the configuration manager *)

(** A row of the [configuration] table; the key is the key of the table. *)
Record Row : Type := {
  row_description : string;
  row_value : pyval;
  row_display_name : string
}.

(** An entry of [ConfigurationCache.cache]: a dictionary with the keys
    [date_accessed], [value], [displayName] and [hit], of which
    [date_accessed] and [hit] may be missing. *)
Record CacheEntry : Type := {
  date_accessed : option nat;
  value : pyval;
  displayName : string;
  hit : option nat
}.

(** Calls that change a table of the storage service. *)
Inductive StorageWrite : Type :=
| InsertConfiguration (key : string)
| UpdateConfiguration (key : string)
| UpdateItemValue (key item : string) (new_value : pyval)
| UpdateItemValues (key : string) (updates : list (string * pyval))
| InsertChild (parent child : string)
| DeleteChildrenWhereChild (child : string)
| DeleteConfiguration (key : string)
| DeleteChild (parent child : string)
| DeleteChildrenWhereParent (parent : string).

Record State : Type := {
  (** storage: the [configuration] and [category_children] tables *)
  configuration : Dict.t Row;
  category_children : list (string * string);
  (** [ConfigurationCache]: [cache], [hit], [miss] *)
  cache : Dict.t CacheEntry;
  cache_hit : nat;
  cache_miss : nat;
  (** [_registered_interests] *)
  _registered_interests : Dict.t (list string);
  (** what the manager did, oldest first: audit records (code, details),
      writes sent to storage, and calls of [_run_callbacks] with the
      callbacks they ran *)
  audit_log : list (string * pyval);
  storage_writes : list StorageWrite;
  callback_log : list (string * list string);
  (** the reading [datetime.datetime.now()] gives next *)
  clock : nat
}.

Definition MAX_CACHE_SIZE : nat := 10.

Definition RESERVED_CATG : list string :=
  ["South"; "North"; "General"; "Advanced"; "Utilities"; "rest_api";
   "Security"; "service"; "SCHEDULER"; "SMNTR"; "PURGE_READ"; "Notifications"].

(** Computations on the state that may raise. *)
Definition M (A : Type) : Type := State -> outcome A * State.

Definition ret {A : Type} (a : A) : M A := fun s => (Return a, s).
Definition raise {A : Type} (e : exn) : M A := fun s => (Raise e, s).
Definition lift {A : Type} (o : outcome A) : M A := fun s => (o, s).
Definition bindM {A B : Type} (m : M A) (f : A -> M B) : M B :=
  fun s =>
    match m s with
    | (Return a, s') => f a s'
    | (Raise e, s') => (Raise e, s')
    end.
Definition gets {A : Type} (f : State -> A) : M A := fun s => (Return (f s), s).
Definition modify (f : State -> State) : M unit := fun s => (Return tt, f s).

Notation "x <~ m ;; k" := (bindM m (fun x => k))
  (at level 61, m at next level, right associativity).
Notation "m ;;; k" := (bindM m (fun _ => k))
  (at level 61, right associativity).

Definition with_configuration (c : Dict.t Row) (s : State) : State :=
  {| configuration := c; category_children := category_children s;
     cache := cache s; cache_hit := cache_hit s; cache_miss := cache_miss s;
     _registered_interests := _registered_interests s;
     audit_log := audit_log s; storage_writes := storage_writes s;
     callback_log := callback_log s; clock := clock s |}.

Definition with_children (c : list (string * string)) (s : State) : State :=
  {| configuration := configuration s; category_children := c;
     cache := cache s; cache_hit := cache_hit s; cache_miss := cache_miss s;
     _registered_interests := _registered_interests s;
     audit_log := audit_log s; storage_writes := storage_writes s;
     callback_log := callback_log s; clock := clock s |}.

Definition with_cache (c : Dict.t CacheEntry) (s : State) : State :=
  {| configuration := configuration s; category_children := category_children s;
     cache := c; cache_hit := cache_hit s; cache_miss := cache_miss s;
     _registered_interests := _registered_interests s;
     audit_log := audit_log s; storage_writes := storage_writes s;
     callback_log := callback_log s; clock := clock s |}.

Definition with_hit_miss (h m : nat) (s : State) : State :=
  {| configuration := configuration s; category_children := category_children s;
     cache := cache s; cache_hit := h; cache_miss := m;
     _registered_interests := _registered_interests s;
     audit_log := audit_log s; storage_writes := storage_writes s;
     callback_log := callback_log s; clock := clock s |}.

Definition with_audit (a : list (string * pyval)) (s : State) : State :=
  {| configuration := configuration s; category_children := category_children s;
     cache := cache s; cache_hit := cache_hit s; cache_miss := cache_miss s;
     _registered_interests := _registered_interests s;
     audit_log := a; storage_writes := storage_writes s;
     callback_log := callback_log s; clock := clock s |}.

Definition with_writes (w : list StorageWrite) (s : State) : State :=
  {| configuration := configuration s; category_children := category_children s;
     cache := cache s; cache_hit := cache_hit s; cache_miss := cache_miss s;
     _registered_interests := _registered_interests s;
     audit_log := audit_log s; storage_writes := w;
     callback_log := callback_log s; clock := clock s |}.

Definition with_callbacks (c : list (string * list string)) (s : State) : State :=
  {| configuration := configuration s; category_children := category_children s;
     cache := cache s; cache_hit := cache_hit s; cache_miss := cache_miss s;
     _registered_interests := _registered_interests s;
     audit_log := audit_log s; storage_writes := storage_writes s;
     callback_log := c; clock := clock s |}.

Definition with_clock (c : nat) (s : State) : State :=
  {| configuration := configuration s; category_children := category_children s;
     cache := cache s; cache_hit := cache_hit s; cache_miss := cache_miss s;
     _registered_interests := _registered_interests s;
     audit_log := audit_log s; storage_writes := storage_writes s;
     callback_log := callback_log s; clock := c |}.

(** [datetime.datetime.now()] *)
Definition now : M nat :=
  fun s => (Return (clock s), with_clock (S (clock s)) s).

(** [AuditLogger(self._storage).information(code, details)] *)
Definition audit_information (code : string) (details : pyval) : M unit :=
  modify (fun s => with_audit (audit_log s ++ [(code, details)]) s).

Definition log_write (w : StorageWrite) : M unit :=
  modify (fun s => with_writes (storage_writes s ++ [w]) s).

(* ------------------------------------------------------------------ *)
(** *** ConfigurationCache *)

Module ConfigurationCache.

(** [category_name in self._cacheManager] ([__contains__]) *)
Definition contains (category_name : string) : M bool :=
    c <~ gets cache ;;
    match Dict.get category_name c with
    | Some e =>
        let current_hit := match hit e with Some h => h | None => 0 end in
        modify (fun s => with_hit_miss (S (cache_hit s)) (cache_miss s) s) ;;;
        t <~ now ;;
        modify (fun s =>
          with_cache
            (Dict.set category_name
               {| date_accessed := Some t; value := value e;
                  displayName := displayName e; hit := Some (S current_hit) |}
               (cache s)) s) ;;;
        ret true
    | None =>
        modify (fun s => with_hit_miss (cache_hit s) (S (cache_miss s)) s) ;;;
        ret false
    end.

(** The loop of [remove_oldest]. *)
Fixpoint oldest (c : Dict.t CacheEntry) (names : list string)
      (oldest_entry : option string) : outcome (option string) :=
    match names with
    | [] => Return oldest_entry
    | category_name :: r =>
        match oldest_entry with
        | None => oldest c r (Some category_name)
        | Some o =>
            match Dict.get category_name c, Dict.get o c with
            | Some e, Some eo =>
                match date_accessed e, date_accessed eo with
                | Some d, Some d' =>
                    oldest c r (if (d <? d')%nat then Some category_name else Some o)
                | _, _ => Raise KeyError
                end
            | _, _ => Raise KeyError
            end
        end
    end.

Definition remove_oldest : M unit :=
    c <~ gets cache ;;
    o <~ lift (oldest c (Dict.keys c) None) ;;
    match o with
    | Some oldest_entry =>
        modify (fun s => with_cache (Dict.pop oldest_entry (cache s)) s)
    | None => raise KeyError
    end.

(** [update(category_name, category_val, display_name=None)] *)
Definition update (category_name : string) (category_val : pyval)
      (display_name : option string) : M unit :=
    c <~ gets cache ;;
    (if negb (Dict.mem category_name c) && (MAX_CACHE_SIZE <=? Dict.len c)%nat
     then remove_oldest else ret tt) ;;;
    let display_name :=
      match display_name with None => category_name | Some d => d end in
    t <~ now ;;
    modify (fun s =>
      with_cache
        (Dict.set category_name
           {| date_accessed := Some t; value := category_val;
              displayName := display_name; hit := None |}
           (cache s)) s).

(** [remove(key)] *)
Definition remove (key : string) : M unit :=
    modify (fun s => with_cache (Dict.pop key (cache s)) s).

(** [size] *)
Definition size (s : State) : nat := Dict.len (cache s).

End ConfigurationCache.

(* ================================================================== *)
(** ** ConfigurationManager *)

(** [try: m except KeyError as ex: raise ValueError(str(ex))] *)
Definition except_KeyError {A : Type} (m : M A) : M A :=
  fun s =>
    match m s with
    | (Raise KeyError, s') => (Raise (ValueError "storage"), s')
    | r => r
    end.

(** [try: before; result = await self._storage...; after
     except KeyError: raise ValueError(result['message'])].
    The handler reads [result['message']]. A [KeyError] raised before
    [result] is bound leaves the handler with an unbound local
    ([UnboundLocalError], a [NameError]). One raised after it finds in
    [result] the response of a storage call that went through, which has
    no [message]: the handler raises [KeyError] itself. A storage call
    that fails raises its own error, see [insert_configuration]. *)
Definition except_KeyError_message {A C : Type} (before : M A) (after : A -> M C)
  : M C :=
  fun s =>
    match before s with
    | (Raise KeyError, s') => (Raise NameError, s')
    | (Raise e, s') => (Raise e, s')
    | (Return result, s') =>
        match after result s' with
        | (Raise KeyError, s'') => (Raise KeyError, s'')
        | r => r
        end
    end.

(** The loop of [_run_callbacks] over the callbacks: the callbacks whose
    [run] was awaited, and how the loop ended. *)
Fixpoint run_each {B : Builtins} (category_name : string) (callbacks : list string)
  : list string * outcome unit :=
  match callbacks with
  | [] => ([], Return tt)
  | callback :: r =>
      match import_module callback with
      | NotImportable => ([], Raise ImportError)
      | NoRun => ([], Raise AttributeError)
      | RunNotCoroutine => ([], Raise AttributeError)
      | Run run =>
          match run category_name with
          | Return _ =>
              let '(ran, o) := run_each category_name r in (callback :: ran, o)
          | Raise e => ([callback], Raise e)
          end
      end
  end.

(** [_run_callbacks(category_name)]; [callback_log] gets the callbacks
    whose [run] was awaited. *)
Definition _run_callbacks {B : Builtins} (category_name : string) : M unit :=
  i <~ gets _registered_interests ;;
  let callbacks :=
    match Dict.get category_name i with Some l => l | None => [] end in
  let '(ran, o) := run_each category_name callbacks in
  modify (fun s => with_callbacks (callback_log s ++ [(category_name, ran)]) s) ;;;
  lift o.

(* ------------------------------------------------------------------ *)
(** *** Reads from storage *)

(** [_read_category_val(category_name)]: the value of the first row, or
    [None]. *)
Definition _read_category_val (category_name : string) : M pyval :=
  c <~ gets configuration ;;
  ret (match Dict.get category_name c with
       | Some row => row_value row
       | None => PNone
       end).

(** The JSON path [value -> item_name]. *)
Definition json_path (v : pyval) (item_name : string) : pyval :=
  match v with
  | PDict d => match Dict.get item_name d with Some i => i | None => PNone end
  | _ => PNone
  end.

(** [_read_item_val(category_name, item_name)] *)
Definition _read_item_val (category_name item_name : string) : M pyval :=
  c <~ gets configuration ;;
  ret (match Dict.get category_name c with
       | Some row => json_path (row_value row) item_name
       | None => PNone
       end).

(** [_read_value_val(category_name, item_name)] *)
Definition _read_value_val (category_name item_name : string) : M pyval :=
  c <~ gets configuration ;;
  ret (match Dict.get category_name c with
       | Some row => json_path (json_path (row_value row) item_name) "value"
       | None => PNone
       end).

(** [_read_all_category_names()] *)
Definition _read_all_category_names : M (list (string * string * string)) :=
  c <~ gets configuration ;;
  ret (map (fun kr => (fst kr, row_description (snd kr), row_display_name (snd kr))) c).

(** [_read_all_child_category_names(category_name)], the [child] column. *)
Definition _read_all_child_category_names (category_name : string) (s : State)
  : list string :=
  map snd (filter (fun pc => String.eqb (fst pc) category_name) (category_children s)).

(* ------------------------------------------------------------------ *)
(** *** Writes to storage *)

(** [insert_into_tbl("configuration", ...)]; the key is unique. *)
Definition insert_configuration (key description : string) (v : pyval)
    (display_name : string) : M unit :=
  c <~ gets configuration ;;
  if Dict.mem key c then raise (ValueError "UNIQUE constraint failed")
  else
    log_write (InsertConfiguration key) ;;;
    modify (fun s =>
      with_configuration
        (Dict.set key {| row_description := description; row_value := v;
                         row_display_name := display_name |}
           (configuration s)) s).

(** [update_tbl("configuration", SET value, description, display_name WHERE key)] *)
Definition update_configuration (key description : string) (v : pyval)
    (display_name : string) : M unit :=
  log_write (UpdateConfiguration key) ;;;
  modify (fun s =>
    if Dict.mem key (configuration s) then
      with_configuration
        (Dict.set key {| row_description := description; row_value := v;
                         row_display_name := display_name |}
           (configuration s)) s
    else s).

(** [jsonb_set(value, '{item_name,value}', new_value_val)] *)
Definition json_set_value (v : pyval) (item_name : string) (new_value_val : pyval)
  : pyval :=
  match v with
  | PDict d =>
      match Dict.get item_name d with
      | Some (PDict i) => PDict (Dict.set item_name (PDict (Dict.set "value" new_value_val i)) d)
      | _ => v
      end
  | _ => v
  end.

Definition apply_json_updates (v : pyval) (updates : list (string * pyval)) : pyval :=
  fold_left (fun v u => json_set_value v (fst u) (snd u)) updates v.

Definition set_row_value (key : string) (f : pyval -> pyval) (s : State) : State :=
  match Dict.get key (configuration s) with
  | Some row =>
      with_configuration
        (Dict.set key {| row_description := row_description row;
                         row_value := f (row_value row);
                         row_display_name := row_display_name row |}
           (configuration s)) s
  | None => s
  end.

(** [update_tbl] with one [JSON_PROPERTY] *)
Definition update_item_value (key item_name : string) (new_value_val : pyval)
  : M unit :=
  log_write (UpdateItemValue key item_name new_value_val) ;;;
  modify (set_row_value key (fun v => json_set_value v item_name new_value_val)).

(** [update_tbl] with a list of updates *)
Definition update_item_values (key : string) (updates : list (string * pyval))
  : M unit :=
  log_write (UpdateItemValues key updates) ;;;
  modify (set_row_value key (fun v => apply_json_updates v updates)).

(** [delete_from_tbl("category_children", WHERE child = cat)] *)
Definition delete_children_where_child (cat : string) : M unit :=
  log_write (DeleteChildrenWhereChild cat) ;;;
  modify (fun s =>
    with_children
      (filter (fun pc => negb (String.eqb (snd pc) cat)) (category_children s)) s).

(** [delete_from_tbl("configuration", WHERE key = cat)] *)
Definition delete_configuration (cat : string) : M unit :=
  log_write (DeleteConfiguration cat) ;;;
  modify (fun s => with_configuration (Dict.pop cat (configuration s)) s).

(* ------------------------------------------------------------------ *)
(** *** Cached category values *)

(** [self._cacheManager.cache[category_name]['value']] *)
Definition cached_value (category_name : string) : M pyval :=
  c <~ gets cache ;;
  match Dict.get category_name c with
  | Some e => ret (value e)
  | None => raise KeyError
  end.

(** [self._cacheManager.cache[category_name]['value'] = v], and the
    mutations of that dictionary in place. *)
Definition set_cached_value (category_name : string) (v : pyval) : M unit :=
  c <~ gets cache ;;
  match Dict.get category_name c with
  | Some e =>
      modify (fun s =>
        with_cache
          (Dict.set category_name
             {| date_accessed := date_accessed e; value := v;
                displayName := displayName e; hit := hit e |}
             (cache s)) s)
  | None => raise KeyError
  end.

(** The cache refresh that follows an update of item values:
[[
   if category_name in self._cacheManager.cache:
       if item_name in self._cacheManager.cache[category_name]['value']:
           self._cacheManager.cache[category_name]['value'][item_name]['value'] = new
       else:
           self._cacheManager.cache[category_name]['value'].update({item_name: new})
]]
    where [new] is [source['value']]. *)
Definition refresh_cached_item (category_name item_name : string)
    (source : outcome pyval) : M unit :=
  c <~ gets cache ;;
  if Dict.mem category_name c then
    v <~ cached_value category_name ;;
    present <~ lift (Py.contains v (PStr item_name)) ;;
    if present then
      new <~ lift (src <- source ;; Py.subscript src "value") ;;
      i <~ lift (Py.subscript v item_name) ;;
      i' <~ lift (Py.set_item i "value" new) ;;
      v' <~ lift (Py.set_item v item_name i') ;;
      set_cached_value category_name v'
    else
      new <~ lift (src <- source ;; Py.subscript src "value") ;;
      v' <~ lift (Py.set_item v item_name new) ;;
      set_cached_value category_name v'
  else ret tt.

Section Manager.
Context {B : Builtins}.

(** [isinstance(v, dict) and 'deprecated' in v and v['deprecated'] == 'true'] *)
Definition is_deprecated (item_val : pyval) : outcome bool :=
    present <- Py.contains item_val (PStr "deprecated") ;;
    if present then
      d <- Py.subscript item_val "deprecated" ;;
      Return (Py.eq d (PStr "true"))
    else Return false.

(** The first loop of [_merge_category_vals]: returns the items of
    [category_val_new_copy], what is left of [category_val_storage_copy],
    and [deprecated_items]. *)
Fixpoint merge_items (category_name : string) (items : list (string * pyval))
      (category_val_storage_copy : Dict.t pyval)
    : M (list (string * pyval) * Dict.t pyval * list string) :=
    match items with
    | [] => ret ([], category_val_storage_copy, [])
    | (item_name_new, item_val_new) :: r =>
        let item_val_storage :=
          match Dict.get item_name_new category_val_storage_copy with
          | Some v => v
          | None => PNone
          end in
        step <~
          (if negb (Py.is_None item_val_storage) then
             v <~ lift (match item_val_storage with
                        | PDict d =>
                            Return (match Dict.get "value" d with
                                    | Some v => v
                                    | None => PNone
                                    end)
                        | _ => Raise AttributeError
                        end) ;;
             i <~ lift (Py.set_item item_val_new "value" v) ;;
             ret (i, Dict.pop item_name_new category_val_storage_copy)
           else ret (item_val_new, category_val_storage_copy)) ;;
        let '(item_val_new, category_val_storage_copy) := step in
        deprecated <~ lift (is_deprecated item_val_new) ;;
        (if deprecated then
           old <~ lift (Py.subscript item_val_new "value") ;;
           audit_information "CONCH"
             (PDict [("category", PStr category_name); ("item", PStr item_name_new);
                     ("oldValue", old); ("newValue", PStr "deprecated")])
         else ret tt) ;;;
        rest <~ merge_items category_name r category_val_storage_copy ;;
        let '(items', storage', deprecated_items) := rest in
        ret ((item_name_new, item_val_new) :: items', storage',
             if deprecated then item_name_new :: deprecated_items
             else deprecated_items)
    end.

(** [_merge_category_vals(category_val_new, category_val_storage,
    keep_original_items, category_name)] *)
Definition _merge_category_vals (category_val_new category_val_storage : pyval)
      (keep_original_items : bool) (category_name : string) : M pyval :=
    match category_val_new, category_val_storage with
    | PDict new_items, PDict storage_items =>
        merged <~ merge_items category_name new_items storage_items ;;
        let '(category_val_new_copy, category_val_storage_copy, deprecated_items) :=
          merged in
        let category_val_new_copy :=
          fold_left (fun d item => Dict.pop item d) deprecated_items
            category_val_new_copy in
        let category_val_new_copy :=
          if keep_original_items
          then fold_left (fun d kv => Dict.set (fst kv) (snd kv) d)
                 category_val_storage_copy category_val_new_copy
          else category_val_new_copy in
        ret (PDict category_val_new_copy)
    | _, _ => raise AttributeError
    end.

(** The loop of [_create_new_category] that drops the deprecated items. *)
Fixpoint drop_deprecated (items : list (string * pyval))
    : outcome (list (string * pyval)) :=
    match items with
    | [] => Return []
    | (i, v) :: r =>
        deprecated <- is_deprecated v ;;
        r' <- drop_deprecated r ;;
        Return (if deprecated then r' else (i, v) :: r')
    end.

(** [_create_new_category(category_name, category_val, category_description,
    display_name)] *)
Definition _create_new_category (category_name : string) (category_val : pyval)
      (category_description : string) (display_name : option string) : M unit :=
    let display_name :=
      match display_name with None => category_name | Some d => d end in
    except_KeyError_message
      (new_category_val <~
         lift (match category_val with
               | PDict items => r <- drop_deprecated items ;; Return (PDict r)
               | _ => Return category_val
               end) ;;
       audit_information "CONAD"
         (PDict [("name", PStr category_name); ("category", new_category_val)]) ;;;
       insert_configuration category_name category_description new_category_val
         display_name ;;;
       ret new_category_val)
      (fun new_category_val =>
         ConfigurationCache.update category_name new_category_val (Some display_name)).

(** [_update_category(category_name, category_val, category_description,
    display_name)] *)
Definition _update_category (category_name : string) (category_val : pyval)
      (category_description : string) (display_name : option string) : M unit :=
    let display_name :=
      match display_name with None => category_name | Some d => d end in
    except_KeyError_message
      (update_configuration category_name category_description category_val
         display_name)
      (fun _ =>
       new_category_val_db <~ _read_category_val category_name ;;
       c <~ gets cache ;;
       match Dict.get category_name c with
       | Some e =>
           modify (fun s =>
             with_cache
               (Dict.set category_name
                  {| date_accessed := date_accessed e; value := new_category_val_db;
                     displayName := display_name; hit := hit e |}
                  (cache s)) s)
       | None =>
           (* self._cacheManager.cache.update({category_name: {...}}) *)
           modify (fun s =>
             with_cache
               (Dict.set category_name
                  {| date_accessed := None; value := new_category_val_db;
                     displayName := display_name; hit := None |}
                  (cache s)) s)
       end).

(** [_update_value_val(category_name, item_name, new_value_val)] *)
Definition _update_value_val (category_name item_name : string)
      (new_value_val : pyval) : M unit :=
    except_KeyError
      (old_value <~ _read_value_val category_name item_name ;;
       update_item_value category_name item_name new_value_val ;;;
       audit_information "CONCH"
         (PDict [("category", PStr category_name); ("item", PStr item_name);
                 ("oldValue", old_value); ("newValue", new_value_val)])).

(** [get_category_all_items(category_name)] *)
Definition get_category_all_items (category_name : string) : M pyval :=
    cached <~ ConfigurationCache.contains category_name ;;
    if cached then cached_value category_name
    else
      cat <~ _read_category_val category_name ;;
      (if negb (Py.is_None cat)
       then ConfigurationCache.update category_name cat None
       else ret tt) ;;;
      ret cat.

(** [get_category_item(category_name, item_name)] *)
Definition get_category_item (category_name item_name : string) : M pyval :=
    cached <~ ConfigurationCache.contains category_name ;;
    if cached then
      v <~ cached_value category_name ;;
      present <~ lift (Py.contains v (PStr item_name)) ;;
      if negb present then ret PNone
      else lift (Py.subscript v item_name)
    else
      cat_item <~ _read_item_val category_name item_name ;;
      (if negb (Py.is_None cat_item) then
         cat <~ _read_category_val category_name ;;
         if negb (Py.is_None cat) then
           ConfigurationCache.update category_name cat None ;;;
           v <~ cached_value category_name ;;
           v' <~ lift (Py.set_item v item_name cat_item) ;;
           set_cached_value category_name v'
         else ret tt
       else ret tt) ;;;
      ret cat_item.

(** The validation of a new value against the stored item, shared by
    [set_category_item_value_entry] and [update_configuration_item_bulk]
    (which raises the same exceptions in the same order). *)
Definition check_new_value (storage_value_entry new_value_entry : pyval)
    : outcome unit :=
    t <- Py.subscript storage_value_entry "type" ;;
    if Py.eq t (PStr "enumeration") then
      if Py.eq new_value_entry (PStr "")
      then Raise (ValueError "entry_val cannot be empty")
      else
        options <- Py.subscript storage_value_entry "options" ;;
        present <- Py.contains options new_value_entry ;;
        if present then Return tt
        else Raise (ValueError "new value does not exist in options enum")
    else
      t <- Py.subscript storage_value_entry "type" ;;
      r <- _validate_type_value t new_value_entry ;;
      if is_False r then Raise (TypeError "Unrecognized value name for item_name")
      else Return tt.

(** [set_category_item_value_entry(category_name, item_name, new_value_entry)];
    returns [true] when it went as far as the callbacks and [false] when
    it returned early. *)
Definition set_category_item_value_entry (category_name item_name : string)
      (new_value_entry : pyval) : M bool :=
    cached <~ ConfigurationCache.contains category_name ;;
    found <~
      (if cached then
         v <~ cached_value category_name ;;
         present <~ lift (Py.contains v (PStr item_name)) ;;
         if negb present
         then raise (ValueError "No detail found for the category_name and item_name")
         else
           storage_value_entry <~ lift (Py.subscript v item_name) ;;
           current <~ lift (Py.subscript storage_value_entry "value") ;;
           if Py.eq current new_value_entry then ret None
           else ret (Some storage_value_entry)
       else
         storage_value_entry <~ _read_item_val category_name item_name ;;
         if Py.is_None storage_value_entry
         then raise (ValueError "No detail found for the category_name and item_name")
         else if Py.eq storage_value_entry new_value_entry then ret None
         else ret (Some storage_value_entry)) ;;
    match found with
    | None => ret false
    | Some storage_value_entry =>
        lift (check_new_value storage_value_entry new_value_entry) ;;;
        t <~ lift (Py.subscript storage_value_entry "type") ;;
        new_value_entry <~ lift (_clean t new_value_entry) ;;
        _update_value_val category_name item_name new_value_entry ;;;
        cat_item <~ _read_item_val category_name item_name ;;
        refresh_cached_item category_name item_name (Return cat_item) ;;;
        _run_callbacks category_name ;;;
        ret true
    end.

(** The checks of one [(item_name, new_val)] of the bulk update; returns
    [old_value] and the cleaned [new_val]. *)
Definition bulk_check_item (cat_info : pyval) (item_name : string) (new_val : pyval)
    : outcome (pyval * pyval) :=
    present <- Py.contains cat_info (PStr item_name) ;;
    if negb present then Raise KeyError
    else
      item <- Py.subscript cat_info item_name ;;
      t <- Py.subscript item "type" ;;
      _ <- (if Py.eq t (PStr "JSON") then
              if Py.is_dict new_val then Return tt
              else if negb (Py.is_str new_val)
              then Raise (TypeError "new value should be a valid dict Or a string literal")
              else Return tt
            else if negb (Py.is_str new_val)
            then Raise (TypeError "new value should be of type string")
            else Return tt) ;;
      _ <- check_new_value item new_val ;;
      old_value <- Py.subscript item "value" ;;
      t <- Py.subscript item "type" ;;
      new_val <- _clean t new_val ;;
      Return (old_value, new_val).

(** The first loop of the bulk update: the updates of the payload and the
    [items] of the audit details. *)
Fixpoint bulk_collect (cat_info : pyval) (config_item_list : list (string * pyval))
      (updates : list (string * pyval)) (audit_items : Dict.t pyval)
    : outcome (list (string * pyval) * Dict.t pyval) :=
    match config_item_list with
    | [] => Return (updates, audit_items)
    | (item_name, new_val) :: r =>
        checked <- bulk_check_item cat_info item_name new_val ;;
        let '(old_value, new_val) := checked in
        if negb (Py.eq old_value new_val) then
          bulk_collect cat_info r
            (updates ++ [(item_name, new_val)])
            (Dict.set item_name
               (PDict [("oldValue", old_value); ("newValue", new_val)]) audit_items)
        else bulk_collect cat_info r updates audit_items
    end.

(** The second loop of the bulk update: the refresh of the cached items. *)
Fixpoint bulk_refresh (category_name : string) (cat_value : pyval)
      (config_item_list : list (string * pyval)) : M unit :=
    match config_item_list with
    | [] => ret tt
    | (item_name, _) :: r =>
        refresh_cached_item category_name item_name
          (Py.subscript cat_value item_name) ;;;
        bulk_refresh category_name cat_value r
    end.

(** [update_configuration_item_bulk(category_name, config_item_list)];
    returns [true] when it went as far as the callbacks and [false] when
    it returned early. *)
Definition update_configuration_item_bulk (category_name : string)
      (config_item_list : Dict.t pyval) : M bool :=
    cat_info <~ get_category_all_items category_name ;;
    if Py.is_None cat_info then raise NameError
    else
      collected <~ lift (bulk_collect cat_info config_item_list [] []) ;;
      let '(updates, audit_items) := collected in
      match updates with
      | [] => ret false
      | _ =>
          update_item_values category_name updates ;;;
          cat_value <~ _read_category_val category_name ;;
          bulk_refresh category_name cat_value config_item_list ;;;
          audit_information "CONCH"
            (PDict [("category", PStr category_name); ("items", PDict audit_items)]) ;;;
          _run_callbacks category_name ;;;
          ret true
      end.

(** The loop of [create_category] that looks up [display_name_storage]. *)
Fixpoint find_display_name (category_name : string)
      (all_categories : list (string * string * string)) : option string :=
    match all_categories with
    | [] => None
    | (key, _, display_name) :: r =>
        if String.eqb key category_name then Some display_name
        else find_display_name category_name r
    end.

(** [create_category(category_name, category_value, category_description,
    keep_original_items, display_name)]; returns [true] when it went as far
    as the callbacks and [false] when it returned early. *)
Definition create_category (category_name : string) (category_value : pyval)
      (category_description : string) (keep_original_items : bool)
      (display_name : option string) : M bool :=
    category_val_prepared <~ lift (_validate_category_val category_value true) ;;
    category_val_storage <~ _read_category_val category_name ;;
    continue <~
      (if Py.is_None category_val_storage then
         _create_new_category category_name category_val_prepared
           category_description display_name ;;;
         ret true
       else
         match _validate_category_val category_val_storage false with
         | Raise _ =>
             (* logged: "from storage is corrupted; using category_value
                without merge" *)
             ret true
         | Return category_val_storage =>
             all_categories <~ _read_all_category_names ;;
             let display_name_storage :=
               find_display_name category_name all_categories in
             display_name <~
               (match display_name with
                | None =>
                    match display_name_storage with
                    | Some d => ret (Some d)
                    | None => raise NameError
                    end
                | Some d => ret (Some d)
                end) ;;
             category_val_prepared <~
               _merge_category_vals category_val_prepared category_val_storage
                 keep_original_items category_name ;;
             if Py.json_dumps_sorted_eq category_val_prepared category_val_storage
             then
               match display_name_storage, display_name with
               | None, _ => raise NameError
               | Some ds, Some d =>
                   if String.eqb ds d then ret false
                   else
                     _update_category category_name category_val_prepared
                       category_description display_name ;;;
                     ret true
               | Some _, None =>
                   _update_category category_name category_val_prepared
                     category_description display_name ;;;
                   ret true
               end
             else
               _update_category category_name category_val_prepared
                 category_description display_name ;;;
               ret true
         end) ;;
    if continue then _run_callbacks category_name ;;; ret true
    else ret false.

  (* ---------------------------------------------------------------- *)
  (** *** Recursive delete *)

(** [_fetch_descendents(cat)]. The recursion of the source has no bound
    of its own; [fuel] bounds its depth and [None] is a recursion that
    goes deeper. *)
Fixpoint _fetch_descendents (fuel : nat) (s : State) (cat : string)
    : option (list string) :=
    match fuel with
    | O => None
    | S fuel' =>
        (fix loop (children : list string) : option (list string) :=
           match children with
           | [] => Some []
           | child :: r =>
               match _fetch_descendents fuel' s child with
               | None => None
               | Some child_descendents =>
                   match loop r with
                   | None => None
                   | Some descendents => Some (child :: child_descendents ++ descendents)
                   end
               end
           end) (_read_all_child_category_names cat s)
    end.

(** What [_delete_recursively] does for [cat] once its children are gone. *)
Definition delete_one (cat : string) : M unit :=
    delete_children_where_child cat ;;;
    delete_configuration cat ;;;
    audit_information "CONCH" (PDict [("categoryDeleted", PStr cat)]) ;;;
    c <~ gets cache ;;
    if Dict.mem cat c then ConfigurationCache.remove cat else ret tt.

(** [_delete_recursively(cat)] *)
Fixpoint _delete_recursively (fuel : nat) (cat : string) (s : State)
    : option (outcome unit * State) :=
    match fuel with
    | O => None
    | S fuel' =>
        match
          (fix loop (children : list string) (s : State)
             : option (outcome unit * State) :=
             match children with
             | [] => Some (Return tt, s)
             | child :: r =>
                 match _delete_recursively fuel' child s with
                 | Some (Return _, s') => loop r s'
                 | other => other
                 end
             end) (_read_all_child_category_names cat s) s
        with
        | Some (Return _, s') => Some (except_KeyError (delete_one cat) s')
        | other => other
        end
    end.

(** [delete_category_and_children_recursively(category_name)] *)
Definition delete_category_and_children_recursively (fuel : nat)
      (category_name : string) (s : State) : option (outcome unit * State) :=
    match _read_category_val category_name s with
    | (Raise e, s') => Some (Raise e, s')
    | (Return category, s') =>
        if Py.is_None category
        then Some (Raise (ValueError "No such category exist"), s')
        else
          match _fetch_descendents fuel s' category_name with
          | None => None
          | Some catg_descendents =>
              if existsb (fun catg => existsb (String.eqb catg) catg_descendents)
                   RESERVED_CATG
              then Some (Raise (ValueError "Reserved category found in descendents"), s')
              else _delete_recursively fuel category_name s'
          end
    end.
End Manager.

(* ================================================================== *)
(** ** An instance of the library functions for the worked examples *)

Module Example.

Definition is_digit (c : ascii) : bool :=
    let n := nat_of_ascii c in (48 <=? n)%nat && (n <=? 57)%nat.

Fixpoint all_digits (s : string) : bool :=
    match s with
    | EmptyString => true
    | String c r => is_digit c && all_digits r
    end.

(** Unsigned decimal literals of at most nine digits without a leading
    zero: [int] and [float] parse them, and [str(float(s))] is [s]
    followed by [.0]. *)
Definition plain_decimal (s : string) : bool :=
    match s with
    | EmptyString => false
    | String c r =>
        all_digits s && (String.length s <=? 9)%nat
        && (negb (Ascii.eqb c "0") || String.eqb s "0")
    end.

(** The strings [d.0] with [d] a plain decimal. *)
Definition plain_float (s : string) : bool :=
    let n := String.length s in
    (2 <? n)%nat
    && plain_decimal (String.substring 0 (n - 2) s)
    && String.eqb (String.substring (n - 2) 2 s) ".0".

(** The library functions on the literals the examples use: plain
    decimals and the floats printed from them; nothing else is
    recognised. The modules below [foglamp.] import and have a [run]
    that returns; no other module can be imported. *)
#[export] Instance builtins : Builtins := {|
    int_parses := plain_decimal;
    float_str := fun s =>
      if plain_decimal s then Some (s ++ ".0")%string
      else if plain_float s then Some s
      else None;
    ip_address := fun _ => None;
    url_scheme_and_netloc := fun _ => false;
    is_json := fun _ => false;
    import_module := fun callback =>
      if String.prefix "foglamp." callback then Run (fun _ => Return tt)
      else NotImportable
  |}.

Definition empty : State := {|
    configuration := []; category_children := [];
    cache := []; cache_hit := 0; cache_miss := 0;
    _registered_interests := [];
    audit_log := []; storage_writes := []; callback_log := [];
    clock := 0
  |}.

(** [{"age": {"description": "d", "type": "integer", "default": default}}] *)
Definition age_item (default : string) : pyval :=
  PDict [("description", PStr "d"); ("type", PStr "integer"); ("default", PStr default)].

Definition purge (default : string) : pyval := PDict [("age", age_item default)].

(** The stored form of [age_item]: [default] and [value]. *)
Definition stored_age_item (default value : string) : pyval :=
  PDict [("description", PStr "d"); ("type", PStr "integer");
         ("default", PStr default); ("value", PStr value)].

(** A manager that has just started on a storage holding one category. *)
Definition started_on (key : string) (v : pyval) : State :=
  with_configuration
    [(key, {| row_description := ""; row_value := v; row_display_name := key |})]
    empty.

(** The state a computation leaves, and a sequence of calls. *)
Definition state_after {A : Type} (m : M A) (s : State) : State := snd (m s).

Fixpoint run_all {A : Type} (ms : list (M A)) (s : State) : State :=
  match ms with
  | [] => s
  | m :: r => run_all r (state_after m s)
  end.

Definition eleven_names : list string :=
  ["c00"; "c01"; "c02"; "c03"; "c04"; "c05"; "c06"; "c07"; "c08"; "c09"; "c10"].

(** Eleven categories are created, then the first one is created again
    with another default. *)
Definition eleven_creates_and_an_update : list (M bool) :=
  map (fun k => create_category k (purge "72") "" false None) eleven_names
  ++ [create_category "c00" (purge "100") "" false None].

(** An item marked as deprecated. *)
Definition deprecated_age_item (default : string) : pyval :=
  PDict [("description", PStr "d"); ("type", PStr "integer"); ("default", PStr default);
         ("deprecated", PStr "true")].

End Example.

(* ================================================================== *)
(** ** Scheduler: states and schedules used in the statements *)

Module SchedulerSpec.
Import Scheduler.

(** The states the scheduler reaches: a schedule that has tasks is known,
    and so is its process. *)
Definition known_tasks (s : State) : Prop :=
  forall schedule_id e,
    Dict.get schedule_id (_schedule_executions s) = Some e ->
    task_processes e <> [] ->
    exists schedule args,
      Dict.get schedule_id (_schedules s) = Some schedule /\
      Dict.get (scheduled_process_name schedule) (_scheduled_processes s) = Some args.

Definition signals (tasks : list (string * Process)) : list Effect :=
  flat_map (fun tp => if exited (snd tp) then [] else [Terminate (pid (snd tp))]) tasks.

Definition all_signals (s : State) (schedule_ids : list string) : list Effect :=
  flat_map (fun schedule_id =>
              match Dict.get schedule_id (_schedule_executions s) with
              | Some e => signals (task_processes e)
              | None => []
              end) schedule_ids.


Definition every_ten_seconds : Schedule := {|
id := "b1"; name := "backup"; type := INTERVAL; repeat_seconds := Some 10%Z;
exclusive := true; scheduled_process_name := "backup" |}.

(** The state after [every_ten_seconds] was due at [prev_next]. *)
Definition waiting (prev_next : Q) (tasks : Dict.t Process) : State := {|
_start_time := Some 0%Q; _paused := false;
_scheduled_processes := [("backup", ["backup.sh"])];
_schedules := [("b1", every_ten_seconds)];
_schedule_executions :=
  [("b1", {| next_start_time := Some prev_next; task_processes := tasks |})];
_active_task_count := Z.of_nat (List.length tasks); _main_sleep_task := true |}.

Definition two_tasks : Dict.t Process :=
[("t1", {| pid := 101; exited := false |}); ("t2", {| pid := 102; exited := false |})].

End SchedulerSpec.

(* ================================================================== *)
(** ** Recursive delete: the tree of categories *)

Module TreeSpec.

(** [c] is a descendant of [p] in the [category_children] table. *)
Inductive descends (s : State) : string -> string -> Prop :=
| descends_child p c :
    In (p, c) (category_children s) -> descends s p c
| descends_step p c d :
    In (p, c) (category_children s) -> descends s c d -> descends s p d.

(** The table has no cycle: children rank below their parents. *)
Definition ranked (rank : string -> nat) (s : State) : Prop :=
  forall p c, In (p, c) (category_children s) -> rank c < rank p.

(** The loops of [_fetch_descendents] and [_delete_recursively] over the
    children, by name. *)
Section FetchLoop.
Variables (s : State) (rec : string -> option (list string)).
Definition fetch_loop :=
    fix loop (children : list string) : option (list string) :=
      match children with
      | [] => Some []
      | child :: r =>
          match rec child with
          | None => None
          | Some child_descendents =>
              match loop r with
              | None => None
              | Some descendents => Some (child :: child_descendents ++ descendents)
              end
          end
      end.
End FetchLoop.

Section DeleteLoop.
Variable rec : string -> State -> option (outcome unit * State).
Definition delete_loop :=
    fix loop (children : list string) (s : State) : option (outcome unit * State) :=
      match children with
      | [] => Some (Return tt, s)
      | child :: r =>
          match rec child s with
          | Some (Return _, s') => loop r s'
          | other => other
          end
      end.
End DeleteLoop.

Definition category_exists (s : State) (name : string) : Prop :=
  exists row, Dict.get name (configuration s) = Some row /\ row_value row <> PNone.

(** Scenario 8 of the specification: [A -> B -> SCHEDULER]. *)
Definition reserved_below : State :=
  with_children [("A", "B"); ("B", "SCHEDULER")]
    (with_configuration
       (map (fun k => (k, {| row_description := ""; row_value := PDict [];
                             row_display_name := k |}))
            ["A"; "B"; "SCHEDULER"])
Example.empty).

Definition rank_below (k : string) : nat :=
  if String.eqb k "A" then 2 else if String.eqb k "B" then 1 else 0.

End TreeSpec.

(* ================================================================== *)
(** ** Reads through the cache *)

Module ManagerSpec.

(** What a read through the cache leaves alone: storage, the logs and the
    registered interests. *)
Definition same_storage_and_logs (s s' : State) : Prop :=
  configuration s' = configuration s
  /\ category_children s' = category_children s
  /\ storage_writes s' = storage_writes s
  /\ audit_log s' = audit_log s
  /\ callback_log s' = callback_log s
  /\ _registered_interests s' = _registered_interests s.

(** The callbacks registered for a category, in the order in which
    [_run_callbacks] takes them. *)
Definition callbacks_of (s : State) (category_name : string) : list string :=
  match Dict.get category_name (_registered_interests s) with
  | Some callbacks => callbacks
  | None => []
  end.

(** Every callback registered for the category can be imported and has a
    coroutine [run] that returns. *)
Definition callbacks_run {B : Builtins} (s : State) (category_name : string) : Prop :=
  forall callback, In callback (callbacks_of s category_name) ->
    exists run, import_module callback = Run run /\ run category_name = Return tt.

(** The callbacks [_run_callbacks] runs for the category in state [s],
    and what a call that ends with [_run_callbacks] and would return [a]
    gives: [a] when the loop over the callbacks returns, and else the
    error the loop raises. *)
Definition callbacks_ran {B : Builtins} (s : State) (category_name : string)
  : list string :=
  fst (run_each category_name (callbacks_of s category_name)).

Definition after_callbacks {B : Builtins} {A : Type} (s : State) (category_name : string)
    (a : A) : outcome A :=
  match snd (run_each category_name (callbacks_of s category_name)) with
  | Return _ => Return a
  | Raise e => Raise e
  end.

(** The items of a prepared category value: dictionaries with a [value]
    entry. *)
Definition prepared_items (items : Dict.t pyval) : Prop :=
  Forall (fun kv => exists d, snd kv = PDict d /\ Dict.get "value" d <> None) items.

(** The items of a validated category value are dictionaries. *)
Definition dict_items (items : Dict.t pyval) : Prop :=
  Forall (fun kv => exists d, snd kv = PDict d) items.

(** [d.get('value')] *)
Definition get_value (d : Dict.t pyval) : pyval :=
  match Dict.get "value" d with Some v => v | None => PNone end.

(** The item the first loop of the merge leaves for [item_val_new]. *)
Definition merged_item (item_val_new : pyval) (storage : Dict.t pyval)
    (item_name : string) : pyval :=
  match item_val_new, Dict.get item_name storage with
  | PDict new, Some (PDict stored) => PDict (Dict.set "value" (get_value stored) new)
  | _, _ => item_val_new
  end.

(** How the expected entries of the second validation (of the stored
    value) relate to those of the first: the same names and [value] are
    expected, and nothing but [value] is newly missing. *)
Definition expected_rel (e e' : Dict.t mark) : Prop :=
  NoDup (Dict.keys e')
  /\ Dict.get "value" e' <> None
  /\ (forall m, Dict.get m e <> None -> Dict.get m e' <> None)
  /\ (forall m, Dict.get m e' = Some M0 -> m = "value" \/ Dict.get m e = Some M0).

(** An entry of the stored item against the entry it was prepared from. *)
Definition entry_rel (n : string) (v v' : pyval) : Prop :=
  v' = v
  \/ ((n = "readonly" \/ n = "deprecated") /\ exists s, v = PStr s /\ v' = PStr (Py.lower s))
  \/ (n = "default" /\ Py.is_str v' = true).

Definition entries_rel (x y : string * pyval) : Prop :=
  fst x = fst y /\ entry_rel (fst x) (snd x) (snd y).

Definition item_rel (raw item' : Dict.t pyval) : Prop :=
  Dict.get "type" item' = Dict.get "type" raw
  /\ Dict.mem "options" item' = Dict.mem "options" raw
  /\ (is_enumeration raw = Return true ->
      Dict.get "default" item' = Dict.get "default" raw).

(** [str(float(s))] parses as a float again. *)
Definition float_str_parses {B : Builtins} : Prop :=
  forall s c, float_str s = Some c -> float_str c <> None.

(** Every cache entry has its access time (entries stored by
    [ConfigurationCache.update] do). *)
Definition cache_dated (s : State) : Prop :=
  Forall (fun ke => date_accessed (snd ke) <> None) (cache s).

(** No item is marked as deprecated. *)
Definition none_deprecated (items : Dict.t pyval) : Prop :=
  Forall (fun kv => is_deprecated (snd kv) = Return false) items.

(** The display name a category is stored with. *)
Definition stored_display_name (category_name : string) (display_name : option string)
  : string :=
  match display_name with None => category_name | Some d => d end.

End ManagerSpec.

(* ================================================================== *)
(** ** Parent-child relations between categories *)

(** [_read_child_info(child_list)]: the [key], [description] and
    [display_name] of the rows of [configuration] whose key is a child. *)
Definition _read_child_info (child_list : list string) (s : State)
  : list (string * string * string) :=
  flat_map (fun child =>
              match Dict.get child (configuration s) with
              | Some row => [(child, row_description row, row_display_name row)]
              | None => []
              end) child_list.

Definition child_eqb (a b : string * string) : bool :=
  String.eqb (fst a) (fst b) && String.eqb (snd a) (snd b).

(** [_create_child(category_name, child)]: a pair the table holds already
    fails its uniqueness constraint, and the error of the storage service
    is raised as [ValueError]. *)
Definition _create_child (category_name child : string) : M unit :=
  c <~ gets category_children ;;
  if existsb (child_eqb (category_name, child)) c
  then raise (ValueError "UNIQUE constraint failed")
  else
    log_write (InsertChild category_name child) ;;;
    modify (fun s => with_children (category_children s ++ [(category_name, child)]) s).

(** [delete_from_tbl("category_children", WHERE parent = p AND child = c)] *)
Definition delete_child (parent child : string) : M unit :=
  log_write (DeleteChild parent child) ;;;
  modify (fun s =>
    with_children
      (filter (fun pc => negb (child_eqb pc (parent, child))) (category_children s)) s).

(** [delete_from_tbl("category_children", WHERE parent = p)] *)
Definition delete_children_where_parent (parent : string) : M unit :=
  log_write (DeleteChildrenWhereParent parent) ;;;
  modify (fun s =>
    with_children
      (filter (fun pc => negb (String.eqb (fst pc) parent)) (category_children s)) s).

(** [get_category_child(category_name)]: the list of
    [{"key", "description", "displayName"}]. *)
Definition get_category_child (category_name : string)
  : M (list (string * string * string)) :=
  category <~ _read_category_val category_name ;;
  if Py.is_None category then raise (ValueError "No such category exist")
  else
    child_cat_names <~ gets (_read_all_child_category_names category_name) ;;
    gets (_read_child_info child_cat_names).

(** The loop of [create_child_category] over the requested children. *)
Fixpoint check_children_exist (children : list string) : M unit :=
  match children with
  | [] => ret tt
  | child :: r =>
      category <~ _read_category_val child ;;
      if Py.is_None category then raise (ValueError "No such child exist")
      else check_children_exist r
  end.

(** [diff(lst1, lst2)] *)
Definition diff (lst1 lst2 : list string) : list string :=
  filter (fun v => negb (existsb (String.eqb v) lst1)) lst2.

(** The loop of [create_child_category] over [new_children]. *)
Fixpoint create_children (category_name : string) (new_children : list string) : M unit :=
  match new_children with
  | [] => ret tt
  | a_new_child :: r =>
      _create_child category_name a_new_child ;;;
      create_children category_name r
  end.

(** [create_child_category(category_name, children)]; returns the list
    under ["children"]. *)
Definition create_child_category (category_name : string) (children : pyval)
  : M (list string) :=
  match children with
  | PList children =>
      category <~ _read_category_val category_name ;;
      if Py.is_None category then raise (ValueError "No such category exist")
      else
        check_children_exist children ;;;
        children_from_storage <~ gets (_read_all_child_category_names category_name) ;;
        let new_children := diff children_from_storage children in
        create_children category_name new_children ;;;
        ret (children_from_storage ++ new_children)
  | _ => raise (TypeError "children must be a list")
  end.

(** [delete_child_category(category_name, child_category)] *)
Definition delete_child_category (category_name child_category : string)
  : M (list string) :=
  category <~ _read_category_val category_name ;;
  if Py.is_None category then raise (ValueError "No such category exist")
  else
    child <~ _read_category_val child_category ;;
    if Py.is_None child then raise (ValueError "No such child exist")
    else
      delete_child category_name child_category ;;;
      gets (_read_all_child_category_names category_name).

(** [delete_parent_category(category_name)] *)
Definition delete_parent_category (category_name : string) : M unit :=
  category <~ _read_category_val category_name ;;
  if Py.is_None category then raise (ValueError "No such category exist")
  else delete_children_where_parent category_name.

(** [get_category_item_value_entry(category_name, item_name)] *)
Definition get_category_item_value_entry (category_name item_name : string) : M pyval :=
  _read_value_val category_name item_name.

(* ------------------------------------------------------------------ *)
(** *** Registered interests *)

Definition with_interests (i : Dict.t (list string)) (s : State) : State :=
  {| configuration := configuration s; category_children := category_children s;
     cache := cache s; cache_hit := cache_hit s; cache_miss := cache_miss s;
     _registered_interests := i;
     audit_log := audit_log s; storage_writes := storage_writes s;
     callback_log := callback_log s; clock := clock s |}.

(** The sets of callbacks are lists without duplicates, in the order in
    which the loop of [_run_callbacks] takes the callbacks. Python leaves
    the order of a set open; [callbacks.add(c)] is taken to put a new
    callback last, and [callbacks.discard(c)] to keep the order of the
    others. *)
Definition set_add (c : string) (callbacks : list string) : list string :=
  if existsb (String.eqb c) callbacks then callbacks else callbacks ++ [c].

Definition set_discard (c : string) (callbacks : list string) : list string :=
  filter (fun c' => negb (String.eqb c c')) callbacks.

(** [register_interest(category_name, callback)]; an argument that is
    [None] in Python is [None] here. *)
Definition register_interest (category_name callback : option string) : M unit :=
  match category_name, callback with
  | None, _ =>
      raise (ValueError "Failed to register interest. category_name cannot be None")
  | Some _, None =>
      raise (ValueError "Failed to register interest. callback cannot be None")
  | Some category_name, Some callback =>
      i <~ gets _registered_interests ;;
      match Dict.get category_name i with
      | None =>
          modify (fun s =>
            with_interests (Dict.set category_name [callback] (_registered_interests s)) s)
      | Some callbacks =>
          modify (fun s =>
            with_interests
              (Dict.set category_name (set_add callback callbacks) (_registered_interests s))
              s)
      end
  end.

(** [unregister_interest(category_name, callback)] *)
Definition unregister_interest (category_name callback : option string) : M unit :=
  match category_name, callback with
  | None, _ =>
      raise (ValueError "Failed to unregister interest. category_name cannot be None")
  | Some _, None =>
      raise (ValueError "Failed to unregister interest. callback cannot be None")
  | Some category_name, Some callback =>
      i <~ gets _registered_interests ;;
      match Dict.get category_name i with
      | Some callbacks =>
          if existsb (String.eqb callback) callbacks then
            let callbacks := set_discard callback callbacks in
            if (List.length callbacks =? 0)%nat
            then modify (fun s =>
                   with_interests (Dict.pop category_name (_registered_interests s)) s)
            else modify (fun s =>
                   with_interests
                     (Dict.set category_name callbacks (_registered_interests s)) s)
          else ret tt
      | None => ret tt
      end
  end.

(** [callback] is registered for [category_name]. *)
Definition registered (s : State) (category_name callback : string) : Prop :=
  exists callbacks,
    Dict.get category_name (_registered_interests s) = Some callbacks
    /\ In callback callbacks.

(* ================================================================== *)
(** ** Scheduler: start *)

Module SchedulerStart.
Import Scheduler.

(** [start()], with [now] the value of [time.time()]. *)
Definition start (now : Q) (s : State) : outcome unit * State * list Effect :=
  match _start_time s with
  | Some t =>
      if negb (Qeq_bool t 0)
      then (Raise RuntimeError, s, [])
      else (Return tt, set_start_time (Some now) s, [EnsureFutureMain])
  | None => (Return tt, set_start_time (Some now) s, [EnsureFutureMain])
  end.

(** A scheduler that has read the process table and no schedule yet. *)
Definition idle : State := {|
  _start_time := Some 100%Q; _paused := false;
  _scheduled_processes := [("backup", ["backup.sh"])];
  _schedules := []; _schedule_executions := [];
  _active_task_count := 0; _main_sleep_task := false |}.

End SchedulerStart.

(* ================================================================== *)
(** ** Trees of categories used in the statements *)

Module ChildSpec.

(** The children [create_child_category] has to insert. *)
Definition new_children (category_name : string) (children : list string) (s : State)
  : list string :=
  diff (_read_all_child_category_names category_name s) children.

(** Four categories, [C] below both [A] and [B]: [A -> B -> C], [A -> C],
    and [D] on its own. *)
Definition family : State :=
  with_children [("A", "B"); ("A", "C"); ("B", "C")]
    (with_configuration
       (map (fun k => (k, {| row_description := "about " ++ k; row_value := PDict [];
                             row_display_name := k |}))
            ["A"; "B"; "C"; "D"]) Example.empty).

Definition family_rank (k : string) : nat :=
  if String.eqb k "A" then 2 else if String.eqb k "B" then 1 else 0.

(** What a run of [_delete_recursively], or of its loop over the
    children, has done between [s] and [s']: [D] are the categories it
    deleted. *)
Definition deleted_by (D : list string) (s s' : State) : Prop :=
  (forall d x, In d D -> In (d, x) (category_children s) -> In x D)
  /\ category_children s'
     = filter (fun pc => negb (existsb (String.eqb (snd pc)) D)) (category_children s)
  /\ (forall k, Dict.get k (configuration s')
                = if existsb (String.eqb k) D then None else Dict.get k (configuration s))
  /\ NoDup (Dict.keys (configuration s')).

End ChildSpec.

(* ================================================================== *)
(** ** The cache against storage *)

Module CacheSpec.

(** [date_accessed] of the entry of [k], when there is one. *)
Definition date_of (c : Dict.t CacheEntry) (k : string) : option nat :=
  match Dict.get k c with Some e => date_accessed e | None => None end.

(** The cached value of a category is the stored one. *)
Definition coherent_at (category_name : string) (s : State) : Prop :=
  forall e, Dict.get category_name (cache s) = Some e ->
    exists row, Dict.get category_name (configuration s) = Some row
                /\ value e = row_value row.

(** A full cache: ten entries, accessed at the times 5 to 14. *)
Definition ten_entries : State :=
  with_cache
    (map (fun kd => (fst kd, {| date_accessed := Some (snd kd); value := PDict [];
                                displayName := fst kd; hit := None |}))
         (combine (firstn 10 Example.eleven_names) (seq 5 10)))
    (with_clock 20 Example.empty).

(** Neither the cache nor, for a category that is not cached, storage
    has the item. *)
Definition item_unknown (category_name item_name : string) (s : State) : Prop :=
  match Dict.get category_name (cache s) with
  | Some e => exists d, value e = PDict d /\ Dict.get item_name d = None
  | None =>
      forall row, Dict.get category_name (configuration s) = Some row ->
                  json_path (row_value row) item_name = PNone
  end.

(** The row of a category whose item [item_name] is the dictionary [i]. *)
Definition stored_item (category_name item_name : string) (s : State)
    (row : Row) (d i : Dict.t pyval) : Prop :=
  Dict.get category_name (configuration s) = Some row
  /\ row_value row = PDict d
  /\ Dict.get item_name d = Some (PDict i).

(** The row after [jsonb_set] has put [v] under [item_name -> value]. *)
Definition row_with_value (row : Row) (d i : Dict.t pyval) (item_name : string) (v : pyval)
  : Row :=
  {| row_description := row_description row;
     row_value := PDict (Dict.set item_name (PDict (Dict.set "value" v i)) d);
     row_display_name := row_display_name row |}.

End CacheSpec.

(* ================================================================== *)
(** ** What the validation accepts *)

Module ValidationSpec.

(** The entry names an item may have. *)
Definition allowed_entry (n : string) : Prop :=
  In n ["description"; "default"; "type"; "options"] \/ In n optional_item_entries.

(** An item [raw] that is accepted for creation, and the item [item']
    the validation returns for it. *)
Definition accepted_item {B : Builtins} (raw item' : Dict.t pyval) : Prop :=
  Dict.get "description" raw <> None
  /\ (exists t d r c,
        Dict.get "type" raw = Some (PStr t) /\ In t _valid_type_strings
        /\ Dict.get "default" raw = Some d
        /\ _validate_type_value (PStr t) d = Return r /\ is_False r = false
        /\ _clean (PStr t) d = Return c
        /\ Dict.get "value" item' = Some c /\ Dict.get "default" item' = Some c)
  /\ Dict.get "value" raw = None
  /\ (forall n, In n (Dict.keys raw) -> allowed_entry n)
  /\ (forall n, n <> "value" -> n <> "default" -> n <> "readonly" -> n <> "deprecated" ->
        Dict.get n item' = Dict.get n raw).

(** The expected entries hold recognised names only. *)
Definition known_entries (e : Dict.t mark) : Prop :=
  forall m, Dict.get m e <> None -> allowed_entry m.

End ValidationSpec.

(* ================================================================== *)
(** ** What a bulk update changes *)

Module BulkSpec.

(** The bulk update gives item [i] a value that passes the checks and
    whose cleaned form [n] differs from the value [old] the item has. *)
Definition changes {B : Builtins} (cat_info : pyval) (config_item_list : Dict.t pyval)
    (i : string) (old n : pyval) : Prop :=
  exists v, In (i, v) config_item_list
            /\ bulk_check_item cat_info i v = Return (old, n)
            /\ Py.eq old n = false.

End BulkSpec.

(* ================================================================== *)
(** ** Groups of categories *)

(** A node of the tree [_read_all_groups] builds: [key], [description],
    [displayName] and [children]. *)
#[warnings="-register-all"]
Inductive Group : Type :=
| GroupNode (key description displayName : string) (children : list Group).

(** What [get_all_category_names] returns: a list of tuples, or the tree. *)
Inductive Groups : Type :=
| Flat (rows : list (string * string * string))
| Nested (tree : list Group).

(** [nested_children(child)]: [child] gets the children
    [get_category_child] lists for its key, and so does each of them. The
    recursion follows the children table and has no bound of its own;
    [fuel] bounds its depth and [None] is a recursion that goes deeper. *)
Fixpoint nested_children (fuel : nat) (s : State) (child : string * string * string)
  : option (outcome Group) :=
  match fuel with
  | O => None
  | S fuel' =>
      let '(key, description, displayName) := child in
      match fst (get_category_child key s) with
      | Raise e => Some (Raise e)
      | Return next_children =>
          match
            (fix loop (l : list (string * string * string))
               : option (outcome (list Group)) :=
               match l with
               | [] => Some (Return [])
               | next_child :: r =>
                   match nested_children fuel' s next_child with
                   | None => None
                   | Some (Raise e) => Some (Raise e)
                   | Some (Return g) =>
                       match loop r with
                       | None => None
                       | Some (Raise e) => Some (Raise e)
                       | Some (Return gs) => Some (Return (g :: gs))
                       end
                   end
               end) next_children
          with
          | None => None
          | Some (Raise e) => Some (Raise e)
          | Some (Return gs) => Some (Return (GroupNode key description displayName gs))
          end
      end
  end.

(** The loop [for branch in tree: await nested_children(branch)]. *)
Fixpoint nested_branches (fuel : nat) (s : State) (tree : list (string * string * string))
  : option (outcome (list Group)) :=
  match tree with
  | [] => Some (Return [])
  | branch :: r =>
      match nested_children fuel s branch with
      | None => None
      | Some (Raise e) => Some (Raise e)
      | Some (Return g) =>
          match nested_branches fuel s r with
          | None => None
          | Some (Raise e) => Some (Raise e)
          | Some (Return gs) => Some (Return (g :: gs))
          end
      end
  end.

(** [SELECT DISTINCT child FROM category_children] *)
Definition list_child (s : State) : list string :=
  nodup string_dec (map snd (category_children s)).

(** [_read_all_groups(root, children)] *)
Definition _read_all_groups (fuel : nat) (root children : bool) (s : State)
  : option (outcome Groups) :=
  let all_categories :=
    map (fun kr => (fst kr, row_description (snd kr), row_display_name (snd kr)))
      (configuration s) in
  let is_child (row : string * string * string) :=
    existsb (String.eqb (fst (fst row))) (list_child s) in
  let list_root := filter (fun row => negb (is_child row)) all_categories in
  let list_not_root := filter is_child all_categories in
  if children then
    match nested_branches fuel s (if root then list_root else list_not_root) with
    | None => None
    | Some (Raise e) => Some (Raise e)
    | Some (Return tree) => Some (Return (Nested tree))
    end
  else Some (Return (Flat (if root then list_root else list_not_root))).

(** [get_all_category_names(root, children)] *)
Definition get_all_category_names (fuel : nat) (root : option bool) (children : bool)
    (s : State) : option (outcome Groups) :=
  match root with
  | Some root => _read_all_groups fuel root children s
  | None =>
      match fst (_read_all_category_names s) with
      | Return info => Some (Return (Flat info))
      | Raise e => Some (Raise e)
      end
  end.

Module GroupSpec.

(** The loop of [nested_children] over the children, by name. *)
Section NestedLoop.
Variable rec : string * string * string -> option (outcome Group).
Definition nested_loop :=
  fix loop (l : list (string * string * string)) : option (outcome (list Group)) :=
    match l with
    | [] => Some (Return [])
    | next_child :: r =>
        match rec next_child with
        | None => None
        | Some (Raise e) => Some (Raise e)
        | Some (Return g) =>
            match loop r with
            | None => None
            | Some (Raise e) => Some (Raise e)
            | Some (Return gs) => Some (Return (g :: gs))
            end
        end
    end.
End NestedLoop.

(** The [key], [description] and [displayName] of a node. *)
Definition info (g : Group) : string * string * string :=
  match g with GroupNode key description displayName _ => (key, description, displayName) end.

Definition group_key (g : Group) : string := fst (fst (info g)).

(** The keys below a node: each child, followed by the keys below it. *)
Fixpoint names_below (g : Group) : list string :=
  match g with
  | GroupNode _ _ _ children =>
      (fix go (l : list Group) : list string :=
         match l with
         | [] => []
         | c :: r => (group_key c :: names_below c) ++ go r
         end) children
  end.

(** Every category is stored with a value, and every child of the
    children table is a category. *)
Definition all_stored (s : State) : Prop :=
  (forall k row, Dict.get k (configuration s) = Some row -> row_value row <> PNone)
  /\ (forall p c, In (p, c) (category_children s) -> Dict.get c (configuration s) <> None).

(** Every node of the tree has the children [get_category_child] lists
    for its key. *)
#[warnings="-register-all"]
Inductive well_grouped (s : State) : Group -> Prop :=
| well_grouped_node key description displayName children :
    get_category_child key s = (Return (map info children), s) ->
    Forall (well_grouped s) children ->
    well_grouped s (GroupNode key description displayName children).

End GroupSpec.

(* ================================================================== *)
(** ** What the merge leaves alone *)

Module UpdateSpec.

(** A computation that adds audit records and changes nothing else. *)
Definition audits_only {A : Type} (m : M A) : Prop :=
  forall s, snd (m s) = with_audit (audit_log (snd (m s))) s.

End UpdateSpec.

(* ================================================================== *)
(* ================================================================== *)
(** * Properties *)

Unset Implicit Arguments.

(** ** Dictionaries *)

Module DictFacts.
Section Facts.
Variable V : Type.
Implicit Types d : Dict.t V.

Lemma get_in_keys k d v : Dict.get k d = Some v -> In k (Dict.keys d).
  Proof.
    induction d as [|[k' v'] r IH]; simpl; [discriminate|].
    destruct (String.eqb_spec k k') as [->|_]; auto.
  Qed.
Lemma get_pop_other k k' d :
  k <> k' -> Dict.get k (Dict.pop k' d) = Dict.get k d.
Proof.
  intros N. induction d as [|[k0 v0] r IH]; simpl; [reflexivity|].
  destruct (String.eqb_spec k' k0) as [->|N0].
  - destruct (String.eqb_spec k k0); [contradiction|reflexivity].
  - simpl. rewrite IH. reflexivity.
Qed.
Lemma get_set_same k (v : V) d : Dict.get k (Dict.set k v d) = Some v.
Proof.
  induction d as [|[k' v'] r IH]; simpl.
  - rewrite String.eqb_refl. reflexivity.
  - destruct (String.eqb_spec k k') as [->|N]; simpl.
    + rewrite String.eqb_refl. reflexivity.
    + destruct (String.eqb_spec k k'); [contradiction|exact IH].
Qed.
Lemma get_set_other k k' (v : V) d :
    k <> k' -> Dict.get k (Dict.set k' v d) = Dict.get k d.
  Proof.
    intros N. induction d as [|[k0 v0] r IH]; simpl.
    - destruct (String.eqb_spec k k'); [contradiction|reflexivity].
    - destruct (String.eqb_spec k' k0) as [->|N0]; simpl.
      + destruct (String.eqb_spec k k0); [contradiction|reflexivity].
      + rewrite IH. reflexivity.
  Qed.

Lemma get_none_not_in k d : Dict.get k d = None <-> ~ In k (Dict.keys d).
  Proof.
    induction d as [|[k0 v0] r IH]; simpl; [tauto|].
    destruct (String.eqb_spec k k0) as [->|N].
    - split; [discriminate|]. intros H. exfalso. apply H. left. reflexivity.
    - rewrite IH. split; [intros H [E|H']; [congruence|tauto]|tauto].
  Qed.

Lemma keys_pop_subset k x d : In x (Dict.keys (Dict.pop k d)) -> In x (Dict.keys d).
  Proof.
    induction d as [|[k0 v0] r IH]; simpl; [tauto|].
    destruct (String.eqb k k0); simpl; tauto.
  Qed.

Lemma NoDup_pop k d : NoDup (Dict.keys d) -> NoDup (Dict.keys (Dict.pop k d)).
  Proof.
    induction d as [|[k0 v0] r IH]; simpl; [auto|].
    intros H. inversion H as [|? ? Hn Hr]; subst.
    destruct (String.eqb k k0); simpl; [exact Hr|].
    constructor; [|auto]. intros Hin. apply Hn. eapply keys_pop_subset. exact Hin.
  Qed.

Lemma not_in_pop k d : NoDup (Dict.keys d) -> ~ In k (Dict.keys (Dict.pop k d)).
  Proof.
    induction d as [|[k0 v0] r IH]; simpl; [tauto|].
    intros H. inversion H as [|? ? Hn Hr]; subst.
    destruct (String.eqb_spec k k0) as [->|N]; simpl; [exact Hn|].
    intros [E|Hin]; [congruence|]. exact (IH Hr Hin).
  Qed.

Lemma Forall_pop (P : string * V -> Prop) k d : Forall P d -> Forall P (Dict.pop k d).
  Proof.
    induction 1 as [|[k0 v0] r H0 Hr IH]; simpl; [constructor|].
    destruct (String.eqb k k0); [exact Hr|constructor; assumption].
  Qed.

Lemma get_fold_pop k names : forall d,
    ~ In k names ->
    Dict.get k (fold_left (fun d item => Dict.pop item d) names d) = Dict.get k d.
  Proof.
    induction names as [|n r IH]; intros d H; simpl; [reflexivity|].
    rewrite IH by (intros X; apply H; right; exact X).
    apply get_pop_other. intros ->. apply H. left. reflexivity.
  Qed.

Lemma get_fold_set k (kvs : list (string * V)) : forall d,
    ~ In k (Dict.keys kvs) ->
    Dict.get k (fold_left (fun d kv => Dict.set (fst kv) (snd kv) d) kvs d) = Dict.get k d.
  Proof.
    induction kvs as [|[k0 v0] r IH]; intros d H; simpl; [reflexivity|].
    rewrite IH by (intros X; apply H; right; exact X).
    apply get_set_other. intros ->. apply H. left. reflexivity.
  Qed.
Lemma keys_set_in k (v : V) d x :
    In x (Dict.keys (Dict.set k v d)) -> x = k \/ In x (Dict.keys d).
  Proof.
    induction d as [|[k0 v0] r IH]; simpl.
    - intros [<-|[]]. left. reflexivity.
    - destruct (String.eqb_spec k k0) as [->|N]; simpl; [tauto|].
      intros [<-|H]; [tauto|]. destruct (IH H); tauto.
  Qed.

Lemma NoDup_set k (v : V) d : NoDup (Dict.keys d) -> NoDup (Dict.keys (Dict.set k v d)).
  Proof.
    induction d as [|[k0 v0] r IH]; simpl; intros H.
    - constructor; [tauto|constructor].
    - inversion H as [|? ? Hn Hr]; subst.
      destruct (String.eqb_spec k k0) as [->|N]; simpl; [exact H|].
      constructor; [|auto]. intros Hin. apply keys_set_in in Hin.
      destruct Hin as [->|Hin]; [congruence|contradiction].
  Qed.

Lemma set_get_id k (v : V) d : Dict.get k d = Some v -> Dict.set k v d = d.
  Proof.
    induction d as [|[k0 v0] r IH]; simpl; [discriminate|].
    destruct (String.eqb_spec k k0) as [->|N].
    - intros H. injection H as ->. reflexivity.
    - intros H. rewrite IH by exact H. reflexivity.
  Qed.

Lemma set_absent k (v : V) d : Dict.get k d = None -> Dict.set k v d = d ++ [(k, v)].
  Proof.
    induction d as [|[k0 v0] r IH]; simpl; [reflexivity|].
    destruct (String.eqb_spec k k0) as [->|N]; [discriminate|].
    intros H. rewrite IH by exact H. reflexivity.
  Qed.

Lemma get_in k (v : V) d : Dict.get k d = Some v -> In (k, v) d.
  Proof.
    induction d as [|[k0 v0] r IH]; simpl; [discriminate|].
    destruct (String.eqb_spec k k0) as [->|N]; [intros H; injection H as ->; auto|auto].
  Qed.
Lemma len_set_le k (v : V) d : Dict.len (Dict.set k v d) <= S (Dict.len d).
  Proof.
    unfold Dict.len. induction d as [|[k0 v0] r IH]; simpl; [lia|].
    destruct (String.eqb k k0); simpl; lia.
  Qed.

Lemma len_set_mem k (v : V) d :
    Dict.mem k d = true -> Dict.len (Dict.set k v d) = Dict.len d.
  Proof.
    unfold Dict.len, Dict.mem. induction d as [|[k0 v0] r IH]; simpl; [discriminate|].
    destruct (String.eqb k k0); simpl; [reflexivity|]. intros H. rewrite IH by exact H.
    reflexivity.
  Qed.

Lemma len_pop_in k d : In k (Dict.keys d) -> S (Dict.len (Dict.pop k d)) = Dict.len d.
  Proof.
    unfold Dict.len. induction d as [|[k0 v0] r IH]; simpl; [contradiction|].
    destruct (String.eqb_spec k k0) as [->|N]; [reflexivity|].
    intros [E|H]; [congruence|]. simpl. rewrite IH by exact H. reflexivity.
  Qed.
End Facts.
End DictFacts.

(* ================================================================== *)
(** ** Callbacks *)

Module CallbackFacts.
Import ManagerSpec.

Section Callbacks.
Context {B : Builtins}.

Lemma run_each_returns category_name callbacks :
  (forall callback, In callback callbacks ->
     exists run, import_module callback = Run run /\ run category_name = Return tt) ->
  run_each category_name callbacks = (callbacks, Return tt).
Proof.
  induction callbacks as [|c r IH]; intros H; [reflexivity|].
  cbn [run_each]. destruct (H c (or_introl eq_refl)) as (run & -> & ->).
  rewrite IH by (intros c' Hc; apply H; right; exact Hc). reflexivity.
Qed.

Lemma run_each_ran category_name : forall callbacks callback,
  In callback (fst (run_each category_name callbacks)) -> In callback callbacks.
Proof.
  induction callbacks as [|c r IH]; intros callback; [intros []|].
  cbn [run_each]. destruct (import_module c) as [| | |run]; try (intros []).
  destruct (run category_name) as [u|e].
  - destruct (run_each category_name r) as [ran o] eqn:E. cbn [fst] in *.
    intros [<-|H]; [left; reflexivity|right; apply IH, H].
  - intros [<-|[]]. left. reflexivity.
Qed.

Lemma run_each_returns_iff category_name : forall callbacks,
  snd (run_each category_name callbacks) = Return tt
  <-> forall callback, In callback callbacks ->
        exists run, import_module callback = Run run /\ run category_name = Return tt.
Proof.
  intros callbacks. split; [|intros H; rewrite (run_each_returns _ _ H); reflexivity].
  induction callbacks as [|c r IH]; [intros _ callback []|].
  cbn [run_each]. destruct (import_module c) as [| | |run] eqn:I; try discriminate.
  destruct (run category_name) as [[]|e] eqn:Rn; [|discriminate].
  destruct (run_each category_name r) as [ran o]. cbn [snd] in *.
  intros H callback [<-|Hin]; [exists run; auto|apply IH; assumption].
Qed.

Lemma after_callbacks_returns (A : Type) s category_name (a : A) :
  callbacks_run s category_name ->
  after_callbacks s category_name a = Return a
  /\ callbacks_ran s category_name = callbacks_of s category_name.
Proof.
  intros H. unfold after_callbacks, callbacks_ran.
  rewrite (run_each_returns category_name _ H). split; reflexivity.
Qed.

Lemma after_callbacks_raises (A : Type) s category_name (a : A) e :
  after_callbacks s category_name a = Raise e -> ~ callbacks_run s category_name.
Proof.
  intros E H. destruct (after_callbacks_returns A s category_name a H) as (R & _).
  congruence.
Qed.

Lemma run_callbacks_unfold category_name s :
  _run_callbacks category_name s
  = (snd (run_each category_name (callbacks_of s category_name)),
     with_callbacks
       (callback_log s
        ++ [(category_name, fst (run_each category_name (callbacks_of s category_name)))])
       s).
Proof.
  unfold _run_callbacks, callbacks_of, bindM, gets, modify, lift. cbv beta iota.
  destruct (run_each category_name
              match Dict.get category_name (_registered_interests s) with
              | Some l => l | None => [] end) as [ran o].
  reflexivity.
Qed.
Lemma run_callbacks_then (A : Type) category_name (a : A) s :
  (_run_callbacks category_name ;;; ret a) s
  = (after_callbacks s category_name a,
     with_callbacks (callback_log s ++ [(category_name, callbacks_ran s category_name)]) s).
Proof.
  unfold bindM. rewrite run_callbacks_unfold. unfold after_callbacks, callbacks_ran.
  destruct (run_each category_name (callbacks_of s category_name)) as [ran [[]|e]];
    reflexivity.
Qed.

Lemma after_callbacks_same (A : Type) s1 s2 category_name (a : A) :
  _registered_interests s1 = _registered_interests s2 ->
  after_callbacks s1 category_name a = after_callbacks s2 category_name a.
Proof. unfold after_callbacks, callbacks_of. intros ->. reflexivity. Qed.

Lemma callbacks_ran_same s1 s2 category_name :
  _registered_interests s1 = _registered_interests s2 ->
  callbacks_ran s1 category_name = callbacks_ran s2 category_name.
Proof. unfold callbacks_ran, callbacks_of. intros ->. reflexivity. Qed.

Lemma callbacks_ran_registered s category_name callback :
  In callback (callbacks_ran s category_name) ->
  In callback (callbacks_of s category_name).
Proof. apply run_each_ran. Qed.
End Callbacks.

End CallbackFacts.

(* ================================================================== *)
(** ** Scheduler: [stop] and [_schedule_next_task] *)

Module SchedulerFacts.
Import Scheduler SchedulerSpec.

Section Facts.
Variable timed_advance : Q -> Z -> Q.

Lemma terminate_tasks_known schedule_id s schedule args tasks :
    Dict.get schedule_id (_schedules s) = Some schedule ->
    Dict.get (scheduled_process_name schedule) (_scheduled_processes s) = Some args ->
    terminate_tasks schedule_id s tasks = (Return tt, signals tasks).
  Proof.
    intros Hs Hp. induction tasks as [|[task_id process] r IH]; simpl; [reflexivity|].
    rewrite Hs, Hp, IH. reflexivity.
  Qed.

Lemma terminate_all_known s schedule_ids :
    known_tasks s ->
    terminate_all s schedule_ids = (Return tt, all_signals s schedule_ids).
  Proof.
    intros K. induction schedule_ids as [|schedule_id r IH]; simpl; [reflexivity|].
    destruct (Dict.get schedule_id (_schedule_executions s)) as [e|] eqn:E; [|exact IH].
    destruct (task_processes e) as [|tp tasks] eqn:T.
    - simpl. rewrite IH. reflexivity.
    - destruct (K schedule_id e E) as (schedule & args & Hs & Hp); [rewrite T; discriminate|].
      rewrite <- T, (terminate_tasks_known _ _ _ _ _ Hs Hp), IH. reflexivity.
  Qed.

Lemma in_signals p tasks :
    In (Terminate p) (signals tasks) <->
    exists task_id process,
      In (task_id, process) tasks /\ exited process = false /\ pid process = p.
  Proof.
    unfold signals. rewrite in_flat_map. split.
    - intros ([task_id process] & Hin & H). simpl in H.
      destruct (exited process) eqn:X; [contradiction|].
      destruct H as [H|[]]. injection H as <-. eauto.
    - intros (task_id & process & Hin & X & <-).
      exists (task_id, process). simpl. rewrite X. split; [exact Hin|left; reflexivity].
  Qed.

Lemma in_all_signals p s :
    In (Terminate p) (all_signals s (Dict.keys (_schedule_executions s))) <->
    exists schedule_id e task_id process,
      Dict.get schedule_id (_schedule_executions s) = Some e /\
      In (task_id, process) (task_processes e) /\
      exited process = false /\ pid process = p.
  Proof.
    unfold all_signals. rewrite in_flat_map. split.
    - intros (schedule_id & _ & H).
      destruct (Dict.get schedule_id (_schedule_executions s)) as [e|] eqn:E; [|contradiction].
      apply in_signals in H. destruct H as (task_id & process & H).
      exists schedule_id, e, task_id, process. tauto.
    - intros (schedule_id & e & task_id & process & E & H).
      exists schedule_id. split; [eapply DictFacts.get_in_keys; exact E|].
      rewrite E. apply in_signals. eauto.
  Qed.

Lemma schedule_next_task_frame now schedule s :
    let '(_, s') := _schedule_next_task timed_advance now schedule s in
    _paused s' = _paused s /\ _start_time s' = _start_time s /\
    _active_task_count s' = _active_task_count s.
  Proof.
    unfold _schedule_next_task.
    destruct (repeat_seconds schedule); [|auto].
    destruct (_paused s) eqn:P; [auto|].
    destruct (Dict.get (id schedule) (_schedule_executions s)) as [e|]; [|auto].
    destruct (next_start_time e); simpl; auto.
  Qed.

Lemma on_task_completion_frame now schedule task_id s :
    let '(_, s', _) := _on_task_completion timed_advance now schedule task_id s in
    _paused s' = _paused s /\ _start_time s' = _start_time s /\
    (0 <= _active_task_count s -> 0 <= _active_task_count s')%Z.
  Proof.
    unfold _on_task_completion.
    destruct (Dict.get (scheduled_process_name schedule) (_scheduled_processes s));
      [|auto].
    set (s1 := if (_active_task_count s =? 0)%Z then s
               else set_count (_active_task_count s - 1) s).
    assert (F1 : _paused s1 = _paused s /\ _start_time s1 = _start_time s /\
                 (0 <= _active_task_count s -> 0 <= _active_task_count s1)%Z).
    { subst s1. destruct (Z.eqb_spec (_active_task_count s) 0); simpl; repeat split; lia. }
    destruct F1 as (P1 & T1 & C1).
    destruct (Dict.get (id schedule) (_schedule_executions s1)); [|auto].
    assert (F2 : let '(_, s2) :=
                   (if exclusive schedule
                    then _schedule_next_task timed_advance now schedule s1
                    else (Return false, s1)) in
                 _paused s2 = _paused s /\ _start_time s2 = _start_time s /\
                 (0 <= _active_task_count s -> 0 <= _active_task_count s2)%Z).
    { destruct (exclusive schedule); [|auto].
      pose proof (schedule_next_task_frame now schedule s1) as F.
      destruct (_schedule_next_task timed_advance now schedule s1) as [r s2].
      destruct F as (P & T & C). rewrite P, T, C. auto. }
    destruct (if exclusive schedule
              then _schedule_next_task timed_advance now schedule s1
              else (Return false, s1)) as [r s2].
    destruct r as [advanced|e]; [|exact F2].
    destruct (Dict.get (id schedule) (_schedule_executions s2)) as [e|]; [|exact F2].
    destruct (next_start_time e); [|exact F2].
    destruct (Dict.mem task_id (task_processes e)); exact F2.
  Qed.

Lemma run_completions_frame cs : forall s,
    let s' := run_completions timed_advance cs s in
    _paused s' = _paused s /\ _start_time s' = _start_time s /\
    (0 <= _active_task_count s -> 0 <= _active_task_count s')%Z.
  Proof.
    induction cs as [|c r IH]; intros s; simpl; [auto|].
    pose proof (on_task_completion_frame (c_now c) (c_schedule c) (c_task_id c) s) as F.
    destruct (_on_task_completion timed_advance (c_now c) (c_schedule c) (c_task_id c) s)
      as [[o s1] eff].
    destruct F as (P & T & C). destruct (IH s1) as (P' & T' & C').
    rewrite P', T', <- P, <- T. auto.
  Qed.

(** C8. [stop()] sets [_paused], sends TERM to exactly the task processes
    that have not exited, sleeps a tenth of a second, and then raises
    [TimeoutError] if and only if a task is still counted active; when it
    raises, [_paused] stays true and [_start_time] is as it was, and
    otherwise it clears [_start_time] and returns [True]. *)
Theorem stop_terminates_then_times_out_iff_active
      (during_sleep : list Completion) (s : State) :
    known_tasks s ->
    (0 <= _active_task_count s)%Z ->
    exists r s' sent,
      stop timed_advance during_sleep s
        = (r, s', _resume_check_schedules (set_paused true s) ++ sent ++ [Sleep (1 # 10)%Q])
      /\ (forall p, In (Terminate p) sent <->
                    exists schedule_id e task_id process,
                      Dict.get schedule_id (_schedule_executions s) = Some e /\
                      In (task_id, process) (task_processes e) /\
                      exited process = false /\ pid process = p)
      /\ _paused s' = true
      /\ _active_task_count s'
           = _active_task_count (run_completions timed_advance during_sleep (set_paused true s))
      /\ (r = Raise TimeoutError <-> (0 < _active_task_count s')%Z)
      /\ (r = Raise TimeoutError -> _start_time s' = _start_time s)
      /\ (r <> Raise TimeoutError -> r = Return true /\ _start_time s' = None).
  Proof.
    intros K C. unfold stop.
    assert (K1 : known_tasks (set_paused true s)) by exact K.
    rewrite (terminate_all_known _ _ K1).
    set (s1 := set_paused true s).
    destruct (run_completions_frame during_sleep s1) as (P & T & N).
    set (s2 := run_completions timed_advance during_sleep s1) in *.
    specialize (N C).
    exists (if negb (_active_task_count s2 =? 0)%Z then Raise TimeoutError else Return true).
    exists (if negb (_active_task_count s2 =? 0)%Z then s2 else set_start_time None s2).
    exists (all_signals s1 (Dict.keys (_schedule_executions s1))).
    destruct (Z.eqb_spec (_active_task_count s2) 0) as [Z0|NZ]; simpl negb; cbv iota.
    - split; [reflexivity|]. split; [intros p; apply (in_all_signals p s1)|].
      simpl. rewrite P, Z0. repeat split; try discriminate; try lia; congruence.
    - split; [reflexivity|]. split; [intros p; apply (in_all_signals p s1)|].
      rewrite P, T. simpl. repeat split; try lia; try congruence.
  Qed.
End Facts.

Lemma known_tasks_waiting prev_next tasks : known_tasks (waiting prev_next tasks).
Proof.
  intros schedule_id e H _. simpl in H.
  destruct (String.eqb_spec schedule_id "b1") as [->|_]; [|discriminate].
  exists every_ten_seconds, ["backup.sh"]. split; reflexivity.
Qed.

Lemma stop_two_tasks_one_survives :
  exists r s' sent,
    stop (fun t _ => t)
      [{| c_now := 5%Q; c_schedule := every_ten_seconds; c_task_id := "t1" |}]
      (waiting 0%Q two_tasks)
      = (r, s',
         _resume_check_schedules (set_paused true (waiting 0%Q two_tasks))
         ++ sent ++ [Sleep (1 # 10)%Q])
    /\ (forall p, In (Terminate p) sent <->
                  exists schedule_id e task_id process,
                    Dict.get schedule_id (_schedule_executions (waiting 0%Q two_tasks)) = Some e /\
                    In (task_id, process) (task_processes e) /\
                    exited process = false /\ pid process = p)
    /\ _paused s' = true
    /\ _active_task_count s'
         = _active_task_count
             (run_completions (fun t _ => t)
                [{| c_now := 5%Q; c_schedule := every_ten_seconds; c_task_id := "t1" |}]
                (set_paused true (waiting 0%Q two_tasks)))
    /\ (r = Raise TimeoutError <-> (0 < _active_task_count s')%Z)
    /\ (r = Raise TimeoutError -> _start_time s' = _start_time (waiting 0%Q two_tasks))
    /\ (r <> Raise TimeoutError -> r = Return true /\ _start_time s' = None).
Proof.
  apply (stop_terminates_then_times_out_iff_active (fun t _ => t)).
  - apply known_tasks_waiting.
  - simpl. lia.
Defined.

(** C5. The exclusive schedule of ten seconds whose task completes 35
    seconds after [prev_next]: [_schedule_next_task] adds [10 + ceil(35 / 10)
    = 14] seconds, so the next start is [prev_next + 14], not
    [prev_next + 50], and it already lies in the past. *)
Theorem exclusive_interval_advances_by_fourteen
    (timed_advance : Q -> Z -> Q) (prev_next : Q) (tasks : Dict.t Process) :
  exists next,
    _schedule_next_task timed_advance (prev_next + 35)%Q every_ten_seconds
      (waiting prev_next tasks)
    = (Return true,
       set_executions
         [("b1", {| next_start_time := Some next; task_processes := tasks |})]
         (waiting prev_next tasks))
    /\ (next == prev_next + 14)%Q
    /\ ~ (next == prev_next + 50)%Q
    /\ (next < prev_next + 35)%Q.
Proof.
  eexists. split; [reflexivity|].
  assert (E : (Qceiling ((prev_next + 35 - prev_next) / inject_Z 10) = 4)%Z).
  { assert (H : ((prev_next + 35 - prev_next) / inject_Z 10 == 7 # 2)%Q) by field.
    rewrite H. reflexivity. }
  rewrite E. change (10 + 4)%Z with 14%Z.
  split; [reflexivity|split].
  - intro H. apply Qplus_inj_l in H. discriminate H.
  - apply Qplus_lt_r. reflexivity.
Qed.

End SchedulerFacts.

(* ================================================================== *)
(** ** The type validator *)

Module ValidatorFacts.

Lemma unvalidated_type_returns_None {B : Builtins} (t : string) (v : pyval) :
  In t ["password"; "X509 certificate"; "script"; "enumeration"] ->
  _validate_type_value (PStr t) v = Return VNone.
Proof.
  simpl. intros [<-|[<-|[<-|[<-|[]]]]]; reflexivity.
Qed.

(** C9 as stated fails: for a password the validator returns [None], which
    is not a boolean. *)
Lemma validate_type_value_not_boolean_valued :
  ~ (forall t v, In t _valid_type_strings ->
       exists b, @_validate_type_value Example.builtins (PStr t) v = Return (VBool b)).
Proof.
  intros H. destruct (H "password" (PStr "secret")) as [b Hb].
  - simpl. tauto.
  - discriminate Hb.
Qed.

(** C9, amended. For a type of the valid set the validator returns [None]
    for password, X509 certificate and script whatever the value is; the
    create and update paths reject a value only when the result [is False],
    so every value of these types passes. On a string it never raises: it
    returns a boolean for boolean, integer, float, string, URL and JSON, and
    [False] or the parsed address for IPv4 and IPv6. *)
Theorem validate_type_value_results {B : Builtins} (t : string) (v : pyval) :
  In t _valid_type_strings ->
  (In t ["password"; "X509 certificate"; "script"] ->
     _validate_type_value (PStr t) v = Return VNone
     /\ (forall msg, reject_False VNone msg = Return tt)
     /\ (forall item, Dict.get "type" item = Some (PStr t) ->
           check_new_value (PDict item) v = Return tt))
  /\ (forall s, exists r,
        _validate_type_value (PStr t) (PStr s) = Return r
        /\ (In t ["boolean"; "integer"; "float"; "string"; "URL"; "JSON"] ->
              exists b, r = VBool b)
        /\ (In t ["IPv4"; "IPv6"] -> r = VBool false \/ exists a, r = VAddress a)
        /\ (In t ["password"; "X509 certificate"; "script"; "enumeration"] ->
              r = VNone)).
Proof.
  intros Hvalid. split.
  - intros Hin. split; [|split].
    + apply unvalidated_type_returns_None. simpl in *. tauto.
    + reflexivity.
    + intros item Hty. unfold check_new_value, Py.subscript. rewrite Hty.
      simpl in Hin. destruct Hin as [<-|[<-|[<-|[]]]]; reflexivity.
  - intros s. simpl in Hvalid.
    destruct Hvalid as [<-|[<-|[<-|[<-|[<-|[<-|[<-|[<-|[<-|[<-|[<-|[<-|[]]]]]]]]]]]]];
      cbn [_validate_type_value Py.is_name String.eqb Ascii.eqb Bool.eqb orb
           _str_to_bool _str_to_int _str_to_float _str_to_ipaddress Py.is_dict Py.is_str];
      eexists; (split; [reflexivity|]); simpl;
      (split; [|split]); intros Hin;
      repeat (destruct Hin as [Hin|Hin]; [try discriminate Hin|]);
      try contradiction; eauto.
    all: destruct (ip_address s); eauto.
Qed.

Lemma validate_type_value_results_password :
  (In "password" ["password"; "X509 certificate"; "script"] ->
     @_validate_type_value Example.builtins (PStr "password") (PDict []) = Return VNone
     /\ (forall msg, reject_False VNone msg = Return tt)
     /\ (forall item, Dict.get "type" item = Some (PStr "password") ->
           @check_new_value Example.builtins (PDict item) (PDict []) = Return tt))
  /\ (forall s, exists r,
        @_validate_type_value Example.builtins (PStr "password") (PStr s) = Return r
        /\ (In "password" ["boolean"; "integer"; "float"; "string"; "URL"; "JSON"] ->
              exists b, r = VBool b)
        /\ (In "password" ["IPv4"; "IPv6"] -> r = VBool false \/ exists a, r = VAddress a)
        /\ (In "password" ["password"; "X509 certificate"; "script"; "enumeration"] ->
              r = VNone)).
Proof.
  apply (@validate_type_value_results Example.builtins "password" (PDict [])).
  simpl. tauto.
Defined.

End ValidatorFacts.

(* ================================================================== *)
(** ** The configuration cache *)

Module CacheFacts.
Import Example DictFacts.

Lemma oldest_in c : forall names o k,
  ConfigurationCache.oldest c names o = Return (Some k) -> In k names \/ o = Some k.
Proof.
  induction names as [|n names IH]; intros o k H; simpl in H.
  - injection H as ->. right. reflexivity.
  - destruct o as [o|].
    + destruct (Dict.get n c) as [e|]; [|discriminate].
      destruct (Dict.get o c) as [eo|]; [|discriminate].
      destruct (date_accessed e) as [d|]; [|discriminate].
      destruct (date_accessed eo) as [d'|]; [|discriminate].
      apply IH in H. destruct H as [H|H]; [left; right; exact H|].
      destruct (d <? d')%nat; injection H as <-; [left; left; reflexivity|right; reflexivity].
    + apply IH in H. destruct H as [H|H]; [left; right; exact H|].
      injection H as <-. left. left. reflexivity.
Qed.

(** [ConfigurationCache.update] keeps the bound: it evicts before it adds
    a new entry to a full cache. *)
Lemma cache_update_keeps_bound name v d s :
  ConfigurationCache.size s <= MAX_CACHE_SIZE ->
  ConfigurationCache.size (snd (ConfigurationCache.update name v d s)) <= MAX_CACHE_SIZE.
Proof.
  unfold ConfigurationCache.size. intros Hb.
  unfold ConfigurationCache.update, ConfigurationCache.remove_oldest,
    bindM, gets, modify, ret, now, lift, raise. cbv beta iota.
  destruct (Dict.mem name (cache s)) eqn:Mem; cbn [negb andb].
  - cbn [snd cache with_cache with_clock]. rewrite len_set_mem by exact Mem. exact Hb.
  - destruct (MAX_CACHE_SIZE <=? Dict.len (cache s))%nat eqn:Full.
    + destruct (ConfigurationCache.oldest (cache s) (Dict.keys (cache s)) None)
        as [[o|]|e] eqn:O; [|exact Hb|exact Hb].
      cbn [snd cache with_cache with_clock].
      apply oldest_in in O. destruct O as [O|O]; [|discriminate].
      pose proof (len_pop_in _ o (cache s) O) as P.
      match goal with |- Dict.len (Dict.set ?k ?e ?c) <= _ =>
        pose proof (len_set_le _ k e c) as L end.
      lia.
    + cbn [snd cache with_cache with_clock]. apply Nat.leb_gt in Full.
      match goal with |- Dict.len (Dict.set ?k ?e ?c) <= _ =>
        pose proof (len_set_le _ k e c) as L end.
      lia.
Qed.

(** C2. Eleven categories are created and the first is created again with a
    changed default: every call returns, and the cache, which held ten
    entries before the last call, holds eleven after it, because
    [_update_category] stores the entry without going through
    [ConfigurationCache.update]. *)
Theorem update_category_grows_cache_past_ten :
  ConfigurationCache.size
    (run_all (map (fun k => create_category k (purge "72") "" false None) eleven_names)
       empty) = 10
  /\ fst (create_category "c00" (purge "100") "" false None
            (run_all (map (fun k => create_category k (purge "72") "" false None)
                        eleven_names) empty)) = Return true
  /\ ConfigurationCache.size (run_all eleven_creates_and_an_update empty) = 11.
Proof.
  vm_compute. repeat split.
Qed.

End CacheFacts.

(* ================================================================== *)
(** ** Setting an item value *)

Module SetValueFacts.
Import Example.

(** C3. The stored value of [age] is [72] and the new value is [72]. With
    the category in the cache the call returns early and writes nothing;
    with the category read from storage it sends an update to storage,
    writes a CONCH audit record whose old and new values are both [72], and
    runs the callbacks. *)
Theorem set_same_value_from_storage_updates :
  (let s := state_after (create_category "PURGE" (purge "72") "" false None) empty in
   let '(r, s') := set_category_item_value_entry "PURGE" "age" (PStr "72") s in
   r = Return false
   /\ storage_writes s' = storage_writes s
   /\ audit_log s' = audit_log s
   /\ callback_log s' = callback_log s)
  /\
  (let s := started_on "PURGE" (PDict [("age", stored_age_item "72" "72")]) in
   let '(r, s') := set_category_item_value_entry "PURGE" "age" (PStr "72") s in
   r = Return true
   /\ storage_writes s' = [UpdateItemValue "PURGE" "age" (PStr "72")]
   /\ audit_log s'
       = [("CONCH", PDict [("category", PStr "PURGE"); ("item", PStr "age");
                           ("oldValue", PStr "72"); ("newValue", PStr "72")])]
   /\ callback_log s' = [("PURGE", [])]).
Proof.
  vm_compute. repeat split.
Qed.

End SetValueFacts.

(* ================================================================== *)
(** ** Creating a category *)

Module CreateFacts.
Import Example.

(** C6. Storage holds [age] without a [value] entry, so its re-validation
    fails; [create_category] with a new default then returns after the
    callbacks without any write: the stored category is what it was and the
    prepared value is not persisted. *)
Theorem create_over_corrupt_storage_writes_nothing :
  let s := started_on "PURGE" (purge "72") in
  let '(r, s') := create_category "PURGE" (purge "100") "" false None s in
  _validate_category_val (purge "72") false
    = Raise (ValueError "Missing entry_name")
  /\ r = Return true
  /\ storage_writes s' = []
  /\ configuration s' = configuration s
  /\ fst (_read_category_val "PURGE" s') = Return (purge "72")
  /\ _validate_category_val (purge "100") true
      = Return (PDict [("age", stored_age_item "100" "100")])
  /\ callback_log s' = [("PURGE", [])].
Proof.
  vm_compute. repeat split.
Qed.

End CreateFacts.

(* ================================================================== *)
(** ** Recursive delete *)

Module DeleteFacts.
Import TreeSpec.

Lemma in_children cat c s :
  In c (_read_all_child_category_names cat s) <-> In (cat, c) (category_children s).
Proof.
  unfold _read_all_child_category_names. rewrite in_map_iff. split.
  - intros ([p c'] & <- & H). apply filter_In in H. destruct H as [H E].
    simpl in *. apply String.eqb_eq in E. subst. exact H.
  - intros H. exists (cat, c). split; [reflexivity|].
    apply filter_In. split; [exact H|]. simpl. apply String.eqb_refl.
Qed.

Lemma fetch_unfold fuel s cat :
  _fetch_descendents (S fuel) s cat
  = fetch_loop (_fetch_descendents fuel s) (_read_all_child_category_names cat s).
Proof. reflexivity. Qed.

Lemma fetch_total rank s : ranked rank s ->
  forall fuel cat, rank cat < fuel -> exists ds, _fetch_descendents fuel s cat = Some ds.
Proof.
  intros R. induction fuel as [|fuel IH]; intros cat Hr; [lia|].
  rewrite fetch_unfold.
  assert (H : forall c, In c (_read_all_child_category_names cat s) -> rank c < fuel).
  { intros c Hc. apply in_children in Hc. apply R in Hc. lia. }
  induction (_read_all_child_category_names cat s) as [|c r IHr]; simpl; [eauto|].
  destruct (IH c) as [dc ->]; [apply H; left; reflexivity|].
  destruct IHr as [dr ->]; [intros; apply H; right; assumption|]. eauto.
Qed.

Lemma fetch_complete s : forall fuel cat ds,
  _fetch_descendents fuel s cat = Some ds ->
  forall d, descends s cat d -> In d ds.
Proof.
  induction fuel as [|fuel IH]; intros cat ds Hf d Hd; [discriminate|].
  rewrite fetch_unfold in Hf.
  assert (Hc : exists c, In c (_read_all_child_category_names cat s) /\
                         (c = d \/ descends s c d)).
  { inversion Hd; subst; eexists; (split; [apply in_children; eassumption|]); auto. }
  clear Hd. destruct Hc as (c & Hin & Hcd).
  revert ds Hf. induction (_read_all_child_category_names cat s) as [|c' r IHr];
    intros ds Hf; [contradiction|].
  simpl in Hf.
  destruct (_fetch_descendents fuel s c') as [dc|] eqn:Ec; [|discriminate].
  destruct (fetch_loop (_fetch_descendents fuel s) r) as [dr|] eqn:Er; [|discriminate].
  injection Hf as <-.
  destruct Hin as [->|Hin].
  - destruct Hcd as [->|Hcd]; [left; reflexivity|].
    right. apply in_or_app. left. eapply IH; eassumption.
  - right. apply in_or_app. right. apply IHr; [assumption|reflexivity].
Qed.

Lemma delete_unfold fuel cat s :
  _delete_recursively (S fuel) cat s
  = match delete_loop (_delete_recursively fuel)
            (_read_all_child_category_names cat s) s with
    | Some (Return _, s') => Some (except_KeyError (delete_one cat) s')
    | other => other
    end.
Proof. reflexivity. Qed.

Lemma delete_one_spec cat s :
  exists s',
    except_KeyError (delete_one cat) s = (Return tt, s')
    /\ configuration s' = Dict.pop cat (configuration s)
    /\ category_children s'
       = filter (fun pc => negb (String.eqb (snd pc) cat)) (category_children s).
Proof.
  unfold except_KeyError, delete_one, delete_children_where_child, delete_configuration,
    audit_information, log_write, ConfigurationCache.remove, bindM, modify, gets, ret.
  simpl. destruct (Dict.mem cat (cache s)); eexists; (split; [reflexivity|]); split; reflexivity.
Qed.

Section Delete.
Variables (rank : string -> nat) (s0 : State).
Hypothesis R : ranked rank s0.

Lemma delete_recursively_spec : forall fuel cat s,
    rank cat < fuel ->
    incl (category_children s) (category_children s0) ->
    exists s',
      _delete_recursively fuel cat s = Some (Return tt, s')
      /\ incl (category_children s') (category_children s0)
      /\ (forall k, k <> cat -> ~ descends s0 cat k ->
            Dict.get k (configuration s') = Dict.get k (configuration s)).
  Proof.
    induction fuel as [|fuel IH]; intros cat s Hr Hi; [lia|].
    rewrite delete_unfold.
    assert (Hc : forall c, In c (_read_all_child_category_names cat s) ->
                           In (cat, c) (category_children s0)).
    { intros c Hc. apply Hi, in_children, Hc. }
    assert (L : exists s1,
               delete_loop (_delete_recursively fuel)
                 (_read_all_child_category_names cat s) s = Some (Return tt, s1)
               /\ incl (category_children s1) (category_children s0)
               /\ (forall k, k <> cat -> ~ descends s0 cat k ->
                     Dict.get k (configuration s1) = Dict.get k (configuration s))).
    { revert Hc Hi. generalize (_read_all_child_category_names cat s) as children.
      intros children. revert s.
      induction children as [|c r IHr]; intros s Hc Hi; simpl;
        [exists s; split; [reflexivity|split; [exact Hi|reflexivity]]|].
      specialize (Hc c (or_introl eq_refl)) as Hcc.
      destruct (IH c s) as (s1 & -> & Hi1 & Hk1); [apply R in Hcc; lia|exact Hi|].
      destruct (IHr s1) as (s2 & -> & Hi2 & Hk2);
        [intros c' Hc'; apply Hc; right; exact Hc'|exact Hi1|].
      exists s2. split; [reflexivity|]. split; [exact Hi2|].
      intros k Nk Nd. rewrite Hk2 by assumption. apply Hk1.
      - intros ->. apply Nd. apply descends_child. exact Hcc.
      - intros D. apply Nd. eapply descends_step; eassumption. }
    destruct L as (s1 & -> & Hi1 & Hk1).
    destruct (delete_one_spec cat s1) as (s' & -> & Hcfg & Hch).
    exists s'. split; [reflexivity|]. split.
    - rewrite Hch. intros x Hx. apply filter_In in Hx. apply Hi1, Hx.
    - intros k Nk Nd. rewrite Hcfg, DictFacts.get_pop_other by exact Nk. apply Hk1; assumption.
  Qed.
End Delete.

Lemma reserved_guard ds :
  existsb (fun catg => existsb (String.eqb catg) ds) RESERVED_CATG = true
  <-> exists c, In c RESERVED_CATG /\ In c ds.
Proof.
  rewrite existsb_exists. split.
  - intros (c & Hc & H). apply existsb_exists in H. destruct H as (d & Hd & E).
    apply String.eqb_eq in E. subst. eauto.
  - intros (c & Hc & H). exists c. split; [exact Hc|].
    apply existsb_exists. exists c. split; [exact H|apply String.eqb_refl].
Qed.

(** C1 as stated fails: [South] is reserved, has no children, and
    [delete_category_and_children_recursively("South")] removes its row. *)
Lemma recursive_delete_removes_reserved_root :
  In "South" RESERVED_CATG
  /\ Dict.get "South" (configuration (Example.started_on "South" (PDict []))) <> None
  /\ exists s',
       delete_category_and_children_recursively 1 "South"
         (Example.started_on "South" (PDict [])) = Some (Return tt, s')
       /\ Dict.get "South" (configuration s') = None.
Proof.
  split; [simpl; tauto|]. split; [discriminate|].
  eexists. split; reflexivity.
Qed.

(** C1, amended. On a tree of categories (no cycle in [category_children])
    [delete_category_and_children_recursively(name)] returns; when [name]
    exists and one of its descendants is reserved it raises [ValueError]
    and leaves the state as it was; and in every case the row of a reserved
    category other than [name] itself is left as it was. [name] itself is
    not compared with the reserved set. *)
Theorem recursive_delete_spares_reserved_descendants
    (rank : string -> nat) (fuel : nat) (name : string) (s : State) :
  ranked rank s ->
  rank name < fuel ->
  exists r s',
    delete_category_and_children_recursively fuel name s = Some (r, s')
    /\ (category_exists s name ->
        (exists c, In c RESERVED_CATG /\ descends s name c) ->
        r = Raise (ValueError "Reserved category found in descendents") /\ s' = s)
    /\ (forall c, In c RESERVED_CATG -> c <> name ->
          Dict.get c (configuration s') = Dict.get c (configuration s)).
Proof.
  intros R Hr. unfold delete_category_and_children_recursively.
  unfold _read_category_val, bindM, gets, ret. cbv beta iota.
  destruct (Py.is_None match Dict.get name (configuration s) with
                       | Some row => row_value row
                       | None => PNone
                       end) eqn:E.
  - eexists _, s. split; [reflexivity|]. split; [|reflexivity].
    intros (row & Hrow & Hv). rewrite Hrow in E. destruct (row_value row); try discriminate.
    contradiction.
  - destruct (fetch_total rank s R fuel name Hr) as [ds Hds]. rewrite Hds.
    destruct (existsb (fun catg => existsb (String.eqb catg) ds) RESERVED_CATG) eqn:G.
    + eexists _, s. split; [reflexivity|]. split; [auto|reflexivity].
    + destruct (delete_recursively_spec rank s R fuel name s Hr (incl_refl _))
        as (s' & -> & _ & Hk).
      exists (Return tt), s'. split; [reflexivity|]. split.
      * intros _ (c & Hc & Hd). exfalso.
        assert (X : existsb (fun catg => existsb (String.eqb catg) ds) RESERVED_CATG = true).
        { apply reserved_guard. exists c. split; [exact Hc|].
          eapply fetch_complete; eassumption. }
        rewrite X in G. discriminate.
      * intros c Hc Nc. apply Hk; [exact Nc|].
        intros Hd.
        assert (X : existsb (fun catg => existsb (String.eqb catg) ds) RESERVED_CATG = true).
        { apply reserved_guard. exists c. split; [exact Hc|].
          eapply fetch_complete; eassumption. }
        rewrite X in G. discriminate.
Qed.

Lemma ranked_reserved_below : ranked rank_below reserved_below.
Proof.
  intros p c [H|[H|[]]]; injection H as <- <-; vm_compute; lia.
Qed.

Lemma recursive_delete_reserved_below :
  exists r s',
    delete_category_and_children_recursively 3 "A" reserved_below = Some (r, s')
    /\ (category_exists reserved_below "A" ->
        (exists c, In c RESERVED_CATG /\ descends reserved_below "A" c) ->
        r = Raise (ValueError "Reserved category found in descendents")
        /\ s' = reserved_below)
    /\ (forall c, In c RESERVED_CATG -> c <> "A" ->
          Dict.get c (configuration s') = Dict.get c (configuration reserved_below)).
Proof.
  apply (recursive_delete_spares_reserved_descendants rank_below 3 "A" reserved_below).
  - exact ranked_reserved_below.
  - vm_compute. lia.
Defined.

End DeleteFacts.

(* ================================================================== *)
(** ** Bulk update *)

Module BulkFacts.
Import ManagerSpec Example.

Lemma same_refl s : same_storage_and_logs s s.
Proof. repeat split. Qed.

Lemma same_trans s1 s2 s3 :
  same_storage_and_logs s1 s2 -> same_storage_and_logs s2 s3 ->
  same_storage_and_logs s1 s3.
Proof.
  unfold same_storage_and_logs. intros (a&b&c&d&e&f) (a'&b'&c'&d'&e'&f').
  repeat split; congruence.
Qed.

Lemma contains_same name s :
  same_storage_and_logs s (snd (ConfigurationCache.contains name s)).
Proof.
  unfold ConfigurationCache.contains, bindM, gets, modify, ret, now. simpl.
  destruct (Dict.get name (cache s)); repeat split.
Qed.

Lemma update_same name v d s :
  same_storage_and_logs s (snd (ConfigurationCache.update name v d s)).
Proof.
  unfold ConfigurationCache.update, ConfigurationCache.remove_oldest,
    bindM, gets, modify, ret, now, lift, raise. cbv beta iota.
  destruct (negb (Dict.mem name (cache s)) && (MAX_CACHE_SIZE <=? Dict.len (cache s))%nat).
  - destruct (ConfigurationCache.oldest (cache s) (Dict.keys (cache s)) None) as [[o|]|e];
      repeat split.
  - repeat split.
Qed.

Section Bulk.
Context {B : Builtins}.

Lemma get_category_all_items_same name s :
    same_storage_and_logs s (snd (get_category_all_items name s)).
  Proof.
    unfold get_category_all_items, bindM.
    pose proof (contains_same name s) as C.
    destruct (ConfigurationCache.contains name s) as [[[|]|e] s1]; simpl in C |- *;
      [| |exact C].
    - unfold cached_value, bindM, gets, ret, raise.
      destruct (Dict.get name (cache s1)); exact C.
    - unfold _read_category_val, bindM, gets, ret. cbv beta iota.
      set (cat := match Dict.get name (configuration s1) with
                  | Some row => row_value row | None => PNone end).
      destruct (Py.is_None cat); simpl.
      + exact C.
      + pose proof (update_same name cat None s1) as U.
        destruct (ConfigurationCache.update name cat None s1) as [[[]|e] s2];
          simpl in U |- *; eapply same_trans; eassumption.
  Qed.

Lemma get_category_all_items_cached name s e :
    Dict.get name (cache s) = Some e ->
    exists e',
      Dict.get name (cache (snd (get_category_all_items name s))) = Some e'
      /\ value e' = value e /\ displayName e' = displayName e.
  Proof.
    intros H. unfold get_category_all_items, ConfigurationCache.contains, cached_value,
      bindM, gets, modify, ret, now. simpl. rewrite H. simpl.
    rewrite DictFacts.get_set_same. simpl. rewrite DictFacts.get_set_same. eexists. split; [reflexivity|].
    split; reflexivity.
  Qed.

Lemma bulk_collect_unchanged cat_info items : forall updates audit_items,
    (forall item new_val, In (item, new_val) items ->
       exists old new', bulk_check_item cat_info item new_val = Return (old, new')
                        /\ Py.eq old new' = true) ->
    bulk_collect cat_info items updates audit_items = Return (updates, audit_items).
  Proof.
    induction items as [|[item new_val] r IH]; intros updates audit_items H; simpl;
      [reflexivity|].
    destruct (H item new_val (or_introl eq_refl)) as (old & new' & -> & E).
    simpl. rewrite E. simpl. apply IH. intros i n Hin. apply H. right. exact Hin.
  Qed.

(** C10, amended. When every supplied value equals the current one after
    validation and cleaning, the bulk update returns before the callbacks
    with storage, the writes sent to it, the audit log and the callback
    log as they were. The cache is as the read of the category through
    the cache left it: an entry that was cached keeps its value and its
    display name (its access time and hit count are those of the read),
    and a category that was not cached has been loaded. *)
Theorem bulk_update_without_change_only_reads
      (category_name : string) (config_item_list : Dict.t pyval)
      (s s0 : State) (cat_info : pyval) :
    get_category_all_items category_name s = (Return cat_info, s0) ->
    cat_info <> PNone ->
    (forall item new_val, In (item, new_val) config_item_list ->
       exists old new', bulk_check_item cat_info item new_val = Return (old, new')
                        /\ Py.eq old new' = true) ->
    update_configuration_item_bulk category_name config_item_list s = (Return false, s0)
    /\ configuration s0 = configuration s
    /\ storage_writes s0 = storage_writes s
    /\ audit_log s0 = audit_log s
    /\ callback_log s0 = callback_log s
    /\ (forall e, Dict.get category_name (cache s) = Some e ->
          exists e', Dict.get category_name (cache s0) = Some e'
                     /\ value e' = value e /\ displayName e' = displayName e).
  Proof.
    intros G N H.
    pose proof (get_category_all_items_same category_name s) as F.
    pose proof (get_category_all_items_cached category_name s) as C.
    rewrite G in F, C. simpl in F, C. destruct F as (a & _ & b & c & d & _).
    split; [|auto 6].
    unfold update_configuration_item_bulk, bindM. rewrite G.
    destruct cat_info; try contradiction; simpl;
      unfold lift; rewrite (bulk_collect_unchanged _ _ _ _ H); reflexivity.
  Qed.
End Bulk.


(** C10 as stated fails: the category is in storage and not in the cache,
    the supplied value is the stored one, and the call leaves an entry for
    the category in the cache. *)
Lemma bulk_update_without_change_fills_cache :
  let s := started_on "PURGE" (PDict [("age", stored_age_item "72" "72")]) in
  let '(r, s') := update_configuration_item_bulk "PURGE" [("age", PStr "72")] s in
  r = Return false
  /\ storage_writes s' = []
  /\ Dict.get "PURGE" (cache s) = None
  /\ Dict.get "PURGE" (cache s')
     = Some {| date_accessed := Some 0;
               value := PDict [("age", stored_age_item "72" "72")];
               displayName := "PURGE"; hit := None |}.
Proof. vm_compute. repeat split. Qed.

Lemma bulk_update_without_change_purge :
  update_configuration_item_bulk "PURGE" [("age", PStr "72")]
    (state_after (create_category "PURGE" (purge "72") "" false None) empty)
  = (Return false,
     state_after (get_category_all_items "PURGE")
       (state_after (create_category "PURGE" (purge "72") "" false None) empty))
  /\ configuration
       (state_after (get_category_all_items "PURGE")
          (state_after (create_category "PURGE" (purge "72") "" false None) empty))
     = configuration (state_after (create_category "PURGE" (purge "72") "" false None) empty)
  /\ storage_writes
       (state_after (get_category_all_items "PURGE")
          (state_after (create_category "PURGE" (purge "72") "" false None) empty))
     = storage_writes (state_after (create_category "PURGE" (purge "72") "" false None) empty)
  /\ audit_log
       (state_after (get_category_all_items "PURGE")
          (state_after (create_category "PURGE" (purge "72") "" false None) empty))
     = audit_log (state_after (create_category "PURGE" (purge "72") "" false None) empty)
  /\ callback_log
       (state_after (get_category_all_items "PURGE")
          (state_after (create_category "PURGE" (purge "72") "" false None) empty))
     = callback_log (state_after (create_category "PURGE" (purge "72") "" false None) empty)
  /\ (forall e,
        Dict.get "PURGE"
          (cache (state_after (create_category "PURGE" (purge "72") "" false None) empty))
        = Some e ->
        exists e',
          Dict.get "PURGE"
            (cache (state_after (get_category_all_items "PURGE")
                      (state_after (create_category "PURGE" (purge "72") "" false None)
                         empty)))
          = Some e'
          /\ value e' = value e /\ displayName e' = displayName e).
Proof.
  apply (@bulk_update_without_change_only_reads builtins "PURGE" [("age", PStr "72")]
           (state_after (create_category "PURGE" (purge "72") "" false None) empty)
           (state_after (get_category_all_items "PURGE")
              (state_after (create_category "PURGE" (purge "72") "" false None) empty))
           (PDict [("age", stored_age_item "72" "72")])).
  - vm_compute. reflexivity.
  - discriminate.
  - intros item new_val [H|[]]. injection H as <- <-.
    exists (PStr "72"), (PStr "72"). split; vm_compute; reflexivity.
Defined.

End BulkFacts.

(* ================================================================== *)
(** ** Merging a new category value with the stored one *)

Module MergeFacts.
Import ManagerSpec Example DictFacts.

Lemma is_deprecated_dict d :
  is_deprecated (PDict d)
  = Return (match Dict.get "deprecated" d with
            | Some x => Py.eq x (PStr "true")
            | None => false
            end).
Proof.
  unfold is_deprecated, Py.contains, Py.subscript, Dict.mem. 
  destruct (Dict.get "deprecated" d); reflexivity.
Qed.

Lemma is_deprecated_set_value d v :
  is_deprecated (PDict (Dict.set "value" v d)) = is_deprecated (PDict d).
Proof.
  rewrite !is_deprecated_dict, get_set_other by discriminate. reflexivity.
Qed.

Lemma merge_items_spec name : forall items storage s,
  prepared_items items -> dict_items storage -> NoDup (Dict.keys storage) ->
  exists items' storage' deprecated_items s',
    merge_items name items storage s = (Return (items', storage', deprecated_items), s')
    /\ (forall k item, NoDup (Dict.keys items) -> Dict.get k items = Some item ->
          Dict.get k items' = Some (merged_item item storage k))
    /\ (forall k, NoDup (Dict.keys items) -> In k deprecated_items ->
          exists item, Dict.get k items = Some item
                       /\ is_deprecated (merged_item item storage k) = Return true)
    /\ (forall k, In k (Dict.keys storage') -> In k (Dict.keys storage))
    /\ (forall k d, In k (Dict.keys items) -> Dict.get k storage = Some (PDict d) ->
          ~ In k (Dict.keys storage')).
Proof.
  induction items as [|[k0 v0] r IH]; intros storage s Hp Hd Hn.
  - exists [], storage, [], s. simpl. split; [reflexivity|].
    split; [discriminate|]. split; [contradiction|]. split; [auto|contradiction].
  - inversion Hp as [|? ? (new & Ev & Hv) Hp']; subst. simpl in Ev. subst v0.
    cbn [merge_items]. unfold bindM at 1.
    (* the storage item *)
    assert (Step : exists storage1,
      (if negb (Py.is_None match Dict.get k0 storage with Some v => v | None => PNone end)
       then
         v <~ lift (match match Dict.get k0 storage with Some v => v | None => PNone end with
                    | PDict d => Return (match Dict.get "value" d with
                                         | Some v => v | None => PNone end)
                    | _ => Raise AttributeError
                    end) ;;
         i <~ lift (Py.set_item (PDict new) "value" v) ;;
         ret (i, Dict.pop k0 storage)
       else ret (PDict new, storage)) s
      = (Return (merged_item (PDict new) storage k0, storage1), s)
      /\ dict_items storage1 /\ NoDup (Dict.keys storage1)
      /\ (forall k, In k (Dict.keys storage1) -> In k (Dict.keys storage))
      /\ (forall k, k <> k0 -> Dict.get k storage1 = Dict.get k storage)
      /\ (forall d, Dict.get k0 storage = Some (PDict d) -> ~ In k0 (Dict.keys storage1))).
    { unfold merged_item. destruct (Dict.get k0 storage) as [st|] eqn:G.
      - assert (exists d, st = PDict d) as [d ->].
        { clear - G Hd. induction Hd as [|[k v] r' (d & E) Hr IH']; simpl in G; [discriminate|].
          destruct (String.eqb k0 k); [injection G as <-; eauto|auto]. }
        exists (Dict.pop k0 storage). split; [reflexivity|].
        split; [apply Forall_pop, Hd|]. split; [apply NoDup_pop, Hn|].
        split; [intros k; apply keys_pop_subset|].
        split; [intros k N; apply get_pop_other, N|].
        intros _ _. apply not_in_pop, Hn.
      - exists storage. split; [reflexivity|]. repeat split; auto. discriminate. }
    destruct Step as (storage1 & -> & Hd1 & Hn1 & Hsub1 & Hget1 & Hpop1).
    cbv beta iota.
    set (v1 := merged_item (PDict new) storage k0).
    assert (Ev1 : exists new1, v1 = PDict new1 /\ Dict.get "value" new1 <> None
                               /\ is_deprecated v1 = is_deprecated (PDict new)).
    { subst v1. unfold merged_item. destruct (Dict.get k0 storage) as [[| | |d]|];
        try (exists new; solve [auto]).
      exists (Dict.set "value" (get_value d) new). split; [reflexivity|].
      split; [rewrite get_set_same; discriminate|apply is_deprecated_set_value]. }
    destruct Ev1 as (new1 & E1 & Hv1 & Hdep1).
    unfold bindM at 1. unfold lift at 1.
    rewrite E1 in *. rewrite is_deprecated_dict.
    set (dep := match Dict.get "deprecated" new1 with
                | Some x => Py.eq x (PStr "true") | None => false end).
    assert (Audit : exists s1,
      (if dep
       then old <~ lift (Py.subscript (PDict new1) "value") ;;
            audit_information "CONCH"
              (PDict [("category", PStr name); ("item", PStr k0);
                      ("oldValue", old); ("newValue", PStr "deprecated")])
       else ret tt) s = (Return tt, s1)).
    { destruct dep; [|eexists; reflexivity].
      unfold bindM, lift, Py.subscript. destruct (Dict.get "value" new1); [|contradiction].
      eexists. reflexivity. }
    destruct Audit as (s1 & Ha).
    unfold bindM at 1. rewrite Ha.
    destruct (IH storage1 s1 Hp' Hd1 Hn1)
      as (items' & storage' & deps & s' & Hm & Hb & Hc & Hsub & Hgone).
    unfold bindM at 1. rewrite Hm. cbv beta iota. unfold ret.
    eexists _, _, _, _. split; [reflexivity|].
    split; [|split; [|split]].
    + intros k item ND G. inversion ND as [|? ? Hnotin ND']; subst. simpl in G |- *.
      destruct (String.eqb_spec k k0) as [->|N].
      * injection G as <-. rewrite <- E1. reflexivity.
      * rewrite (Hb k item ND' G). unfold merged_item. rewrite Hget1 by exact N. reflexivity.
    + intros k ND Hin. inversion ND as [|? ? Hnotin ND']; subst. simpl.
      assert (Hin' : (dep = true /\ k = k0) \/ In k deps).
      { destruct dep; [destruct Hin as [<-|Hin]; auto|auto]. }
      destruct Hin' as [[Hdep ->]|Hin'].
      * rewrite String.eqb_refl. exists (PDict new). split; [reflexivity|].
        fold v1. rewrite E1, is_deprecated_dict. fold dep. rewrite Hdep. reflexivity.
      * destruct (Hc k ND' Hin') as (item & G & D).
        assert (N : k <> k0).
        { intros ->. apply Hnotin. eapply get_in_keys. exact G. }
        destruct (String.eqb_spec k k0); [contradiction|].
        exists item. split; [exact G|]. unfold merged_item in *.
        rewrite Hget1 in D by exact N. exact D.
    + intros k Hin. apply Hsub1, Hsub, Hin.
    + intros k d [<-|Hin] G Hin'.
      * apply (Hpop1 d G). apply Hsub, Hin'.
      * destruct (String.eqb_spec k k0) as [->|N].
        -- apply (Hpop1 d G). apply Hsub, Hin'.
        -- apply (Hgone k d Hin); [rewrite Hget1 by exact N; exact G|exact Hin'].
Qed.

(** C4 as stated fails: [age] is in the prepared value, where it is marked
    deprecated, and in the validated stored value, and the merged result
    has no [age] at all. *)
Lemma merge_drops_deprecated_item :
  let stored := PDict [("age", stored_age_item "72" "24")] in
  exists prepared,
    _validate_category_val (PDict [("age", deprecated_age_item "100")]) true
      = Return (PDict prepared)
    /\ _validate_category_val stored false = Return stored
    /\ Dict.get "age" prepared <> None
    /\ fst (_merge_category_vals (PDict prepared) stored false "PURGE"
              (started_on "PURGE" stored)) = Return (PDict []).
Proof.
  eexists. split; [vm_compute; reflexivity|].
  split; [vm_compute; reflexivity|]. split; [discriminate|]. vm_compute. reflexivity.
Qed.

Lemma bindM_Return (A C : Type) (m : M A) (f : A -> M C) (s s' : State) (c : C) :
  bindM m f s = (Return c, s') ->
  exists a s1, m s = (Return a, s1) /\ f a s1 = (Return c, s').
Proof.
  unfold bindM. destruct (m s) as [[a|e] s1]; [eauto|discriminate].
Qed.

Lemma get_fold_pop_none k names : forall d : Dict.t pyval,
  Dict.get k d = None ->
  Dict.get k (fold_left (fun d item => Dict.pop item d) names d) = None.
Proof.
  induction names as [|n r IH]; intros d H; [exact H|]. cbn [fold_left]. apply IH.
  apply get_none_not_in. intros X. apply keys_pop_subset in X.
  apply get_none_not_in in H. contradiction.
Qed.

Lemma get_fold_pop_in k names : forall d : Dict.t pyval,
  NoDup (Dict.keys d) -> In k names ->
  Dict.get k (fold_left (fun d item => Dict.pop item d) names d) = None.
Proof.
  induction names as [|n r IH]; intros d Hn Hk; [destruct Hk|].
  destruct Hk as [E|Hin]; cbn [fold_left].
  - subst n. apply get_fold_pop_none, get_none_not_in, not_in_pop, Hn.
  - apply IH; [apply NoDup_pop, Hn|exact Hin].
Qed.

(** What the first loop of the merge returns: the items of the new value
    in their order, the stored items it did not meet, and among the
    deprecated items every item the new value marks as deprecated. *)
Lemma merge_items_inv name : forall items storage s items' storage' deps s',
  merge_items name items storage s = (Return (items', storage', deps), s') ->
  Dict.keys items' = Dict.keys items
  /\ (forall k, ~ In k (Dict.keys items) -> Dict.get k storage' = Dict.get k storage)
  /\ (forall k, In k deps -> In k (Dict.keys items))
  /\ (NoDup (Dict.keys storage) -> NoDup (Dict.keys storage'))
  /\ (forall k d, In (k, PDict d) items -> is_deprecated (PDict d) = Return true ->
        In k deps).
Proof.
  induction items as [|[k0 v0] r IH]; intros storage s items' storage' deps s' H.
  - injection H as <- <- <- <-. repeat split; auto.
  - cbn [merge_items] in H.
    apply bindM_Return in H. destruct H as ([i1 st1] & s1 & Hstep & H).
    apply bindM_Return in H. destruct H as (dep & s2 & Hdep & H).
    apply bindM_Return in H. destruct H as (u & s3 & _ & H).
    apply bindM_Return in H. destruct H as ([[its sts] dps] & s4 & Hrec & H).
    injection H as <- <- <- <-.
    assert (St : (st1 = storage \/ st1 = Dict.pop k0 storage)
                 /\ forall d, v0 = PDict d -> is_deprecated i1 = is_deprecated (PDict d)).
    { destruct (negb _) in Hstep.
      - apply bindM_Return in Hstep. destruct Hstep as (a & sa & _ & Hstep).
        apply bindM_Return in Hstep. destruct Hstep as (b & sb & Hset & Hstep).
        injection Hstep as <- <- _. split; [auto|]. intros d ->.
        unfold lift in Hset. cbn [Py.set_item] in Hset. injection Hset as <- _.
        apply is_deprecated_set_value.
      - injection Hstep as <- <- _. split; [auto|]. intros d ->. reflexivity. }
    destruct St as (St & Di).
    destruct (IH _ _ _ _ _ _ Hrec) as (Ek & Hg & Hd & Hn & Hin).
    unfold Dict.keys in *. cbn [map fst]. split; [rewrite Ek; reflexivity|].
    split; [|split; [|split]].
    + intros k Hk. rewrite Hg by (intros X; apply Hk; right; exact X).
      destruct St as [->| ->]; [reflexivity|].
      apply get_pop_other. intros ->. apply Hk. left. reflexivity.
    + intros k Hk. destruct dep; [destruct Hk as [<-|Hk]; [left; reflexivity|]|];
        right; apply Hd, Hk.
    + intros N. apply Hn. destruct St as [->| ->]; [exact N|apply NoDup_pop, N].
    + intros k d [E|Hk] Dk.
      * injection E as <- ->. unfold lift in Hdep. rewrite (Di d eq_refl), Dk in Hdep.
        injection Hdep as <- _. left. reflexivity.
      * destruct dep; [right|]; eapply Hin; eassumption.
Qed.

(** C4, amended. The merge returns, and in the value it returns every
    item that is in the prepared value and in the validated stored value
    and that the prepared value does not mark as deprecated has the
    stored [value] entry and, for every other entry, what the new
    definition has; an item that the prepared value marks as deprecated
    has no entry, whatever [keep_original_items] is. *)
Theorem merge_keeps_stored_value
    (category_name : string) (new_items storage_items : Dict.t pyval)
    (keep_original_items : bool) (s : State) :
  NoDup (Dict.keys new_items) ->
  NoDup (Dict.keys storage_items) ->
  prepared_items new_items ->
  dict_items storage_items ->
  exists merged s',
    _merge_category_vals (PDict new_items) (PDict storage_items)
      keep_original_items category_name s = (Return (PDict merged), s')
    /\ (forall item_name new_item stored_item stored_value,
          Dict.get item_name new_items = Some (PDict new_item) ->
          Dict.get item_name storage_items = Some (PDict stored_item) ->
          Dict.get "value" stored_item = Some stored_value ->
          is_deprecated (PDict new_item) = Return false ->
          exists merged_entries,
            Dict.get item_name merged = Some (PDict merged_entries)
            /\ Dict.get "value" merged_entries = Some stored_value
            /\ (forall entry, entry <> "value" ->
                  Dict.get entry merged_entries = Dict.get entry new_item))
    /\ (forall item_name new_item,
          Dict.get item_name new_items = Some (PDict new_item) ->
          is_deprecated (PDict new_item) = Return true ->
          Dict.get item_name merged = None).
Proof.
  intros Nn Ns Hp Hd.
  destruct (merge_items_spec category_name new_items storage_items s Hp Hd Ns)
    as (items' & storage' & deps & s' & Hm & Hb & Hc & Hsub & Hgone).
  destruct (merge_items_inv category_name _ _ _ _ _ _ _ Hm) as (Ek & _ & _ & _ & Hdin).
  unfold _merge_category_vals, bindM. rewrite Hm. cbv beta iota. unfold ret.
  eexists _, s'. split; [reflexivity|]. split.
  - intros item_name new_item stored_item stored_value Gn Gs Gv Hdep.
    assert (M : merged_item (PDict new_item) storage_items item_name
                = PDict (Dict.set "value" stored_value new_item)).
    { unfold merged_item, get_value. rewrite Gs, Gv. reflexivity. }
    assert (Nd : ~ In item_name deps).
    { intros Hin. destruct (Hc item_name Nn Hin) as (item & G & D).
      rewrite Gn in G. injection G as <-. rewrite M, is_deprecated_set_value, Hdep in D.
      discriminate. }
    assert (G1 : Dict.get item_name (fold_left (fun d item => Dict.pop item d) deps items')
                 = Some (PDict (Dict.set "value" stored_value new_item))).
    { rewrite get_fold_pop by exact Nd. rewrite (Hb item_name _ Nn Gn), M. reflexivity. }
    exists (Dict.set "value" stored_value new_item). split.
    + destruct keep_original_items; [|exact G1].
      rewrite get_fold_set; [exact G1|].
      apply (Hgone item_name stored_item); [eapply get_in_keys; exact Gn|exact Gs].
    + split; [apply get_set_same|].
      intros entry N. apply get_set_other. exact N.
  - intros item_name new_item Gn Hdep.
    assert (G1 : Dict.get item_name (fold_left (fun d item => Dict.pop item d) deps items')
                 = None).
    { apply get_fold_pop_in.
      - rewrite Ek. exact Nn.
      - apply (Hdin item_name new_item); [apply get_in, Gn|exact Hdep]. }
    destruct keep_original_items; [|exact G1].
    rewrite get_fold_set; [exact G1|].
    destruct (Dict.get item_name storage_items) as [st|] eqn:Gs.
    + assert (exists d, st = PDict d) as [d ->].
      { apply get_in in Gs. unfold dict_items in Hd. rewrite Forall_forall in Hd.
        exact (Hd _ Gs). }
      apply (Hgone item_name d); [eapply get_in_keys; exact Gn|exact Gs].
    + intros X. apply Hsub in X. apply get_none_not_in in Gs. contradiction.
Qed.

Lemma merge_keeps_stored_value_age :
  exists merged s',
    _merge_category_vals
      (PDict [("age", stored_age_item "100" "100");
              ("old", PDict [("description", PStr "d"); ("type", PStr "integer");
                             ("default", PStr "1"); ("deprecated", PStr "true");
                             ("value", PStr "1")])])
      (PDict [("age", stored_age_item "72" "24"); ("old", stored_age_item "1" "7")])
      true "PURGE" empty
    = (Return (PDict merged), s')
    /\ (forall item_name new_item stored_item stored_value,
          Dict.get item_name
            [("age", stored_age_item "100" "100");
             ("old", PDict [("description", PStr "d"); ("type", PStr "integer");
                            ("default", PStr "1"); ("deprecated", PStr "true");
                            ("value", PStr "1")])]
          = Some (PDict new_item) ->
          Dict.get item_name
            [("age", stored_age_item "72" "24"); ("old", stored_age_item "1" "7")]
          = Some (PDict stored_item) ->
          Dict.get "value" stored_item = Some stored_value ->
          is_deprecated (PDict new_item) = Return false ->
          exists merged_entries,
            Dict.get item_name merged = Some (PDict merged_entries)
            /\ Dict.get "value" merged_entries = Some stored_value
            /\ (forall entry, entry <> "value" ->
                  Dict.get entry merged_entries = Dict.get entry new_item))
    /\ (forall item_name new_item,
          Dict.get item_name
            [("age", stored_age_item "100" "100");
             ("old", PDict [("description", PStr "d"); ("type", PStr "integer");
                            ("default", PStr "1"); ("deprecated", PStr "true");
                            ("value", PStr "1")])]
          = Some (PDict new_item) ->
          is_deprecated (PDict new_item) = Return true ->
          Dict.get item_name merged = None).
Proof.
  apply (merge_keeps_stored_value "PURGE"
           [("age", stored_age_item "100" "100");
            ("old", PDict [("description", PStr "d"); ("type", PStr "integer");
                           ("default", PStr "1"); ("deprecated", PStr "true");
                           ("value", PStr "1")])]
           [("age", stored_age_item "72" "24"); ("old", stored_age_item "1" "7")]
           true empty).
  - repeat (constructor; [simpl; intuition discriminate|]). constructor.
  - repeat (constructor; [simpl; intuition discriminate|]). constructor.
  - repeat constructor; (eexists; split; [reflexivity|discriminate]).
  - repeat constructor; eexists; reflexivity.
Defined.

End MergeFacts.

(* ================================================================== *)
(** ** Creating the same category twice *)

Module RecreateFacts.
Import DictFacts ManagerSpec Example.

Lemma bind_Return (A C : Type) (m : outcome A) (f : A -> outcome C) (c : C) :
  bind m f = Return c -> exists a, m = Return a /\ f a = Return c.
Proof. destruct m as [a|e]; simpl; [eauto|discriminate]. Qed.

Lemma lower_ascii_idem c : Py.lower_ascii (Py.lower_ascii c) = Py.lower_ascii c.
Proof. destruct c as [[] [] [] [] [] [] [] []]; reflexivity. Qed.

Lemma lower_idem s : Py.lower (Py.lower s) = Py.lower s.
Proof. induction s as [|c r IH]; simpl; [reflexivity|]. rewrite lower_ascii_idem, IH. reflexivity. Qed.

Lemma expected_rel_set e e' n x x' :
  expected_rel e e' -> x' <> M0 -> expected_rel (Dict.set n x e) (Dict.set n x' e').
Proof.
  intros (Hn & Hv & Hc & Hz) Hx. split; [apply NoDup_set, Hn|]. split; [|split].
  - destruct (String.eqb_spec "value" n) as [<-|N].
    + rewrite get_set_same. discriminate.
    + rewrite get_set_other by exact N. exact Hv.
  - intros m. destruct (String.eqb_spec m n) as [->|N].
    + rewrite !get_set_same. discriminate.
    + rewrite !get_set_other by exact N. apply Hc.
  - intros m. destruct (String.eqb_spec m n) as [->|N].
    + rewrite get_set_same. intros H. injection H as ->. contradiction.
    + rewrite !get_set_other by exact N. apply Hz.
Qed.

Section Sim.
Context {B : Builtins}.

Lemma is_enumeration_rel raw item' :
    item_rel raw item' -> is_enumeration item' = is_enumeration raw.
  Proof.
    intros (Ht & _). unfold is_enumeration, Dict.mem, get_entry_val. rewrite Ht. reflexivity.
  Qed.

Lemma is_enumeration_returns raw : exists b, is_enumeration raw = Return b.
  Proof.
    unfold is_enumeration, Dict.mem, get_entry_val.
    destruct (Dict.get "type" raw); simpl; eauto.
  Qed.

Lemma entry_rel_str n v v' :
    entry_rel n v v' -> Py.is_str v = true -> Py.is_str v' = true.
  Proof.
    intros [->|[(_ & s & _ & ->)|(_ & H)]] Hs; auto.
  Qed.

Lemma sim_enumeration b raw item' n v v' e e' e1 :
    item_rel raw item' -> is_enumeration raw = Return b ->
    entry_rel n v v' -> expected_rel e e' ->
    check_enumeration b raw n v e = Return e1 ->
    exists e1',
      check_enumeration b item' n v' e' = Return e1' /\ expected_rel e1 e1'
      /\ (n <> "options" -> Py.is_str v = true)
      /\ (b = true -> Dict.mem "options" raw = true).
  Proof.
    intros (Ht & Ho & Hd) Hb Hv He H. unfold check_enumeration in *.
    assert (Str : forall x, (_ <- require_str v ;; Return e) = Return x ->
                  (_ <- require_str v' ;; Return e') = Return e' /\ x = e
                  /\ Py.is_str v = true).
    { unfold require_str. intros x Hx. destruct (Py.is_str v) eqn:S; [|discriminate].
      rewrite (entry_rel_str _ _ _ Hv S). simpl in *. injection Hx as <-. auto. }
    destruct b.
    - rewrite Ho. destruct (Dict.mem "options" raw); [|discriminate]. simpl in *.
      destruct (String.eqb_spec n "options") as [->|N].
      + assert (v' = v) as ->.
        { destruct Hv as [E|[([E|E] & _)|(E & _)]]; [exact E|discriminate..]. }
        destruct v as [| |l|]; try discriminate. destruct l as [|x l]; [discriminate|].
        apply bind_Return in H. destruct H as (d & Gd & H).
        apply bind_Return in H. destruct H as (present & Gp & H).
        destruct present; [|discriminate]. injection H as <-.
        unfold get_entry_val in *. rewrite (Hd Hb).
        destruct (Dict.get "default" raw); [|discriminate]. injection Gd as ->.
        cbn [bind]. rewrite Gp. cbn [bind]. eexists. split; [reflexivity|].
        split; [apply expected_rel_set; [exact He|discriminate]|]. split; [congruence|auto].
      + destruct (Str e1 H) as (-> & -> & S). exists e'. split; [reflexivity|].
        split; [exact He|]. split; auto.
    - destruct (Str e1 H) as (-> & -> & S). exists e'. split; [reflexivity|].
      split; [exact He|]. split; [auto|intros X; discriminate X].
  Qed.

Lemma sim_optional n v v' e e' e2 :
    entry_rel n v v' -> expected_rel e e' ->
    check_optional n v e = Return e2 ->
    exists e2', check_optional n v' e' = Return e2' /\ expected_rel e2 e2'.
  Proof.
    intros Hv He H. unfold check_optional in *.
    destruct (existsb (String.eqb n) optional_item_entries) eqn:O; [|injection H as <-; eauto].
    apply bind_Return in H. destruct H as ([] & C & H). injection H as <-.
    destruct Hv as [->|[(Hn & s & -> & ->)|(-> & _)]].
    - rewrite C. simpl. eexists. split; [reflexivity|].
      apply expected_rel_set; [exact He|discriminate].
    - assert (E : String.eqb n "readonly" || String.eqb n "deprecated" = true).
      { destruct Hn as [->| ->]; reflexivity. }
      rewrite E in C |- *.
      change (_validate_type_value (PStr "boolean") (PStr s))
        with (Return (VBool (existsb (String.eqb (Py.lower s)) ["true"; "false"]))) in C.
      change (_validate_type_value (PStr "boolean") (PStr (Py.lower s)))
        with (Return (VBool (existsb (String.eqb (Py.lower (Py.lower s))) ["true"; "false"]))).
      rewrite lower_idem.
      destruct (existsb (String.eqb (Py.lower s)) ["true"; "false"]); [|discriminate C].
      cbn [bind reject_False is_False]. eexists. split; [reflexivity|].
      apply expected_rel_set; [exact He|discriminate].
    - discriminate O.
  Qed.

Lemma sim_count n v v' e e' e3 :
    entry_rel n v v' -> expected_rel e e' ->
    count_entry true n v e = Return e3 ->
    exists e3', count_entry false n v' e' = Return e3' /\ expected_rel e3 e3'
                /\ n <> "value".
  Proof.
    intros Hv He H. unfold count_entry in *. cbn [andb] in *.
    destruct (String.eqb_spec n "value") as [->|N]; [discriminate|].
    destruct (Dict.get n e) eqn:G; [|discriminate].
    destruct He as (Hn & Hval & Hc & Hz).
    destruct (Dict.get n e') eqn:G'; [|exfalso; apply (Hc n); [rewrite G; discriminate|exact G']].
    assert (T : String.eqb n "type" = true -> v' = v).
    { intros E. apply String.eqb_eq in E. subst n.
      destruct Hv as [E|[([E|E] & _)|(E & _)]]; [exact E|discriminate..]. }
    destruct (String.eqb n "type") eqn:E.
    - rewrite (T eq_refl). cbn [andb] in *.
      destruct (negb match v with PStr s => existsb (String.eqb s) _valid_type_strings
                                | _ => false end); [discriminate H|].
      injection H as <-. eexists. split; [reflexivity|]. split; [|exact N].
      apply expected_rel_set; [repeat split; assumption|discriminate].
    - cbn [andb] in *. injection H as <-. eexists. split; [reflexivity|]. split; [|exact N].
      apply expected_rel_set; [repeat split; assumption|discriminate].
  Qed.

Lemma sim_entry raw item' n v v' e e' e3 :
    item_rel raw item' -> entry_rel n v v' -> expected_rel e e' ->
    check_entry true raw n v e = Return e3 ->
    exists e3', check_entry false item' n v' e' = Return e3' /\ expected_rel e3 e3'
                /\ n <> "value" /\ (n <> "options" -> Py.is_str v = true)
                /\ (is_enumeration raw = Return true -> Dict.mem "options" raw = true).
  Proof.
    intros Hi Hv He H. unfold check_entry in *.
    rewrite (is_enumeration_rel _ _ Hi).
    apply bind_Return in H. destruct H as (b & Hb & H). rewrite Hb. simpl.
    apply bind_Return in H. destruct H as (e1 & H1 & H).
    apply bind_Return in H. destruct H as (e2 & H2 & H).
    destruct (sim_enumeration _ _ _ _ _ _ _ _ _ Hi Hb Hv He H1) as (e1' & -> & R1 & S & O).
    simpl. destruct (sim_optional _ _ _ _ _ _ Hv R1 H2) as (e2' & -> & R2). simpl.
    destruct (sim_count _ _ _ _ _ _ Hv R2 H) as (e3' & -> & R3 & N).
    eexists. split; [reflexivity|]. split; [exact R3|]. split; [exact N|].
    split; [exact S|]. intros E. apply O. congruence.
  Qed.

Lemma sim_entries raw item' : forall L L' e e' ef,
    item_rel raw item' -> Forall2 entries_rel L L' -> expected_rel e e' ->
    check_entries true raw L e = Return ef ->
    exists ef', check_entries false item' L' e' = Return ef' /\ expected_rel ef ef'
                /\ (forall n v, In (n, v) L ->
                      n <> "value" /\ (n <> "options" -> Py.is_str v = true)
                      /\ (is_enumeration raw = Return true -> Dict.mem "options" raw = true)).
  Proof.
    intros L L' e e' ef Hi HL. revert e e' ef.
    induction HL as [|[n v] [n' v'] L L' (En & Hv) HL IH]; intros e e' ef He H; simpl in *.
    - injection H as <-. eexists. split; [reflexivity|]. split; [exact He|contradiction].
    - subst n'. apply bind_Return in H. destruct H as (e3 & H3 & H).
      destruct (sim_entry _ _ _ _ _ _ _ _ Hi Hv He H3) as (e3' & -> & R3 & F).
      simpl. destruct (IH _ _ _ R3 H) as (ef' & -> & Rf & Fs).
      eexists. split; [reflexivity|]. split; [exact Rf|].
      intros m x [E|Hin]; [injection E as <- <-; exact F|apply Fs, Hin].
  Qed.
End Sim.

Lemma entry_rel_refl n v : entry_rel n v v.
Proof. left. reflexivity. Qed.

Lemma entries_rel_refl l : Forall2 entries_rel l l.
Proof. induction l as [|[n v] r IH]; constructor; [split; [reflexivity|apply entry_rel_refl]|exact IH]. Qed.

Lemma entries_rel_set raw : forall l' k x,
  Forall2 entries_rel raw l' ->
  Dict.get k l' <> None ->
  (forall v, Dict.get k raw = Some v -> entry_rel k v x) ->
  Forall2 entries_rel raw (Dict.set k x l').
Proof.
  intros l' k x H. induction H as [|[n v] [n' v'] raw l' (En & Hv) H IH]; intros G Hx.
  - contradiction.
  - simpl in En. subst n'. simpl in *.
    destruct (String.eqb_spec k n) as [->|N].
    + constructor; [|exact H]. split; [reflexivity|]. apply Hx. reflexivity.
    + constructor; [split; [reflexivity|exact Hv]|]. apply IH; assumption.
Qed.

Lemma entries_rel_get raw l' k :
  Forall2 entries_rel raw l' -> Dict.get k raw <> None -> Dict.get k l' <> None.
Proof.
  intros H. induction H as [|[n v] [n' v'] raw l' (En & Hv) H IH]; simpl; [auto|].
  simpl in En. subst n'. destruct (String.eqb k n); [discriminate|exact IH].
Qed.

Lemma is_name_eq t a : Py.is_name t a = true -> t = PStr a.
Proof.
  destruct t; simpl; try discriminate. intros H. apply String.eqb_eq in H. congruence.
Qed.

Lemma check_missing_inv e : check_missing e = Return tt -> forall m, Dict.get m e <> Some M0.
Proof.
  induction e as [|[k x] r IH]; simpl; intros H m; [discriminate|].
  destruct x; try discriminate; (destruct (String.eqb m k); [discriminate|exact (IH H m)]).
Qed.

Lemma check_missing_ok e :
  NoDup (Dict.keys e) -> (forall m, Dict.get m e <> Some M0) -> check_missing e = Return tt.
Proof.
  induction e as [|[k x] r IH]; simpl; intros Hn H; [reflexivity|].
  inversion Hn as [|? ? Hk Hr]; subst.
  assert (R : check_missing r = Return tt).
  { apply IH; [exact Hr|]. intros m G. apply (H m).
    destruct (String.eqb_spec m k) as [->|_]; [|exact G].
    exfalso. apply Hk. eapply get_in_keys. exact G. }
  specialize (H k). rewrite String.eqb_refl in H.
  destruct x; [contradiction H; reflexivity|exact R|exact R].
Qed.

Section Revalidate.
Context {B : Builtins}.

Lemma check_entries_app flag item : forall L1 L2 e,
    check_entries flag item (L1 ++ L2) e
    = (e1 <- check_entries flag item L1 e ;; check_entries flag item L2 e1).
  Proof.
    induction L1 as [|[n v] r IH]; intros L2 e; simpl; [reflexivity|].
    destruct (check_entry flag item n v e); simpl; [apply IH|reflexivity].
  Qed.

Lemma clean_boolean_entry_inv k x y :
    clean_boolean_entry k x = Return y ->
    (Dict.get k x = None /\ y = x)
    \/ (exists s, Dict.get k x = Some (PStr s) /\ y = Dict.set k (PStr (Py.lower s)) x).
  Proof.
    unfold clean_boolean_entry. destruct (Dict.get k x) as [v|]; [|intros H; injection H as <-; auto].
    destruct v; try discriminate. simpl. intros H. injection H as <-. eauto.
  Qed.

Lemma clean_boolean_entry_again k x s :
    Dict.get k x = Some (PStr (Py.lower s)) -> clean_boolean_entry k x = Return x.
  Proof.
    intros G. unfold clean_boolean_entry. rewrite G. simpl. rewrite lower_idem.
    rewrite set_get_id by exact G. reflexivity.
  Qed.

Lemma clean_boolean_entry_set_other k k' x v :
    k <> k' -> clean_boolean_entry k x = Return x ->
    clean_boolean_entry k (Dict.set k' v x) = Return (Dict.set k' v x).
  Proof.
    intros N H. unfold clean_boolean_entry in *. rewrite get_set_other by exact N.
    destruct (Dict.get k x) as [w|] eqn:G; [|reflexivity].
    apply bind_Return in H. destruct H as (c & Cv & E). rewrite Cv. cbn [bind].
    injection E as E.
    assert (G' : Dict.get k x = Some c) by (rewrite <- E; apply get_set_same).
    rewrite set_get_id; [reflexivity|]. rewrite get_set_other by exact N. exact G'.
  Qed.

Lemma clean_str t d c : _clean t d = Return c -> Py.is_str d = true -> Py.is_str c = true.
  Proof.
    unfold _clean. destruct (Py.is_name t "boolean").
    - destruct d; try discriminate. intros H _. injection H as <-. reflexivity.
    - destruct (Py.is_name t "float").
      + destruct d; try discriminate. destruct (float_str s); [|discriminate].
        intros H _. injection H as <-. reflexivity.
      + intros H. injection H as <-. auto.
  Qed.

Lemma clean_enumeration t d : Py.is_name t "enumeration" = true -> _clean t d = Return d.
  Proof. intros H. apply is_name_eq in H. subst t. reflexivity. Qed.

Lemma validate_clean_stable t d c r :
    float_str_parses ->
    _validate_type_value t d = Return r -> is_False r = false ->
    _clean t d = Return c ->
    exists r', _validate_type_value t c = Return r' /\ is_False r' = false.
  Proof.
    intros F V NF C. unfold _validate_type_value, _clean in *.
    destruct (Py.is_name t "boolean") eqn:Tb.
    - destruct d; try discriminate. injection C as <-. simpl in *. rewrite lower_idem.
      eexists. split; [reflexivity|]. injection V as <-. exact NF.
    - destruct (Py.is_name t "integer") eqn:Ti.
      + apply is_name_eq in Ti. subst t. simpl in C. injection C as <-. eauto.
      + destruct (Py.is_name t "float") eqn:Tf.
        * destruct d; try discriminate. simpl in *.
          destruct (float_str s) as [c0|] eqn:Fs; [|discriminate]. injection C as <-.
          simpl. specialize (F s c0 Fs). destruct (float_str c0); [|contradiction].
          eexists. split; reflexivity.
        * injection C as <-. eauto.
  Qed.

Lemma expected_rel_initial :
    expected_rel [("description", M0); ("default", M0); ("type", M0)]
      ([("description", M0); ("default", M0); ("type", M0)] ++ [("value", M0)]).
  Proof.
    split; [|split; [|split]].
    - simpl. repeat constructor; simpl; intuition discriminate.
    - discriminate.
    - intros m. simpl.
      destruct (String.eqb m "description"), (String.eqb m "default"),
        (String.eqb m "type"); try discriminate; tauto.
    - intros m. simpl.
      destruct (String.eqb m "description"), (String.eqb m "default"),
        (String.eqb m "type"); auto.
      destruct (String.eqb_spec m "value"); [auto|discriminate].
  Qed.

(** The item a validated (prepared) item is stored as passes the
    validation of stored values, unchanged. *)
Lemma revalidate_item raw out :
    float_str_parses ->
    validate_item true (PDict raw) = Return out ->
    exists item',
      out = PDict item' /\ Dict.get "value" item' <> None
      /\ validate_item false (PDict item') = Return (PDict item').
  Proof.
    intros F H. unfold validate_item in H. cbn [negb app] in H.
    apply bind_Return in H. destruct H as (expected & H1 & H).
    apply bind_Return in H. destruct H as ([] & H2 & H).
    apply bind_Return in H. destruct H as (t & H3 & H).
    apply bind_Return in H. destruct H as (d & H4 & H).
    apply bind_Return in H. destruct H as (r & H5 & H).
    apply bind_Return in H. destruct H as ([] & H6 & H).
    apply bind_Return in H. destruct H as (item1 & H7 & H).
    apply bind_Return in H. destruct H as (item2 & H8 & H).
    apply bind_Return in H. destruct H as (t2 & H9 & H).
    apply bind_Return in H. destruct H as (d2 & H10 & H).
    apply bind_Return in H. destruct H as (c & H11 & H).
    injection H as <-.
    set (body := Dict.set "default" c item2).
    set (item' := Dict.set "value" c body).
    (* what the first validation says about the entries *)
    destruct (sim_entries raw raw raw raw _ _ expected
                (conj eq_refl (conj eq_refl (fun _ => eq_refl)))
                (entries_rel_refl raw) expected_rel_initial H1)
      as (_ & _ & _ & Facts).
    unfold get_entry_val in H3, H4.
    destruct (Dict.get "type" raw) as [t0|] eqn:Gt; [|discriminate]. injection H3 as ->.
    destruct (Dict.get "default" raw) as [d0|] eqn:Gd; [|discriminate]. injection H4 as ->.
    assert (Gv : Dict.get "value" raw = None).
    { destruct (Dict.get "value" raw) eqn:G; [|reflexivity].
      apply get_in in G. apply Facts in G. tauto. }
    assert (Sd : Py.is_str d = true).
    { apply get_in in Gd. apply Facts in Gd. apply Gd. discriminate. }
    (* the cleaning of readonly and deprecated *)
    assert (R1 : Forall2 entries_rel raw item1
                 /\ (forall k, k <> "readonly" -> Dict.get k item1 = Dict.get k raw)
                 /\ clean_boolean_entry "readonly" item1 = Return item1).
    { apply clean_boolean_entry_inv in H7. destruct H7 as [(G & ->)|(s & G & ->)].
      - split; [apply entries_rel_refl|]. split; [reflexivity|].
        unfold clean_boolean_entry. rewrite G. reflexivity.
      - split; [|split].
        + apply entries_rel_set; [apply entries_rel_refl|rewrite G; discriminate|].
          intros v Gv'. rewrite G in Gv'. injection Gv' as <-. right. left. eauto.
        + intros k N. apply get_set_other. exact N.
        + apply (clean_boolean_entry_again _ _ s). apply get_set_same. }
    destruct R1 as (F1 & O1 & C1).
    assert (R2 : Forall2 entries_rel raw item2
                 /\ (forall k, k <> "readonly" -> k <> "deprecated" ->
                       Dict.get k item2 = Dict.get k raw)
                 /\ clean_boolean_entry "readonly" item2 = Return item2
                 /\ clean_boolean_entry "deprecated" item2 = Return item2).
    { apply clean_boolean_entry_inv in H8. destruct H8 as [(G & ->)|(s & G & ->)].
      - split; [exact F1|]. split; [intros k N _; apply O1, N|]. split; [exact C1|].
        unfold clean_boolean_entry. rewrite G. reflexivity.
      - split; [|split; [|split]].
        + apply entries_rel_set; [exact F1|rewrite G; discriminate|].
          intros v Gv'. rewrite <- O1 in Gv' by discriminate. rewrite G in Gv'.
          injection Gv' as <-. right. left. eauto.
        + intros k N N'. rewrite get_set_other by exact N'. apply O1, N.
        + apply clean_boolean_entry_set_other; [discriminate|exact C1].
        + apply (clean_boolean_entry_again _ _ s). apply get_set_same. }
    destruct R2 as (F2 & O2 & C2r & C2d).
    simpl in H9, H10. rewrite O2 in H9, H10 by discriminate. rewrite Gt in H9. rewrite Gd in H10.
    injection H9 as <-. injection H10 as <-.
    assert (Sc : Py.is_str c = true) by (eapply clean_str; eassumption).
    assert (Fb : Forall2 entries_rel raw body).
    { apply entries_rel_set; [exact F2|rewrite O2, Gd by discriminate; discriminate|].
      intros v _. right. right. auto. }
    assert (Ob : forall k, k <> "readonly" -> k <> "deprecated" -> k <> "default" ->
                           Dict.get k body = Dict.get k raw).
    { intros k N1 N2 N3. unfold body. rewrite get_set_other by exact N3. apply O2; assumption. }
    assert (Eb : item' = body ++ [("value", c)]).
    { apply set_absent. rewrite Ob by discriminate. exact Gv. }
    assert (Oi : forall k, k <> "readonly" -> k <> "deprecated" -> k <> "default" ->
                           k <> "value" -> Dict.get k item' = Dict.get k raw).
    { intros k N1 N2 N3 N4. unfold item'. rewrite get_set_other by exact N4.
      apply Ob; assumption. }
    assert (Gdi : Dict.get "default" item' = Some c).
    { unfold item', body. rewrite get_set_other by discriminate. apply get_set_same. }
    assert (Ir : item_rel raw item').
    { split; [apply Oi; discriminate|]. split.
      - unfold Dict.mem. rewrite Oi by discriminate. reflexivity.
      - intros E. rewrite Gdi, Gd. unfold is_enumeration, Dict.mem, get_entry_val in E.
        rewrite Gt in E. simpl in E. injection E as E.
        rewrite (clean_enumeration _ d E) in H11. congruence. }
    exists item'. split; [reflexivity|].
    split; [unfold item'; rewrite get_set_same; discriminate|].
    (* the second validation *)
    unfold validate_item. cbn [negb].
    destruct (sim_entries raw item' raw body _ _ expected Ir Fb expected_rel_initial H1)
      as (ef' & Hef & Ref & _).
    rewrite Eb at 2. rewrite check_entries_app, Hef. cbn [bind check_entries].
    (* the value entry *)
    assert (Hval : check_entry false item' "value" c ef'
                   = Return (Dict.set "value" M1 ef')).
    { unfold check_entry. rewrite (is_enumeration_rel _ _ Ir).
      destruct (is_enumeration_returns raw) as (b & Eb'). rewrite Eb'. cbn [bind].
      assert (E1 : check_enumeration b item' "value" c ef' = Return ef').
      { unfold check_enumeration, require_str. rewrite Sc.
        destruct b; [|reflexivity].
        destruct Ir as (_ & -> & _).
        apply get_in in Gd. apply Facts in Gd. destruct Gd as (_ & _ & Op).
        rewrite (Op Eb'). reflexivity. }
      rewrite E1. cbn [bind]. 
      change (check_optional "value" c ef') with (Return ef').
      cbn [bind]. unfold count_entry. cbn [andb].
      destruct Ref as (_ & Gval & _).
      destruct (Dict.get "value" ef'); [reflexivity|contradiction]. }
    rewrite Hval. cbn [bind].
    rewrite check_missing_ok; cycle 1.
    { apply NoDup_set. apply Ref. }
    { intros m. destruct (String.eqb_spec m "value") as [->|N].
      - rewrite get_set_same. discriminate.
      - rewrite get_set_other by exact N. intros G.
        destruct Ref as (_ & _ & _ & Z). destruct (Z m G) as [->|G0]; [contradiction|].
        exact (check_missing_inv _ H2 m G0). }
    cbn [bind]. unfold get_entry_val. rewrite Oi by discriminate. rewrite Gt, Gdi. cbn [bind].
    unfold reject_False in H6. destruct (is_False r) eqn:NF; [discriminate|].
    destruct (validate_clean_stable t d c r F H5 NF H11) as (r' & -> & NF').
    cbn [bind]. unfold reject_False. rewrite NF'. cbn [bind].
    assert (Cr : clean_boolean_entry "readonly" item' = Return item').
    { unfold item', body. repeat apply clean_boolean_entry_set_other; try discriminate.
      exact C2r. }
    rewrite Cr. cbn [bind].
    assert (Cd : clean_boolean_entry "deprecated" item' = Return item').
    { unfold item', body. repeat apply clean_boolean_entry_set_other; try discriminate.
      exact C2d. }
    rewrite Cd. reflexivity.
  Qed.
End Revalidate.

Lemma list_eqb_refl l : Py.list_eqb l l = true.
Proof. induction l as [|a r IH]; simpl; [reflexivity|]. rewrite String.eqb_refl, IH. reflexivity. Qed.

Lemma pyval_eqb_refl : forall a, Py.pyval_eqb a a = true.
Proof.
  fix IH 1. intros [|s|l|d]; simpl.
  - reflexivity.
  - apply String.eqb_refl.
  - apply list_eqb_refl.
  - induction d as [|[k v] r IHr]; [reflexivity|].
    rewrite String.eqb_refl, IH, IHr. reflexivity.
Qed.

Lemma py_eq_refl a : Py.eq a a = true.
Proof. apply pyval_eqb_refl. Qed.

Lemma find_display_name_get k (c : Dict.t Row) :
  find_display_name k
    (map (fun kr => (fst kr, row_description (snd kr), row_display_name (snd kr))) c)
  = option_map row_display_name (Dict.get k c).
Proof.
  induction c as [|[k' row] r IH]; simpl; [reflexivity|].
  rewrite String.eqb_sym. destruct (String.eqb k k'); [reflexivity|exact IH].
Qed.

Lemma oldest_dated c : forall names o,
  (forall n, In n names \/ o = Some n ->
     exists e, Dict.get n c = Some e /\ date_accessed e <> None) ->
  exists r, ConfigurationCache.oldest c names o = Return r
            /\ (names <> [] \/ o <> None -> r <> None).
Proof.
  induction names as [|n names IH]; intros o H; simpl.
  - eexists. split; [reflexivity|]. intros [X|X]; [contradiction|exact X].
  - destruct o as [o|].
    + destruct (H n (or_introl (or_introl eq_refl))) as (e & -> & De).
      destruct (H o (or_intror eq_refl)) as (eo & -> & Do).
      destruct (date_accessed e) as [d|]; [|contradiction].
      destruct (date_accessed eo) as [d'|]; [|contradiction].
      destruct (IH (if (d <? d')%nat then Some n else Some o)) as (r & -> & Hr).
      { intros m [Hm|Hm]; [apply H; left; right; exact Hm|].
        destruct (d <? d')%nat; injection Hm as <-; apply H; auto.
        left. left. reflexivity. }
      eexists. split; [reflexivity|]. intros _. apply Hr. right.
      destruct (d <? d')%nat; discriminate.
    + destruct (IH (Some n)) as (r & -> & Hr).
      { intros m [Hm|Hm]; [apply H; left; right; exact Hm|].
        injection Hm as <-. apply H. left. left. reflexivity. }
      eexists. split; [reflexivity|]. intros _. apply Hr. right. discriminate.
Qed.

Lemma cache_update_returns name v d s :
  cache_dated s ->
  exists s', ConfigurationCache.update name v d s = (Return tt, s')
             /\ same_storage_and_logs s s'.
Proof.
  intros Hd.
  pose proof (BulkFacts.update_same name v d s) as Same.
  unfold ConfigurationCache.update, ConfigurationCache.remove_oldest,
    bindM, gets, modify, ret, now, lift, raise in *. cbv beta iota in *.
  destruct (negb (Dict.mem name (cache s)) && (MAX_CACHE_SIZE <=? Dict.len (cache s))%nat)
    eqn:Full.
  - destruct (oldest_dated (cache s) (Dict.keys (cache s)) None) as (r & Hr & Nn).
    { intros n [Hn|Hn]; [|discriminate].
      destruct (Dict.get n (cache s)) as [e|] eqn:G.
      - exists e. split; [reflexivity|]. apply get_in in G.
        unfold cache_dated in Hd. rewrite Forall_forall in Hd. apply (Hd _ G).
      - apply get_none_not_in in G. contradiction. }
    rewrite Hr in *. destruct r as [o|].
    + eexists. split; [reflexivity|exact Same].
    + exfalso. apply Nn; [left|reflexivity].
      apply andb_true_iff in Full. destruct Full as (_ & L).
      apply Nat.leb_le in L. unfold Dict.keys, Dict.len, MAX_CACHE_SIZE in *.
      destruct (cache s); simpl in *; [lia|discriminate].
  - eexists. split; [reflexivity|exact Same].
Qed.

Section Idempotent.
Context {B : Builtins}.
Hypothesis F : float_str_parses.

Lemma revalidate_items : forall raw prepared,
    validate_items raw true = Return prepared ->
    validate_items prepared false = Return prepared /\ prepared_items prepared.
  Proof.
    induction raw as [|[k v] r IH]; intros prepared H; simpl in H.
    - injection H as <-. split; [reflexivity|constructor].
    - apply bind_Return in H. destruct H as (v' & Hv & H).
      apply bind_Return in H. destruct H as (r' & Hr & H). injection H as <-.
      destruct v as [| | |raw]; try discriminate.
      destruct (revalidate_item raw v' F Hv) as (item' & -> & Gv & Hv').
      destruct (IH r' Hr) as (Hr' & Pr).
      split.
      + cbn [validate_items]. rewrite Hv'. cbn [bind]. rewrite Hr'. reflexivity.
      + constructor; [|exact Pr]. exists item'. split; [reflexivity|exact Gv].
  Qed.

Lemma revalidate_category v prepared :
    _validate_category_val v true = Return (PDict prepared) ->
    _validate_category_val (PDict prepared) false = Return (PDict prepared)
    /\ prepared_items prepared.
  Proof.
    unfold _validate_category_val. destruct v; try discriminate.
    intros H. apply bind_Return in H. destruct H as (items' & Hi & H). injection H as <-.
    destruct (revalidate_items _ _ Hi) as (-> & P). auto.
  Qed.
End Idempotent.

Lemma drop_deprecated_none items :
  none_deprecated items -> drop_deprecated items = Return items.
Proof.
  induction 1 as [|[k v] r Hv Hr IH]; simpl; [reflexivity|].
  simpl in Hv. rewrite Hv, IH. reflexivity.
Qed.

Lemma merge_items_same name : forall items s,
  prepared_items items -> none_deprecated items ->
  merge_items name items items s = (Return (items, [], []), s).
Proof.
  induction items as [|[k v] r IH]; intros s Hp Hn; [reflexivity|].
  inversion Hp as [|? ? (d & Ev & Gv) Hp']; subst. simpl in Ev. subst v.
  inversion Hn as [|? ? Dv Hn']; subst. simpl in Dv.
  cbn [merge_items Dict.get Dict.pop]. rewrite String.eqb_refl.
  destruct (Dict.get "value" d) as [x|] eqn:G; [|contradiction].
  unfold bindM at 1. cbn [Py.is_None negb]. unfold bindM at 1 2, lift, ret.
  cbn [Py.set_item]. rewrite (set_get_id _ _ _ _ G). rewrite Dv.
  unfold bindM. cbv beta iota. rewrite (IH s Hp' Hn'). reflexivity.
Qed.

Lemma merge_same name items keep s :
  prepared_items items -> none_deprecated items ->
  _merge_category_vals (PDict items) (PDict items) keep name s = (Return (PDict items), s).
Proof.
  intros Hp Hn. unfold _merge_category_vals, bindM.
  rewrite (merge_items_same name items s Hp Hn). cbv beta iota.
  destruct keep; reflexivity.
Qed.

Section Create.
Context {B : Builtins}.

Lemma except_message_return (A C : Type) (before : M A) (after : A -> M C) s a s1 :
    before s = (Return a, s1) ->
    except_KeyError_message before after s = after a s1.
  Proof.
    intros E. unfold except_KeyError_message. rewrite E.
    destruct (after a s1) as [[c|[]] s2]; reflexivity.
  Qed.

Lemma create_new_category_spec k prepared description display_name s :
    Dict.get k (configuration s) = None ->
    none_deprecated prepared ->
    exists r s',
      _create_new_category k (PDict prepared) description display_name s = (r, s')
      /\ configuration s'
         = Dict.set k {| row_description := description; row_value := PDict prepared;
                         row_display_name := stored_display_name k display_name |}
             (configuration s)
      /\ audit_log s'
         = audit_log s ++ [("CONAD", PDict [("name", PStr k); ("category", PDict prepared)])]
      /\ storage_writes s' = storage_writes s ++ [InsertConfiguration k]
      /\ callback_log s' = callback_log s
      /\ _registered_interests s' = _registered_interests s
      /\ (cache_dated s -> r = Return tt).
  Proof.
    intros G Hn. unfold _create_new_category.
    erewrite except_message_return.
    2:{ unfold insert_configuration, audit_information, log_write.
        unfold bindM at 1. unfold lift at 1. rewrite (drop_deprecated_none _ Hn).
        cbn [bind]. unfold bindM, modify, gets, ret. cbv beta iota.
        cbn [configuration with_audit]. unfold Dict.mem. rewrite G. reflexivity. }
    match goal with |- context [ConfigurationCache.update ?a ?b ?c ?st] =>
      pose proof (BulkFacts.update_same a b c st) as Same;
      pose proof (cache_update_returns a b c st) as Ret;
      destruct (ConfigurationCache.update a b c st) as [r s'] end.
    cbn [snd] in Same. destruct Same as (Ec & _ & Ew & Ea & Eb & Ei).
    exists r, s'. split; [reflexivity|]. rewrite Ec, Ea, Ew, Eb, Ei.
    repeat split. intros Hd. destruct (Ret Hd) as (s'' & E & _). congruence.
  Qed.

Hypothesis F : float_str_parses.

End Create.

Lemma length_app s t : String.length (s ++ t)%string = String.length s + String.length t.
Proof. induction s as [|c r IH]; simpl; [reflexivity|]. rewrite IH. reflexivity. Qed.

Lemma substring_prefix s t : String.substring 0 (String.length s) (s ++ t)%string = s.
Proof. induction s as [|c r IH]; simpl; [destruct t; reflexivity|]. rewrite IH. reflexivity. Qed.

Lemma substring_suffix s t :
  String.substring (String.length s) (String.length t) (s ++ t)%string = t.
Proof.
  induction s as [|c r IH]; simpl; [|exact IH].
  induction t as [|c r IH]; simpl; [reflexivity|]. rewrite IH. reflexivity.
Qed.

Lemma plain_float_of_decimal s :
  plain_decimal s = true -> plain_float (s ++ ".0")%string = true.
Proof.
  intros H. unfold plain_float. rewrite length_app.
  change (String.length ".0") with 2. replace (String.length s + 2 - 2) with (String.length s) by lia.
  rewrite substring_prefix, H.
  change 2 with (String.length ".0") at 3. rewrite substring_suffix.
  destruct s as [|a s]; [discriminate|].
  destruct (Nat.ltb_spec 2 (String.length (String a s) + 2)); [reflexivity|simpl in *; lia].
Qed.

Lemma example_float_str_parses : @float_str_parses builtins.
Proof.
  intros s c. simpl. destruct (plain_decimal s) eqn:D.
  - intros H. injection H as <-. rewrite (plain_float_of_decimal s D).
    destruct (plain_decimal (s ++ ".0")); discriminate.
  - destruct (plain_float s) eqn:P; [|discriminate].
    intros H. injection H as <-. rewrite D, P. discriminate.
Qed.



End RecreateFacts.

(* ================================================================== *)
(** ** The cache: bound, eviction and reads *)

Module CacheReadFacts.
Import DictFacts ManagerSpec CacheSpec Example.

Lemma contains_hit name s e :
  Dict.get name (cache s) = Some e ->
  ConfigurationCache.contains name s
  = (Return true,
     with_cache
       (Dict.set name
          {| date_accessed := Some (clock s); value := value e;
             displayName := displayName e;
             hit := Some (S (match hit e with Some h => h | None => 0 end)) |}
          (cache s))
       (with_clock (S (clock s)) (with_hit_miss (S (cache_hit s)) (cache_miss s) s))).
Proof.
  intros G. unfold ConfigurationCache.contains, bindM, gets, modify, ret, now.
  cbv beta iota. rewrite G. reflexivity.
Qed.

Lemma contains_miss name s :
  Dict.get name (cache s) = None ->
  ConfigurationCache.contains name s
  = (Return false, with_hit_miss (cache_hit s) (S (cache_miss s)) s).
Proof.
  intros G. unfold ConfigurationCache.contains, bindM, gets, modify, ret, now.
  cbv beta iota. rewrite G. reflexivity.
Qed.

Lemma get_mem (V : Type) k (d : Dict.t V) v : Dict.get k d = Some v -> Dict.mem k d = true.
Proof. unfold Dict.mem. intros ->. reflexivity. Qed.

Lemma contains_size name s :
  ConfigurationCache.size (snd (ConfigurationCache.contains name s))
  = ConfigurationCache.size s.
Proof.
  unfold ConfigurationCache.size. destruct (Dict.get name (cache s)) as [e|] eqn:G.
  - rewrite (contains_hit _ _ _ G). cbn [snd cache with_cache].
    apply len_set_mem. eapply get_mem. exact G.
  - rewrite (contains_miss _ _ G). reflexivity.
Qed.

Lemma set_cached_value_size name v s :
  ConfigurationCache.size (snd (set_cached_value name v s)) = ConfigurationCache.size s.
Proof.
  unfold ConfigurationCache.size, set_cached_value, bindM, gets, modify, raise.
  cbv beta iota. destruct (Dict.get name (cache s)) as [e|] eqn:G; [|reflexivity].
  cbn [snd cache with_cache]. apply len_set_mem. eapply get_mem. exact G.
Qed.

Lemma get_category_all_items_size name s :
    ConfigurationCache.size s <= MAX_CACHE_SIZE ->
    ConfigurationCache.size (snd (get_category_all_items name s)) <= MAX_CACHE_SIZE.
  Proof.
    intros Hb. unfold get_category_all_items, bindM.
    pose proof (contains_size name s) as C.
    destruct (ConfigurationCache.contains name s) as [[[|]|e] s1]; cbn [snd] in C |- *.
    - unfold cached_value, bindM, gets, ret, raise.
      destruct (Dict.get name (cache s1)); cbn [snd]; lia.
    - unfold _read_category_val, bindM, gets, ret. cbv beta iota.
      destruct (negb _).
      + match goal with |- context [ConfigurationCache.update ?a ?b ?c ?st] =>
          pose proof (CacheFacts.cache_update_keeps_bound a b c st) as U;
          destruct (ConfigurationCache.update a b c st) as [[[]|e] s2] end;
          cbn [snd] in U |- *; apply U; lia.
      + cbn [snd]. lia.
    - lia.
  Qed.

Lemma get_category_item_size name item s :
    ConfigurationCache.size s <= MAX_CACHE_SIZE ->
    ConfigurationCache.size (snd (get_category_item name item s)) <= MAX_CACHE_SIZE.
  Proof.
    intros Hb. unfold get_category_item, bindM.
    pose proof (contains_size name s) as C.
    destruct (ConfigurationCache.contains name s) as [[[|]|e] s1]; cbn [snd] in C |- *.
    - unfold cached_value, bindM, gets, ret, raise, lift.
      destruct (Dict.get name (cache s1)); cbn [snd]; [|lia].
      destruct (Py.contains _ _) as [[|]|]; cbn [snd negb]; lia.
    - unfold _read_item_val, _read_category_val, bindM, gets, ret. cbv beta iota.
      destruct (negb _); [|cbn [snd]; lia].
      destruct (negb _); [|cbn [snd]; lia].
      match goal with |- context [ConfigurationCache.update ?a ?b ?c ?st] =>
        pose proof (CacheFacts.cache_update_keeps_bound a b c st) as U;
        destruct (ConfigurationCache.update a b c st) as [[[]|e] s2] end;
        cbv beta iota; cbn [snd] in U |- *; [|apply U; lia].
      unfold cached_value, bindM, gets, ret, raise, lift. cbv beta iota.
      destruct (Dict.get name (cache s2)); cbv beta iota; cbn [snd]; [|apply U; lia].
      match goal with |- context [Py.set_item ?a ?b ?c] =>
        destruct (Py.set_item a b c) as [v'|] end; cbv beta iota; cbn [snd]; [|apply U; lia].
      pose proof (set_cached_value_size name v' s2) as S2.
      destruct (set_cached_value name v' s2) as [[[]|e] s3]; cbv beta iota;
        cbn [snd] in S2 |- *; rewrite S2; apply U; lia.
    - lia.
  Qed.

(** X1. The cache never grows past ten entries through
      [ConfigurationCache.update], through the membership test and through
      the two read paths [get_category_all_items] and [get_category_item]:
      each of them leaves a cache of at most [MAX_CACHE_SIZE] entries within
      that bound. *)
Theorem cache_bound_kept_by_update_and_reads (name item : string) (v : pyval)
      (d : option string) (s : State) :
    ConfigurationCache.size s <= MAX_CACHE_SIZE ->
    ConfigurationCache.size (snd (ConfigurationCache.update name v d s)) <= MAX_CACHE_SIZE
    /\ ConfigurationCache.size (snd (ConfigurationCache.contains name s)) <= MAX_CACHE_SIZE
    /\ ConfigurationCache.size (snd (get_category_all_items name s)) <= MAX_CACHE_SIZE
    /\ ConfigurationCache.size (snd (get_category_item name item s)) <= MAX_CACHE_SIZE.
  Proof.
    intros Hb. split; [apply CacheFacts.cache_update_keeps_bound, Hb|].
    split; [rewrite contains_size; exact Hb|].
    split; [apply get_category_all_items_size, Hb|apply get_category_item_size, Hb].
  Qed.

Lemma cache_bound_kept_on_ten_entries :
  ConfigurationCache.size
    (snd (ConfigurationCache.update "new" (PDict []) None ten_entries)) <= MAX_CACHE_SIZE
  /\ ConfigurationCache.size (snd (ConfigurationCache.contains "new" ten_entries))
     <= MAX_CACHE_SIZE
  /\ ConfigurationCache.size (snd (get_category_all_items "new" ten_entries))
     <= MAX_CACHE_SIZE
  /\ ConfigurationCache.size (snd (get_category_item "new" "age" ten_entries))
     <= MAX_CACHE_SIZE.
Proof.
  apply (cache_bound_kept_by_update_and_reads "new" "age" (PDict []) None
           ten_entries).
  vm_compute. lia.
Defined.

Lemma oldest_minimal c : forall names o k,
  (forall n, In n names \/ o = Some n -> exists d, date_of c n = Some d) ->
  ConfigurationCache.oldest c names o = Return (Some k) ->
  exists dk, date_of c k = Some dk
             /\ forall n dn, In n names \/ o = Some n -> date_of c n = Some dn -> dk <= dn.
Proof.
  induction names as [|n names IH]; intros o k D H; simpl in H.
  - injection H as ->. destruct (D k (or_intror eq_refl)) as (dk & Hk).
    exists dk. split; [exact Hk|]. intros n dn [[]|E] Hn. injection E as <-.
    rewrite Hk in Hn. injection Hn as <-. lia.
  - destruct o as [a|].
    + destruct (D n (or_introl (or_introl eq_refl))) as (d & Hd).
      destruct (D a (or_intror eq_refl)) as (d' & Hd').
      unfold date_of in Hd, Hd'.
      destruct (Dict.get n c) as [e|] eqn:Gn; [|discriminate].
      destruct (Dict.get a c) as [ea|] eqn:Ga; [|discriminate].
      rewrite Hd, Hd' in H.
      assert (Dn : date_of c n = Some d) by (unfold date_of; rewrite Gn; exact Hd).
      assert (Da : date_of c a = Some d') by (unfold date_of; rewrite Ga; exact Hd').
      edestruct IH as (dk & Hk & Min); [|exact H|].
      { intros m [Hm|Hm]; [apply D; left; right; exact Hm|].
        destruct (d <? d')%nat; injection Hm as <-; eauto. }
      assert (Kn : dk <= d /\ dk <= d').
      { destruct (Nat.ltb_spec d d') as [L|L].
        - pose proof (Min n d (or_intror eq_refl) Dn). lia.
        - pose proof (Min a d' (or_intror eq_refl) Da). lia. }
      exists dk. split; [exact Hk|]. intros m dm [[E|Hm]|E] Gm.
      * subst m. rewrite Dn in Gm. injection Gm as <-. lia.
      * apply (Min m dm); [left; exact Hm|exact Gm].
      * injection E as <-. rewrite Da in Gm. injection Gm as <-. lia.
    + edestruct IH as (dk & Hk & Min); [|exact H|].
      { intros m [Hm|Hm]; [apply D; left; right; exact Hm|].
        injection Hm as <-. apply D. left. left. reflexivity. }
      exists dk. split; [exact Hk|]. intros m dm [[E|Hm]|E] Gm; [| |discriminate].
      * subst m. apply (Min n dm); [right; reflexivity|exact Gm].
      * apply (Min m dm); [left; exact Hm|exact Gm].
Qed.

Lemma dated_date_of s n :
  cache_dated s -> In n (Dict.keys (cache s)) -> exists d, date_of (cache s) n = Some d.
Proof.
  intros Hd Hn. unfold date_of. destruct (Dict.get n (cache s)) as [e|] eqn:G.
  - apply get_in in G. unfold cache_dated in Hd. rewrite Forall_forall in Hd.
    specialize (Hd _ G). simpl in Hd. destruct (date_accessed e); [eauto|contradiction].
  - apply get_none_not_in in G. contradiction.
Qed.

(** X2. When the cache is full and the category is new to it,
    [ConfigurationCache.update] evicts an entry whose access time is the
    least of all, keeps every other entry as it was, and stores the new
    entry with the current time; the size does not change. *)
Theorem update_evicts_least_recently_accessed
    (name : string) (v : pyval) (d : option string) (s : State) :
  cache_dated s ->
  NoDup (Dict.keys (cache s)) ->
  Dict.get name (cache s) = None ->
  MAX_CACHE_SIZE <= ConfigurationCache.size s ->
  exists s' evicted d_evicted,
    ConfigurationCache.update name v d s = (Return tt, s')
    /\ date_of (cache s) evicted = Some d_evicted
    /\ (forall k dk, date_of (cache s) k = Some dk -> d_evicted <= dk)
    /\ Dict.get evicted (cache s') = None
    /\ (forall k, k <> evicted -> k <> name ->
          Dict.get k (cache s') = Dict.get k (cache s))
    /\ Dict.get name (cache s')
       = Some {| date_accessed := Some (clock s); value := v;
                 displayName := match d with None => name | Some x => x end;
                 hit := None |}
    /\ ConfigurationCache.size s' = ConfigurationCache.size s.
Proof.
  intros Hd Hn G Full.
  unfold ConfigurationCache.update, ConfigurationCache.remove_oldest,
    bindM, gets, modify, ret, now, lift, raise. cbv beta iota.
  unfold Dict.mem. rewrite G. cbn [negb andb].
  unfold ConfigurationCache.size in *.
  destruct (Nat.leb_spec MAX_CACHE_SIZE (Dict.len (cache s))) as [_|L]; [|lia].
  destruct (RecreateFacts.oldest_dated (cache s) (Dict.keys (cache s)) None)
    as (r & Hr & Nn).
  { intros n [Hin|E]; [|discriminate].
    destruct (Dict.get n (cache s)) as [e|] eqn:Gn.
    - exists e. split; [reflexivity|]. apply get_in in Gn.
      unfold cache_dated in Hd. rewrite Forall_forall in Hd. apply (Hd _ Gn).
    - apply get_none_not_in in Gn. contradiction. }
  rewrite Hr. destruct r as [o|].
  2:{ exfalso. apply Nn; [left|reflexivity]. unfold Dict.keys, Dict.len, MAX_CACHE_SIZE in *.
      destruct (cache s); simpl in *; [lia|discriminate]. }
  destruct (oldest_minimal (cache s) (Dict.keys (cache s)) None o) as (dk & Hk & Min);
    [|exact Hr|].
  { intros n [Hin|E]; [apply dated_date_of; assumption|discriminate E]. }
  assert (Oin : In o (Dict.keys (cache s))).
  { apply CacheFacts.oldest_in in Hr. destruct Hr as [H|H]; [exact H|discriminate]. }
  assert (No : o <> name).
  { intros ->. apply get_none_not_in in G. contradiction. }
  eexists _, o, dk. split; [reflexivity|]. split; [exact Hk|]. split.
  { intros k dk' Gk. apply (Min k dk'); [|exact Gk]. left.
    unfold date_of in Gk. destruct (Dict.get k (cache s)) eqn:E; [|discriminate].
    eapply get_in_keys. exact E. }
  cbn [cache with_cache with_clock clock]. split.
  { rewrite get_set_other by exact No. apply get_none_not_in. apply not_in_pop. exact Hn. }
  split.
  { intros k N1 N2. rewrite get_set_other by exact N2. apply get_pop_other. exact N1. }
  split; [apply get_set_same|].
  rewrite set_absent.
  - unfold Dict.len. rewrite length_app. simpl.
    pose proof (len_pop_in _ o (cache s) Oin) as P. unfold Dict.len in P. lia.
  - rewrite get_pop_other by (intros E; apply No; symmetry; exact E). exact G.
Qed.

Lemma update_evicts_least_recently_accessed_of_ten :
  exists s' evicted d_evicted,
    ConfigurationCache.update "new" (PDict []) None ten_entries = (Return tt, s')
    /\ date_of (cache ten_entries) evicted = Some d_evicted
    /\ (forall k dk, date_of (cache ten_entries) k = Some dk -> d_evicted <= dk)
    /\ Dict.get evicted (cache s') = None
    /\ (forall k, k <> evicted -> k <> "new" ->
          Dict.get k (cache s') = Dict.get k (cache ten_entries))
    /\ Dict.get "new" (cache s')
       = Some {| date_accessed := Some (clock ten_entries); value := PDict [];
                 displayName := "new"; hit := None |}
    /\ ConfigurationCache.size s' = ConfigurationCache.size ten_entries.
Proof.
  apply (update_evicts_least_recently_accessed "new" (PDict []) None ten_entries).
  - unfold cache_dated. cbn. repeat constructor; discriminate.
  - cbn. repeat (constructor; [cbn; intuition discriminate|]). constructor.
  - reflexivity.
  - vm_compute. lia.
Defined.

(** X3. In a cache all of whose entries have their access time,
    reading a category that is in storage and not in the cache returns
    the stored value, counts a miss and caches the value; reading it
    again returns the same value from the cache, counting a hit. Neither
    read changes storage or the logs. *)
Theorem get_category_all_items_reads_through (name : string) (row : Row) (s : State) :
    cache_dated s ->
    Dict.get name (cache s) = None ->
    Dict.get name (configuration s) = Some row ->
    row_value row <> PNone ->
    exists s1 s2,
      get_category_all_items name s = (Return (row_value row), s1)
      /\ cache_miss s1 = S (cache_miss s) /\ cache_hit s1 = cache_hit s
      /\ same_storage_and_logs s s1
      /\ get_category_all_items name s1 = (Return (row_value row), s2)
      /\ cache_hit s2 = S (cache_hit s1) /\ cache_miss s2 = cache_miss s1
      /\ same_storage_and_logs s s2.
  Proof.
    intros Hd G Gr Nn.
    assert (Hd1 : cache_dated (with_hit_miss (cache_hit s) (S (cache_miss s)) s)) by exact Hd.
    destruct (RecreateFacts.cache_update_returns name (row_value row) None _ Hd1)
      as (s1 & U & Same).
    assert (First : get_category_all_items name s = (Return (row_value row), s1)).
    { unfold get_category_all_items. unfold bindM at 1. rewrite (contains_miss _ _ G).
      unfold _read_category_val, bindM, gets, ret. cbv beta iota.
      cbn [configuration with_hit_miss]. rewrite Gr.
      destruct (row_value row); try contradiction; cbn [Py.is_None negb];
        rewrite U; reflexivity. }
    assert (G1 : exists e, Dict.get name (cache s1) = Some e /\ value e = row_value row).
    { pose proof U as U'.
      unfold ConfigurationCache.update, ConfigurationCache.remove_oldest,
        bindM, gets, modify, ret, now, lift, raise in U'. cbv beta iota in U'.
      destruct (negb _ && _) in U'.
      - destruct (ConfigurationCache.oldest _ _ _) as [[o|]|] in U'; try discriminate.
        injection U' as <-. eexists. split; [apply get_set_same|reflexivity].
      - injection U' as <-. eexists. split; [apply get_set_same|reflexivity]. }
    destruct G1 as (e & Ge & Ve).
    assert (HM : cache_miss s1 = S (cache_miss s) /\ cache_hit s1 = cache_hit s).
    { pose proof U as U'.
      unfold ConfigurationCache.update, ConfigurationCache.remove_oldest,
        bindM, gets, modify, ret, now, lift, raise in U'. cbv beta iota in U'.
      destruct (negb _ && _) in U'.
      - destruct (ConfigurationCache.oldest _ _ _) as [[o|]|] in U'; try discriminate.
        injection U' as <-. split; reflexivity.
      - injection U' as <-. split; reflexivity. }
    eexists s1, _. split; [exact First|]. split; [apply HM|]. split; [apply HM|].
    split; [exact Same|]. split.
    { unfold get_category_all_items. unfold bindM at 1. rewrite (contains_hit _ _ _ Ge).
      unfold cached_value, bindM, gets, ret. cbv beta iota.
      cbn [cache with_cache]. rewrite get_set_same. cbn [value]. rewrite Ve. reflexivity. }
    split; [reflexivity|]. split; [reflexivity|].
    destruct Same as (a & b & c & d0 & e0 & f). repeat split; assumption.
  Qed.

Lemma get_category_all_items_reads_through_purge :
  exists s1 s2,
    get_category_all_items "PURGE" (started_on "PURGE" (PDict [("age", stored_age_item "72" "72")]))
    = (Return (PDict [("age", stored_age_item "72" "72")]), s1)
    /\ cache_miss s1
       = S (cache_miss (started_on "PURGE" (PDict [("age", stored_age_item "72" "72")])))
    /\ cache_hit s1
       = cache_hit (started_on "PURGE" (PDict [("age", stored_age_item "72" "72")]))
    /\ same_storage_and_logs
         (started_on "PURGE" (PDict [("age", stored_age_item "72" "72")])) s1
    /\ get_category_all_items "PURGE" s1
       = (Return (PDict [("age", stored_age_item "72" "72")]), s2)
    /\ cache_hit s2 = S (cache_hit s1) /\ cache_miss s2 = cache_miss s1
    /\ same_storage_and_logs
         (started_on "PURGE" (PDict [("age", stored_age_item "72" "72")])) s2.
Proof.
  apply (get_category_all_items_reads_through "PURGE"
           {| row_description := ""; row_value := PDict [("age", stored_age_item "72" "72")];
              row_display_name := "PURGE" |}
           (started_on "PURGE" (PDict [("age", stored_age_item "72" "72")]))).
  - constructor.
  - reflexivity.
  - reflexivity.
  - discriminate.
Defined.

End CacheReadFacts.

(* ================================================================== *)
(** ** Registered interests *)

Module InterestFacts.
Import DictFacts.

Lemma existsb_eqb_In c l : existsb (String.eqb c) l = true <-> In c l.
Proof.
  rewrite existsb_exists. split.
  - intros (x & Hx & E). apply String.eqb_eq in E. subst. exact Hx.
  - intros H. exists c. split; [exact H|apply String.eqb_refl].
Qed.

Lemma in_set_add c x l : In c (set_add x l) <-> c = x \/ In c l.
Proof.
  unfold set_add. destruct (existsb (String.eqb x) l) eqn:E.
  - apply existsb_eqb_In in E. split; [auto|]. intros [->|H]; assumption.
  - rewrite in_app_iff. simpl. intuition.
Qed.

Lemma in_set_discard c x l : In c (set_discard x l) <-> c <> x /\ In c l.
Proof.
  unfold set_discard. rewrite filter_In. split.
  - intros (H & N). split; [|exact H]. intros ->. rewrite String.eqb_refl in N. discriminate.
  - intros (N & H). split; [exact H|]. destruct (String.eqb_spec x c); [subst; contradiction|reflexivity].
Qed.

Lemma registered_callbacks_of s name c :
  registered s name c <-> In c (ManagerSpec.callbacks_of s name).
Proof.
  unfold registered, ManagerSpec.callbacks_of.
  destruct (Dict.get name (_registered_interests s)) as [l|].
  - split; [|intros H; exists l; auto]. intros (l' & E & H). injection E as <-. exact H.
  - split; [|intros []]. intros (l' & E & _). discriminate.
Qed.

Section Register.
Context {B : Builtins}.

End Register.

(** X5. [unregister_interest] removes the callback from the category and
    no other registration; a category is left without an empty set of
    callbacks: its key is deleted with the last one. A callback that is
    not registered leaves the manager as it is. *)
Theorem unregister_interest_unregisters (name cb : string) (s : State) :
  NoDup (Dict.keys (_registered_interests s)) ->
  exists s1,
    unregister_interest (Some name) (Some cb) s = (Return tt, s1)
    /\ ~ registered s1 name cb
    /\ (forall n c, n <> name \/ c <> cb -> (registered s1 n c <-> registered s n c))
    /\ (registered s name cb -> Dict.get name (_registered_interests s1) <> Some [])
    /\ (~ registered s name cb -> s1 = s).
Proof.
  intros Hn. unfold unregister_interest, bindM, gets, modify, ret. cbv beta iota.
  destruct (Dict.get name (_registered_interests s)) as [l|] eqn:G.
  2:{ exists s. split; [reflexivity|]. split.
      { intros (l & E & _). congruence. }
      split; [tauto|]. split; [|reflexivity]. intros (l & E & _). congruence. }
  destruct (existsb (String.eqb cb) l) eqn:Ex.
  2:{ exists s. split; [reflexivity|].
      assert (N : ~ registered s name cb).
      { intros (l' & E & H). rewrite G in E. injection E as <-.
        apply existsb_eqb_In in H. congruence. }
      split; [exact N|]. split; [tauto|]. split; [|reflexivity]. intros H. contradiction. }
  apply existsb_eqb_In in Ex.
  destruct (Nat.eqb_spec (List.length (set_discard cb l)) 0) as [Z|Z].
  - exists (with_interests (Dict.pop name (_registered_interests s)) s).
    assert (P : Dict.get name (Dict.pop name (_registered_interests s)) = None).
    { apply get_none_not_in. apply not_in_pop. exact Hn. }
    split; [reflexivity|]. unfold registered. cbn [_registered_interests with_interests].
    split; [intros (l' & E & _); congruence|]. split; [|split].
    + intros n c [N|N].
      * rewrite get_pop_other by exact N. reflexivity.
      * destruct (String.eqb_spec n name) as [->|N'].
        -- rewrite P, G. split; [intros (l' & E & _); discriminate|].
           intros (l' & E & H). injection E as <-. exfalso.
           assert (In c (set_discard cb l)) by (apply in_set_discard; auto).
           destruct (set_discard cb l); [contradiction|discriminate].
        -- rewrite get_pop_other by exact N'. reflexivity.
    + intros _. rewrite P. discriminate.
    + intros N. exfalso. apply N. exists l. auto.
  - exists (with_interests (Dict.set name (set_discard cb l) (_registered_interests s)) s).
    split; [reflexivity|]. unfold registered. cbn [_registered_interests with_interests].
    split; [|split; [|split]].
    + rewrite get_set_same. intros (l' & E & H). injection E as <-.
      apply in_set_discard in H. destruct H as [H _]. apply H. reflexivity.
    + intros n c N. destruct (String.eqb_spec n name) as [->|N'].
      * rewrite get_set_same, G. destruct N as [N|N]; [contradiction|]. split.
        -- intros (l' & E & H). injection E as <-. apply in_set_discard in H.
           exists l. split; [reflexivity|apply H].
        -- intros (l' & E & H). injection E as <-. exists (set_discard cb l).
           split; [reflexivity|]. apply in_set_discard. auto.
      * rewrite get_set_other by exact N'. reflexivity.
    + intros _. rewrite get_set_same. intros E. injection E as E. rewrite E in Z.
      apply Z. reflexivity.
    + intros N. exfalso. apply N. exists l. auto.
Qed.

Lemma unregister_interest_unregisters_one_of_two :
  exists s1,
    unregister_interest (Some "PURGE") (Some "foglamp.purge")
      (with_interests [("PURGE", ["foglamp.purge"; "foglamp.stats"])] Example.empty)
    = (Return tt, s1)
    /\ ~ registered s1 "PURGE" "foglamp.purge"
    /\ (forall n c, n <> "PURGE" \/ c <> "foglamp.purge" ->
          (registered s1 n c
           <-> registered
                 (with_interests [("PURGE", ["foglamp.purge"; "foglamp.stats"])] Example.empty)
                 n c))
    /\ (registered
          (with_interests [("PURGE", ["foglamp.purge"; "foglamp.stats"])] Example.empty)
          "PURGE" "foglamp.purge" ->
        Dict.get "PURGE" (_registered_interests s1) <> Some [])
    /\ (~ registered
            (with_interests [("PURGE", ["foglamp.purge"; "foglamp.stats"])] Example.empty)
            "PURGE" "foglamp.purge" ->
        s1 = with_interests [("PURGE", ["foglamp.purge"; "foglamp.stats"])] Example.empty).
Proof.
  apply (unregister_interest_unregisters "PURGE" "foglamp.purge"
           (with_interests [("PURGE", ["foglamp.purge"; "foglamp.stats"])] Example.empty)).
  cbn. repeat constructor. intros [].
Defined.

End InterestFacts.

(* ================================================================== *)
(** ** Parent-child relations *)

Module ChildFacts.
Import DictFacts TreeSpec ChildSpec.

Lemma read_existing name s :
  category_exists s name ->
  exists v, _read_category_val name s = (Return v, s) /\ Py.is_None v = false.
Proof.
  intros (row & G & N). unfold _read_category_val, bindM, gets, ret. cbv beta iota.
  rewrite G. exists (row_value row). split; [reflexivity|].
  destruct (row_value row); try reflexivity. contradiction.
Qed.

Lemma read_missing name s :
  ~ category_exists s name ->
  _read_category_val name s = (Return PNone, s).
Proof.
  intros N. unfold _read_category_val, bindM, gets, ret. cbv beta iota.
  destruct (Dict.get name (configuration s)) as [row|] eqn:G; [|reflexivity].
  destruct (row_value row) eqn:V; try reflexivity;
    exfalso; apply N; exists row; (split; [exact G|]); rewrite V; discriminate.
Qed.

Lemma child_eqb_eq a b : child_eqb a b = true <-> a = b.
Proof.
  destruct a as [p c], b as [p' c']. unfold child_eqb. simpl.
  rewrite andb_true_iff, !String.eqb_eq. split; [intros [-> ->]; reflexivity|].
  intros E. injection E as -> ->. auto.
Qed.

Lemma existsb_child_false pc t :
  ~ In pc t -> existsb (child_eqb pc) t = false.
Proof.
  intros N. destruct (existsb (child_eqb pc) t) eqn:E; [|reflexivity].
  apply existsb_exists in E. destruct E as (x & Hx & E). apply child_eqb_eq in E.
  subst. contradiction.
Qed.

Lemma check_children_exist_ok children s :
  (forall c, In c children -> category_exists s c) ->
  check_children_exist children s = (Return tt, s).
Proof.
  induction children as [|c r IH]; intros H; [reflexivity|].
  cbn [check_children_exist]. unfold bindM at 1.
  destruct (read_existing c s) as (v & -> & Nv); [apply H; left; reflexivity|].
  rewrite Nv. apply IH. intros c' Hc'. apply H. right. exact Hc'.
Qed.

Lemma check_children_exist_missing children s :
  (exists c, In c children /\ ~ category_exists s c) ->
  check_children_exist children s = (Raise (ValueError "No such child exist"), s).
Proof.
  induction children as [|c r IH]; intros (x & Hx & N); [contradiction|].
  cbn [check_children_exist]. unfold bindM at 1.
  destruct (Dict.get c (configuration s)) as [row|] eqn:G.
  - destruct (row_value row) eqn:V.
    + unfold _read_category_val, bindM, gets, ret. cbv beta iota. rewrite G, V. reflexivity.
    + destruct (read_existing c s) as (v & -> & ->);
        [exists row; split; [exact G|rewrite V; discriminate]|].
      apply IH. destruct Hx as [->|Hx]; [|eauto].
      exfalso. apply N. exists row. split; [exact G|rewrite V; discriminate].
    + destruct (read_existing c s) as (v & -> & ->);
        [exists row; split; [exact G|rewrite V; discriminate]|].
      apply IH. destruct Hx as [->|Hx]; [|eauto].
      exfalso. apply N. exists row. split; [exact G|rewrite V; discriminate].
    + destruct (read_existing c s) as (v & -> & ->);
        [exists row; split; [exact G|rewrite V; discriminate]|].
      apply IH. destruct Hx as [->|Hx]; [|eauto].
      exfalso. apply N. exists row. split; [exact G|rewrite V; discriminate].
  - unfold _read_category_val, bindM, gets, ret. cbv beta iota. rewrite G. reflexivity.
Qed.

(** The state after the rows [(name, c)] are inserted. *)
Lemma create_children_spec name : forall new s,
  NoDup new ->
  (forall c, In c new -> ~ In (name, c) (category_children s)) ->
  create_children name new s
  = (Return tt,
     with_children (category_children s ++ map (fun c => (name, c)) new)
       (with_writes (storage_writes s ++ map (InsertChild name) new) s)).
Proof.
  induction new as [|c r IH]; intros s Hn Hf.
  - cbn. rewrite !app_nil_r. destruct s; reflexivity.
  - cbn [create_children]. unfold bindM at 1.
    unfold _create_child, bindM, gets, log_write, modify, raise. cbv beta iota.
    rewrite existsb_child_false by (apply Hf; left; reflexivity).
    inversion Hn as [|? ? Hc Hr]; subst.
    rewrite IH.
    + cbn [category_children with_children with_writes storage_writes map].
      unfold with_children, with_writes. cbn. rewrite <- !app_assoc. reflexivity.
    + exact Hr.
    + intros c' Hc' Hin. cbn [category_children with_children with_writes] in Hin.
      apply in_app_or in Hin. destruct Hin as [Hin|[E|[]]].
      * apply (Hf c'); [right; exact Hc'|exact Hin].
      * injection E as <-. contradiction.
Qed.

Lemma in_diff v old children :
  In v (diff old children) <-> In v children /\ ~ In v old.
Proof.
  unfold diff. rewrite filter_In, negb_true_iff. split; intros (H & N); (split; [exact H|]).
  - intros Hin. apply InterestFacts.existsb_eqb_In in Hin. congruence.
  - destruct (existsb (String.eqb v) old) eqn:E; [|reflexivity].
    apply InterestFacts.existsb_eqb_In in E. contradiction.
Qed.

Lemma NoDup_filter (A : Type) (f : A -> bool) (l : list A) : NoDup l -> NoDup (filter f l).
Proof.
  induction 1 as [|x l Hx Hl IH]; simpl; [constructor|].
  destruct (f x); [constructor; [|exact IH]|exact IH].
  intros H. apply filter_In in H. apply Hx, H.
Qed.

Lemma filter_none (A : Type) (f : A -> bool) (l : list A) :
  (forall x, In x l -> f x = false) -> filter f l = [].
Proof.
  induction l as [|x l IH]; intros H; [reflexivity|]. simpl.
  rewrite (H x (or_introl eq_refl)). apply IH. intros y Hy. apply H. right. exact Hy.
Qed.

Lemma children_after_insert (name : string) (new : list string) (t : list (string * string)) :
  map snd (filter (fun pc => String.eqb (fst pc) name) (t ++ map (fun c => (name, c)) new))
  = map snd (filter (fun pc => String.eqb (fst pc) name) t) ++ new.
Proof.
  rewrite filter_app, map_app. f_equal.
  induction new as [|c r IH]; [reflexivity|]. simpl. rewrite String.eqb_refl. simpl.
  f_equal. exact IH.
Qed.

(** X6. [create_child_category] on categories that exist, with a list
    that names no child twice, links every requested child that is not
    yet a child of the parent, in the order given, and returns the
    children of the parent; the links that were there stay, nothing else
    is written, and a second call with the same list changes nothing. *)
Theorem create_child_category_links_children
    (name : string) (children : list string) (s : State) :
  category_exists s name ->
  (forall c, In c children -> category_exists s c) ->
  NoDup children ->
  exists s1,
    create_child_category name (PList children) s
    = (Return (_read_all_child_category_names name s ++ new_children name children s), s1)
    /\ category_children s1
       = category_children s ++ map (fun c => (name, c)) (new_children name children s)
    /\ storage_writes s1
       = storage_writes s ++ map (InsertChild name) (new_children name children s)
    /\ configuration s1 = configuration s
    /\ (forall c, In c children -> In (name, c) (category_children s1))
    /\ create_child_category name (PList children) s1
       = (Return (_read_all_child_category_names name s ++ new_children name children s), s1).
Proof.
  intros He Hc Hn. unfold new_children.
  set (old := _read_all_child_category_names name s).
  set (new := diff old children).
  assert (Nn : NoDup new) by (apply NoDup_filter; exact Hn).
  assert (Nf : forall c, In c new -> ~ In (name, c) (category_children s)).
  { intros c Hin Hin'. apply in_diff in Hin. apply (proj2 Hin).
    apply DeleteFacts.in_children. exact Hin'. }
  set (s1 := with_children (category_children s ++ map (fun c => (name, c)) new)
               (with_writes (storage_writes s ++ map (InsertChild name) new) s)).
  assert (First : create_child_category name (PList children) s = (Return (old ++ new), s1)).
  { unfold create_child_category. unfold bindM at 1.
    destruct (read_existing name s He) as (v & -> & ->).
    unfold bindM at 1. rewrite (check_children_exist_ok children s Hc).
    unfold bindM at 1. unfold gets at 1. cbv beta iota. fold old. fold new.
    unfold bindM. rewrite (create_children_spec name new s Nn Nf). reflexivity. }
  assert (Old1 : _read_all_child_category_names name s1 = old ++ new).
  { unfold _read_all_child_category_names, s1. cbn [category_children with_children].
    apply children_after_insert. }
  exists s1. split; [exact First|]. split; [reflexivity|]. split; [reflexivity|].
  split; [reflexivity|]. split.
  { intros c Hin. apply DeleteFacts.in_children. rewrite Old1. apply in_or_app.
    destruct (in_dec string_dec c old) as [I|I]; [left; exact I|].
    right. apply in_diff. auto. }
  assert (E1 : forall k, category_exists s k -> category_exists s1 k).
  { intros k H. exact H. }
  unfold create_child_category. unfold bindM at 1.
  destruct (read_existing name s1 (E1 _ He)) as (v & -> & ->).
  unfold bindM at 1. rewrite (check_children_exist_ok children s1 (fun c H => E1 c (Hc c H))).
  unfold bindM at 1. unfold gets at 1. cbv beta iota. rewrite Old1.
  assert (D : diff (old ++ new) children = []).
  { apply filter_none. intros c Hin. apply negb_false_iff.
    apply InterestFacts.existsb_eqb_In. apply in_or_app.
    destruct (in_dec string_dec c old) as [I|I]; [left; exact I|].
    right. apply in_diff. auto. }
  rewrite D. unfold bindM. cbn [create_children]. unfold ret. rewrite app_nil_r. reflexivity.
Qed.

Lemma family_exists k : In k ["A"; "B"; "C"; "D"] -> category_exists family k.
Proof.
  intros [<-|[<-|[<-|[<-|[]]]]]; eexists; (split; [reflexivity|discriminate]).
Defined.

Lemma create_child_category_links_children_family :
  exists s1,
    create_child_category "A" (PList ["C"; "D"]) family
    = (Return (_read_all_child_category_names "A" family
               ++ new_children "A" ["C"; "D"] family), s1)
    /\ category_children s1
       = category_children family
         ++ map (fun c => ("A", c)) (new_children "A" ["C"; "D"] family)
    /\ storage_writes s1
       = storage_writes family ++ map (InsertChild "A") (new_children "A" ["C"; "D"] family)
    /\ configuration s1 = configuration family
    /\ (forall c, In c ["C"; "D"] -> In ("A", c) (category_children s1))
    /\ create_child_category "A" (PList ["C"; "D"]) s1
       = (Return (_read_all_child_category_names "A" family
                  ++ new_children "A" ["C"; "D"] family), s1).
Proof.
  apply (create_child_category_links_children "A" ["C"; "D"] family).
  - apply family_exists. simpl. tauto.
  - intros c Hc. apply family_exists. simpl in *. tauto.
  - repeat (constructor; [simpl; intuition discriminate|]). constructor.
Defined.

(** X7. A category that does not exist takes part in no relation:
    [create_child_category], [delete_child_category],
    [delete_parent_category] and [get_category_child] raise [ValueError]
    for it, as parent or as child, and leave the manager as it was; a
    missing child is found before any of the other children is linked. *)
Theorem relations_of_missing_category_refused (name : string) (s : State) :
  ~ category_exists s name ->
  (forall children,
     create_child_category name (PList children) s
     = (Raise (ValueError "No such category exist"), s))
  /\ (forall parent children, category_exists s parent -> In name children ->
        create_child_category parent (PList children) s
        = (Raise (ValueError "No such child exist"), s))
  /\ (forall child,
        delete_child_category name child s
        = (Raise (ValueError "No such category exist"), s))
  /\ (forall parent, category_exists s parent ->
        delete_child_category parent name s
        = (Raise (ValueError "No such child exist"), s))
  /\ delete_parent_category name s = (Raise (ValueError "No such category exist"), s)
  /\ get_category_child name s = (Raise (ValueError "No such category exist"), s).
Proof.
  intros N. pose proof (read_missing name s N) as R.
  split; [|split; [|split; [|split; [|split]]]].
  - intros children. unfold create_child_category, bindM. rewrite R. reflexivity.
  - intros parent children He Hin. unfold create_child_category. unfold bindM at 1.
    destruct (read_existing parent s He) as (v & -> & ->).
    unfold bindM. rewrite check_children_exist_missing by eauto. reflexivity.
  - intros child. unfold delete_child_category, bindM. rewrite R. reflexivity.
  - intros parent He. unfold delete_child_category. unfold bindM at 1.
    destruct (read_existing parent s He) as (v & -> & ->).
    unfold bindM. rewrite R. reflexivity.
  - unfold delete_parent_category, bindM. rewrite R. reflexivity.
  - unfold get_category_child, bindM. rewrite R. reflexivity.
Qed.

Lemma relations_of_missing_category_refused_family :
  (forall children,
     create_child_category "E" (PList children) family
     = (Raise (ValueError "No such category exist"), family))
  /\ (forall parent children, category_exists family parent -> In "E" children ->
        create_child_category parent (PList children) family
        = (Raise (ValueError "No such child exist"), family))
  /\ (forall child,
        delete_child_category "E" child family
        = (Raise (ValueError "No such category exist"), family))
  /\ (forall parent, category_exists family parent ->
        delete_child_category parent "E" family
        = (Raise (ValueError "No such child exist"), family))
  /\ delete_parent_category "E" family
     = (Raise (ValueError "No such category exist"), family)
  /\ get_category_child "E" family
     = (Raise (ValueError "No such category exist"), family).
Proof.
  apply (relations_of_missing_category_refused "E" family).
  intros (row & G & _). discriminate G.
Defined.

Lemma children_after_delete (name child : string) (t : list (string * string)) :
  map snd (filter (fun pc => String.eqb (fst pc) name)
             (filter (fun pc => negb (child_eqb pc (name, child))) t))
  = filter (fun c => negb (String.eqb c child))
      (map snd (filter (fun pc => String.eqb (fst pc) name) t)).
Proof.
  induction t as [|[p c] t IH]; [reflexivity|]. unfold child_eqb in *. cbn [filter fst snd].
  destruct (String.eqb_spec p name) as [->|N].
  - cbn [andb map snd filter]. destruct (String.eqb c child); cbn [negb].
    + exact IH.
    + cbn [filter fst]. rewrite String.eqb_refl. cbn [map snd]. f_equal. exact IH.
  - cbn [andb negb filter fst]. destruct (String.eqb_spec p name); [contradiction|]. exact IH.
Qed.

Lemma children_of_other_after_delete (name child p : string) (t : list (string * string)) :
  p <> name ->
  filter (fun pc => String.eqb (fst pc) p)
    (filter (fun pc => negb (child_eqb pc (name, child))) t)
  = filter (fun pc => String.eqb (fst pc) p) t.
Proof.
  intros N. induction t as [|[q c] t IH]; [reflexivity|]. unfold child_eqb in *.
  cbn [filter fst snd]. destruct (String.eqb_spec q name) as [->|Nq].
  - cbn [andb]. destruct (String.eqb_spec name p) as [E|_]; [subst; contradiction|].
    destruct (String.eqb c child); cbn [negb filter fst].
    + exact IH.
    + destruct (String.eqb_spec name p) as [E|_]; [subst; contradiction|]. exact IH.
  - cbn [andb negb filter fst]. destruct (String.eqb q p); [f_equal|]; exact IH.
Qed.

(** X8. [delete_child_category] on two categories that exist removes the
    one link between them and nothing else, and returns the children the
    parent is left with; a pair that is not linked is no error. The
    children of every other parent and the categories stay as they are. *)
Theorem delete_child_category_unlinks (name child : string) (s : State) :
  category_exists s name ->
  category_exists s child ->
  exists s1,
    delete_child_category name child s
    = (Return (filter (fun c => negb (String.eqb c child))
                 (_read_all_child_category_names name s)), s1)
    /\ (forall p c, In (p, c) (category_children s1)
                    <-> In (p, c) (category_children s) /\ (p, c) <> (name, child))
    /\ (forall p, p <> name ->
          _read_all_child_category_names p s1 = _read_all_child_category_names p s)
    /\ configuration s1 = configuration s
    /\ storage_writes s1 = storage_writes s ++ [DeleteChild name child].
Proof.
  intros He Hc. unfold delete_child_category. unfold bindM at 1.
  destruct (read_existing name s He) as (v & -> & ->).
  unfold bindM at 1. destruct (read_existing child s Hc) as (v' & -> & ->).
  unfold delete_child, bindM, log_write, modify, gets. cbv beta iota.
  eexists. split.
  { unfold _read_all_child_category_names. cbn [category_children with_children with_writes].
    rewrite children_after_delete. reflexivity. }
  cbn [category_children with_children with_writes configuration storage_writes].
  split; [|split; [|split; reflexivity]].
  - intros p c. rewrite filter_In, negb_true_iff. split.
    + intros (H & E). split; [exact H|]. intros X. rewrite X in E.
      assert (T : child_eqb (name, child) (name, child) = true) by (apply child_eqb_eq; reflexivity).
      congruence.
    + intros (H & N). split; [exact H|].
      destruct (child_eqb (p, c) (name, child)) eqn:E; [|reflexivity].
      apply child_eqb_eq in E. contradiction.
  - intros p N. unfold _read_all_child_category_names.
    cbn [category_children with_children with_writes].
    rewrite children_of_other_after_delete by exact N. reflexivity.
Qed.

Lemma delete_child_category_unlinks_family :
  exists s1,
    delete_child_category "A" "C" family
    = (Return (filter (fun c => negb (String.eqb c "C"))
                 (_read_all_child_category_names "A" family)), s1)
    /\ (forall p c, In (p, c) (category_children s1)
                    <-> In (p, c) (category_children family) /\ (p, c) <> ("A", "C"))
    /\ (forall p, p <> "A" ->
          _read_all_child_category_names p s1 = _read_all_child_category_names p family)
    /\ configuration s1 = configuration family
    /\ storage_writes s1 = storage_writes family ++ [DeleteChild "A" "C"].
Proof.
  apply (delete_child_category_unlinks "A" "C" family); apply family_exists; simpl; tauto.
Defined.

(** X9. [delete_parent_category] on a category that exists removes every
    link from it to a child and no other link; afterwards
    [get_category_child] returns no children for it and
    [_fetch_descendents] finds no descendants. The categories themselves
    stay. *)
Theorem delete_parent_category_unlinks_all (name : string) (s : State) :
  category_exists s name ->
  exists s1,
    delete_parent_category name s = (Return tt, s1)
    /\ (forall p c, In (p, c) (category_children s1)
                    <-> In (p, c) (category_children s) /\ p <> name)
    /\ configuration s1 = configuration s
    /\ storage_writes s1 = storage_writes s ++ [DeleteChildrenWhereParent name]
    /\ get_category_child name s1 = (Return [], s1)
    /\ (forall fuel, _fetch_descendents (S fuel) s1 name = Some []).
Proof.
  intros He. unfold delete_parent_category. unfold bindM at 1.
  destruct (read_existing name s He) as (v & -> & ->).
  unfold delete_children_where_parent, bindM, log_write, modify. cbv beta iota.
  eexists. split; [reflexivity|].
  cbn [category_children with_children with_writes configuration storage_writes].
  assert (In1 : forall p c,
            In (p, c) (filter (fun pc => negb (String.eqb (fst pc) name)) (category_children s))
            <-> In (p, c) (category_children s) /\ p <> name).
  { intros p c. rewrite filter_In, negb_true_iff. cbn [fst].
    destruct (String.eqb_spec p name); intuition congruence. }
  assert (No : _read_all_child_category_names name
                 (with_children
                    (filter (fun pc => negb (String.eqb (fst pc) name)) (category_children s))
                    (with_writes (storage_writes s ++ [DeleteChildrenWhereParent name]) s))
               = []).
  { destruct (_read_all_child_category_names name _) as [|c r] eqn:E; [reflexivity|].
    exfalso. assert (H : In c (c :: r)) by (left; reflexivity). rewrite <- E in H.
    apply DeleteFacts.in_children in H. cbn [category_children with_children] in H.
    apply In1 in H. apply (proj2 H). reflexivity. }
  split; [exact In1|]. split; [reflexivity|]. split; [reflexivity|]. split.
  - unfold get_category_child. unfold bindM at 1.
    match goal with |- context [_read_category_val name ?st] =>
      destruct (read_existing name st He) as (v' & -> & ->) end.
    unfold bindM, gets. cbv beta iota. rewrite No. reflexivity.
  - intros fuel. rewrite DeleteFacts.fetch_unfold, No. reflexivity.
Qed.

Lemma delete_parent_category_unlinks_all_family :
  exists s1,
    delete_parent_category "A" family = (Return tt, s1)
    /\ (forall p c, In (p, c) (category_children s1)
                    <-> In (p, c) (category_children family) /\ p <> "A")
    /\ configuration s1 = configuration family
    /\ storage_writes s1 = storage_writes family ++ [DeleteChildrenWhereParent "A"]
    /\ get_category_child "A" s1 = (Return [], s1)
    /\ (forall fuel, _fetch_descendents (S fuel) s1 "A" = Some []).
Proof.
  apply (delete_parent_category_unlinks_all "A" family). apply family_exists. simpl. tauto.
Defined.

Lemma read_child_info_keys s : forall children,
  map (fun x => fst (fst x)) (_read_child_info children s)
  = filter (fun k => Dict.mem k (configuration s)) children.
Proof.
  induction children as [|c r IH]; [reflexivity|]. unfold _read_child_info in *.
  cbn [flat_map filter]. unfold Dict.mem. rewrite map_app, IH.
  destruct (Dict.get c (configuration s)); reflexivity.
Qed.

(** X10. [get_category_child] of a category that exists reads only: it
    lists, in the order of the table, the children that have a row in
    [configuration], each with the description and the display name of
    its row; a child without a row is left out. *)
Theorem get_category_child_lists_stored_children (name : string) (s : State) :
  category_exists s name ->
  exists l,
    get_category_child name s = (Return l, s)
    /\ (forall k d n,
          In (k, d, n) l
          <-> In (name, k) (category_children s)
              /\ exists row, Dict.get k (configuration s) = Some row
                             /\ d = row_description row /\ n = row_display_name row)
    /\ map (fun x => fst (fst x)) l
       = filter (fun k => Dict.mem k (configuration s))
           (_read_all_child_category_names name s).
Proof.
  intros He. unfold get_category_child. unfold bindM at 1.
  destruct (read_existing name s He) as (v & -> & ->).
  unfold bindM, gets. cbv beta iota. eexists. split; [reflexivity|].
  split; [|apply read_child_info_keys].
  intros k d n. unfold _read_child_info. rewrite in_flat_map. split.
  - intros (c & Hc & Hin). apply DeleteFacts.in_children in Hc.
    destruct (Dict.get c (configuration s)) as [row|] eqn:G; [|contradiction].
    destruct Hin as [E|[]]. injection E as <- <- <-. split; [exact Hc|].
    exists row. auto.
  - intros (Hc & row & G & -> & ->). exists k. split; [apply DeleteFacts.in_children, Hc|].
    rewrite G. left. reflexivity.
Qed.

Lemma get_category_child_lists_stored_children_family :
  exists l,
    get_category_child "A" family = (Return l, family)
    /\ (forall k d n,
          In (k, d, n) l
          <-> In ("A", k) (category_children family)
              /\ exists row, Dict.get k (configuration family) = Some row
                             /\ d = row_description row /\ n = row_display_name row)
    /\ map (fun x => fst (fst x)) l
       = filter (fun k => Dict.mem k (configuration family))
           (_read_all_child_category_names "A" family).
Proof.
  apply (get_category_child_lists_stored_children "A" family).
  apply family_exists. simpl. tauto.
Defined.

End ChildFacts.

(* ================================================================== *)
(** ** The tree below a category *)

Module TreeFacts.
Import DictFacts TreeSpec ChildSpec.

Lemma fetch_sound s : forall fuel cat ds,
  _fetch_descendents fuel s cat = Some ds ->
  forall d, In d ds -> descends s cat d.
Proof.
  induction fuel as [|fuel IH]; intros cat ds Hf d Hd; [discriminate|].
  rewrite DeleteFacts.fetch_unfold in Hf.
  assert (Hc : forall c, In c (_read_all_child_category_names cat s) ->
                         In (cat, c) (category_children s)).
  { intros c Hc. apply DeleteFacts.in_children, Hc. }
  revert ds Hf Hd. induction (_read_all_child_category_names cat s) as [|c r IHr];
    intros ds Hf Hd; simpl in Hf.
  - injection Hf as <-. contradiction.
  - destruct (_fetch_descendents fuel s c) as [dc|] eqn:Ec; [|discriminate].
    destruct (fetch_loop (_fetch_descendents fuel s) r) as [dr|] eqn:Er; [|discriminate].
    injection Hf as <-. destruct Hd as [<-|Hd].
    + apply descends_child. apply Hc. left. reflexivity.
    + apply in_app_or in Hd. destruct Hd as [Hd|Hd].
      * eapply descends_step; [apply Hc; left; reflexivity|]. eapply IH; eassumption.
      * apply (IHr (fun c' H => Hc c' (or_intror H)) dr); [reflexivity|exact Hd].
Qed.

(** X11. On a table of children without a cycle [_fetch_descendents]
    returns, and the names it returns are exactly the descendants of the
    category: its children, their children, and so on; the category
    itself is not among them. *)
Theorem fetch_descendents_are_the_descendants
    (rank : string -> nat) (fuel : nat) (cat : string) (s : State) :
  ranked rank s ->
  rank cat < fuel ->
  exists ds,
    _fetch_descendents fuel s cat = Some ds
    /\ (forall d, In d ds <-> descends s cat d)
    /\ ~ In cat ds.
Proof.
  intros R Hr. destruct (DeleteFacts.fetch_total rank s R fuel cat Hr) as (ds & Hds).
  exists ds. split; [exact Hds|]. split.
  - intros d. split; [eapply fetch_sound; eassumption|eapply DeleteFacts.fetch_complete; eassumption].
  - intros Hin. apply (fetch_sound s fuel cat ds Hds) in Hin.
    assert (L : forall p d, descends s p d -> rank d < rank p).
    { induction 1 as [p c H|p c d H _ IH].
      - apply R, H.
      - apply R in H. lia. }
    apply L in Hin. lia.
Qed.

Lemma family_ranked : ranked family_rank family.
Proof.
  intros p c [H|[H|[H|[]]]]; injection H as <- <-; vm_compute; lia.
Defined.

Lemma fetch_descendents_are_the_descendants_family :
  exists ds,
    _fetch_descendents 3 family "A" = Some ds
    /\ (forall d, In d ds <-> descends family "A" d)
    /\ ~ In "A" ds.
Proof.
  apply (fetch_descendents_are_the_descendants family_rank 3 "A" family).
  - exact family_ranked.
  - vm_compute. lia.
Defined.

Lemma descends_incl s1 s :
  incl (category_children s1) (category_children s) ->
  forall p d, descends s1 p d -> descends s p d.
Proof.
  intros I p d H. induction H as [p c H|p c d H _ IH].
  - apply descends_child, I, H.
  - eapply descends_step; [apply I, H|exact IH].
Qed.

Lemma filter_all (A : Type) (l : list A) : filter (fun _ => true) l = l.
Proof. induction l as [|x l IH]; simpl; [|rewrite IH]; reflexivity. Qed.

Lemma filter_filter (A : Type) (f g : A -> bool) (l : list A) :
  filter g (filter f l) = filter (fun x => f x && g x) l.
Proof.
  induction l as [|x l IH]; [reflexivity|]. simpl. destruct (f x); simpl; [|exact IH].
  destruct (g x); [f_equal|]; exact IH.
Qed.

Lemma filter_ext_eq (A : Type) (f g : A -> bool) (l : list A) :
  (forall x, f x = g x) -> filter f l = filter g l.
Proof. intros E. induction l as [|x l IH]; simpl; [|rewrite E, IH]; reflexivity. Qed.

Lemma get_pop_same (V : Type) k (d : Dict.t V) :
  NoDup (Dict.keys d) -> Dict.get k (Dict.pop k d) = None.
Proof. intros H. apply get_none_not_in, not_in_pop, H. Qed.

Section DeleteSubtree.
Variables (rank : string -> nat) (s0 : State).
Hypothesis R : ranked rank s0.

Lemma delete_recursively_deletes : forall fuel cat s,
  rank cat < fuel ->
  incl (category_children s) (category_children s0) ->
  NoDup (Dict.keys (configuration s)) ->
  exists s' D,
    _delete_recursively fuel cat s = Some (Return tt, s')
    /\ In cat D
    /\ (forall d, In d D -> d = cat \/ descends s cat d)
    /\ deleted_by D s s'.
Proof.
  induction fuel as [|fuel IH]; intros cat s Hr Hi Hn; [lia|].
  rewrite DeleteFacts.delete_unfold.
  assert (Hc : forall c, In c (_read_all_child_category_names cat s) ->
                         In (cat, c) (category_children s)).
  { intros c Hc. apply DeleteFacts.in_children, Hc. }
  assert (Hc' : forall c, In (cat, c) (category_children s) ->
                          In c (_read_all_child_category_names cat s)).
  { intros c H. apply DeleteFacts.in_children, H. }
  assert (L : exists s1 D,
             delete_loop (_delete_recursively fuel)
               (_read_all_child_category_names cat s) s = Some (Return tt, s1)
             /\ (forall c, In c (_read_all_child_category_names cat s) -> In c D)
             /\ (forall d, In d D ->
                   exists c, In c (_read_all_child_category_names cat s)
                             /\ (d = c \/ descends s c d))
             /\ deleted_by D s s1).
  { assert (Hk : forall c, In c (_read_all_child_category_names cat s) -> rank c < fuel).
    { intros c H. apply Hc, Hi, R in H. lia. }
    clear Hc Hc'. revert Hk Hi Hn.
    generalize (_read_all_child_category_names cat s) as children.
    intros children. revert s.
    induction children as [|c r IHr]; intros s Hk Hi Hn.
    - exists s, []. split; [reflexivity|]. split; [intros c []|]. split; [intros d []|].
      split; [intros d x []|]. split; [|split; [reflexivity|exact Hn]].
      cbn [existsb negb]. symmetry. apply filter_all.
    - cbn [delete_loop].
      destruct (IH c s) as (s1 & D1 & E1 & In1 & Sd1 & Cl1 & Ch1 & Cf1 & Nd1);
        [apply Hk; left; reflexivity|exact Hi|exact Hn|].
      rewrite E1.
      assert (I1 : incl (category_children s1) (category_children s)).
      { rewrite Ch1. intros x Hx. apply filter_In in Hx. apply Hx. }
      destruct (IHr s1) as (s2 & D2 & E2 & In2 & Sd2 & Cl2 & Ch2 & Cf2 & Nd2).
      { intros c' Hc'. apply Hk. right. exact Hc'. }
      { intros x Hx. apply Hi, I1, Hx. }
      { exact Nd1. }
      exists s2, (D1 ++ D2). split; [exact E2|]. split; [|split; [|split; [|split; [|split]]]].
      + intros c' [<-|Hc']; apply in_or_app; [left; exact In1|right; apply In2, Hc'].
      + intros d Hd. apply in_app_or in Hd. destruct Hd as [Hd|Hd].
        * exists c. split; [left; reflexivity|]. apply Sd1, Hd.
        * destruct (Sd2 d Hd) as (c' & Hc' & [->|Hdesc]).
          -- exists c'. split; [right; exact Hc'|left; reflexivity].
          -- exists c'. split; [right; exact Hc'|right]. eapply descends_incl; eassumption.
      + intros d x Hd Hx. apply in_or_app. apply in_app_or in Hd. destruct Hd as [Hd|Hd].
        * left. eapply Cl1; eassumption.
        * destruct (existsb (String.eqb x) D1) eqn:Ex.
          -- left. apply InterestFacts.existsb_eqb_In, Ex.
          -- right. apply (Cl2 d x Hd). rewrite Ch1. apply filter_In. split; [exact Hx|].
             cbn [snd]. rewrite Ex. reflexivity.
      + rewrite Ch2, Ch1, filter_filter. apply filter_ext_eq. intros pc.
        rewrite existsb_app, negb_orb. reflexivity.
      + intros k. rewrite Cf2, Cf1, existsb_app.
        destruct (existsb (String.eqb k) D1), (existsb (String.eqb k) D2); reflexivity.
      + exact Nd2. }
  destruct L as (s1 & D & -> & InD & SdD & Cl & Ch & Cf & Nd).
  destruct (DeleteFacts.delete_one_spec cat s1) as (s' & -> & Hcfg & Hch).
  exists s', (cat :: D). split; [reflexivity|]. split; [left; reflexivity|].
  split; [|split; [|split; [|split]]].
  - intros d [<-|Hd]; [left; reflexivity|right].
    destruct (SdD d Hd) as (c & Hc1 & [->|Hdesc]).
    + apply descends_child, Hc, Hc1.
    + eapply descends_step; [apply Hc, Hc1|exact Hdesc].
  - intros d x [<-|Hd] Hx; right.
    + apply InD, Hc', Hx.
    + eapply Cl; eassumption.
  - rewrite Hch, Ch, filter_filter. apply filter_ext_eq. intros pc.
    cbn [existsb]. rewrite negb_orb. apply andb_comm.
  - intros k. rewrite Hcfg. cbn [existsb]. destruct (String.eqb_spec k cat) as [->|N].
    + cbn [orb]. apply get_pop_same, Nd.
    + cbn [orb]. rewrite get_pop_other by exact N. apply Cf.
  - rewrite Hcfg. apply NoDup_pop, Nd.
Qed.
End DeleteSubtree.

(** X12. On a table of children without a cycle
    [delete_category_and_children_recursively] of a category that exists
    and has no reserved descendant returns, and then the category and all
    its descendants are gone from [configuration], no link to any of them
    is left in [category_children], and every other category and every
    other link is as before. *)
Theorem recursive_delete_removes_the_subtree
    (rank : string -> nat) (fuel : nat) (name : string) (s : State) :
  ranked rank s ->
  rank name < fuel ->
  NoDup (Dict.keys (configuration s)) ->
  category_exists s name ->
  (forall c, In c RESERVED_CATG -> ~ descends s name c) ->
  exists s',
    delete_category_and_children_recursively fuel name s = Some (Return tt, s')
    /\ Dict.get name (configuration s') = None
    /\ (forall d, descends s name d -> Dict.get d (configuration s') = None)
    /\ (forall k, k <> name -> ~ descends s name k ->
          Dict.get k (configuration s') = Dict.get k (configuration s))
    /\ (forall p c, In (p, c) (category_children s')
                    <-> In (p, c) (category_children s)
                        /\ c <> name /\ ~ descends s name c).
Proof.
  intros R Hr Hn He Hres. unfold delete_category_and_children_recursively.
  destruct (ChildFacts.read_existing name s He) as (v & -> & ->).
  destruct (DeleteFacts.fetch_total rank s R fuel name Hr) as [ds Hds]. rewrite Hds.
  assert (G : existsb (fun catg => existsb (String.eqb catg) ds) RESERVED_CATG = false).
  { destruct (existsb _ RESERVED_CATG) eqn:G; [|reflexivity].
    apply DeleteFacts.reserved_guard in G. destruct G as (c & Hc & Hin).
    exfalso. apply (Hres c Hc). eapply fetch_sound; eassumption. }
  rewrite G.
  destruct (delete_recursively_deletes rank s R fuel name s Hr (incl_refl _) Hn)
    as (s' & D & -> & InD & Sd & Cl & Ch & Cf & _).
  assert (Desc : forall p d, descends s p d -> In p D -> In d D).
  { induction 1 as [p c H|p c d H _ IH]; intros Hp.
    - eapply Cl; eassumption.
    - apply IH. eapply Cl; eassumption. }
  assert (Out : forall k, k <> name -> ~ descends s name k ->
                          existsb (String.eqb k) D = false).
  { intros k N Nd. destruct (existsb (String.eqb k) D) eqn:E; [|reflexivity].
    apply InterestFacts.existsb_eqb_In in E. destruct (Sd k E); contradiction. }
  assert (Inn : forall k, In k D -> existsb (String.eqb k) D = true).
  { intros k H. apply InterestFacts.existsb_eqb_In, H. }
  exists s'. split; [reflexivity|]. split; [|split; [|split]].
  - rewrite Cf, Inn by exact InD. reflexivity.
  - intros d Hd. rewrite Cf, Inn; [reflexivity|]. eapply Desc; eassumption.
  - intros k N Nd. rewrite Cf, Out by assumption. reflexivity.
  - intros p c. rewrite Ch, filter_In, negb_true_iff. cbn [snd]. split.
    + intros (H & E). split; [exact H|]. split.
      * intros ->. rewrite Inn in E by exact InD. discriminate.
      * intros Hd. rewrite Inn in E; [discriminate|]. eapply Desc; eassumption.
    + intros (H & N & Nd). split; [exact H|]. apply Out; assumption.
Qed.

Lemma recursive_delete_removes_the_subtree_family :
  exists s',
    delete_category_and_children_recursively 3 "A" family = Some (Return tt, s')
    /\ Dict.get "A" (configuration s') = None
    /\ (forall d, descends family "A" d -> Dict.get d (configuration s') = None)
    /\ (forall k, k <> "A" -> ~ descends family "A" k ->
          Dict.get k (configuration s') = Dict.get k (configuration family))
    /\ (forall p c, In (p, c) (category_children s')
                    <-> In (p, c) (category_children family)
                        /\ c <> "A" /\ ~ descends family "A" c).
Proof.
  apply (recursive_delete_removes_the_subtree family_rank 3 "A" family).
  - exact family_ranked.
  - vm_compute. lia.
  - cbn. repeat (constructor; [simpl; intuition discriminate|]). constructor.
  - eexists. split; [reflexivity|discriminate].
  - intros c Hc Hd.
    apply (DeleteFacts.fetch_complete family 3 "A" ["B"; "C"; "C"] eq_refl) in Hd.
    simpl in Hc, Hd. intuition (subst; discriminate).
Defined.

End TreeFacts.

(* ================================================================== *)
(** ** Setting the value of an item *)

Module SetItemFacts.
Import DictFacts ManagerSpec CacheSpec Example.

Ltac fields :=
  cbn [configuration category_children cache cache_hit cache_miss _registered_interests
       audit_log storage_writes callback_log clock
       with_configuration with_children with_cache with_hit_miss with_audit with_writes
       with_callbacks with_clock with_interests
       date_accessed value displayName hit row_value row_description row_display_name].

Ltac fields_in H :=
  cbn [configuration category_children cache cache_hit cache_miss _registered_interests
       audit_log storage_writes callback_log clock
       with_configuration with_children with_cache with_hit_miss with_audit with_writes
       with_callbacks with_clock with_interests
       date_accessed value displayName hit row_value row_description row_display_name] in H.

Section SetItem.
Context {B : Builtins}.

(** X13. [set_category_item_value_entry] for an item that neither the
    cached category nor, when the category is not cached, storage has
    raises [ValueError]; storage, the audit trail and the callbacks are
    left as they were. *)
Theorem set_unknown_item_raises (name item : string) (new : pyval) (s : State) :
  item_unknown name item s ->
  exists s',
    set_category_item_value_entry name item new s
    = (Raise (ValueError "No detail found for the category_name and item_name"), s')
    /\ same_storage_and_logs s s'.
Proof.
  unfold item_unknown. intros H. unfold set_category_item_value_entry.
  unfold bindM at 1. destruct (Dict.get name (cache s)) as [e|] eqn:G.
  - destruct H as (d & V & Hd).
    rewrite (CacheReadFacts.contains_hit _ _ _ G). cbv beta iota.
    unfold bindM at 1. unfold bindM at 1.
    unfold cached_value, bindM, gets, ret, lift, raise. cbv beta iota.
    cbn [cache with_cache]. rewrite get_set_same. cbn [value]. rewrite V.
    cbn [Py.contains]. unfold Dict.mem. rewrite Hd. cbn [negb].
    eexists. split; [reflexivity|]. repeat split.
  - rewrite (CacheReadFacts.contains_miss _ _ G). cbv beta iota.
    unfold bindM at 1. unfold bindM at 1.
    unfold _read_item_val, bindM, gets, ret, raise. cbv beta iota.
    cbn [configuration with_hit_miss].
    destruct (Dict.get name (configuration s)) as [row|] eqn:Gr.
    + rewrite (H row eq_refl). cbn [Py.is_None].
      eexists. split; [reflexivity|]. repeat split.
    + cbn [Py.is_None]. eexists. split; [reflexivity|]. repeat split.
Qed.
Lemma py_eq_dict_str d v : Py.eq (PDict d) (PStr v) = false.
Proof. reflexivity. Qed.

Lemma set_known_item_unfold (name item v : string) (s : State)
    (row : Row) (d i : Dict.t pyval) (old : pyval) :
  stored_item name item s row d i ->
  coherent_at name s ->
  Dict.get "value" i = Some old ->
  set_category_item_value_entry name item (PStr v) s
  = (if match Dict.get name (cache s) with
        | Some _ => Py.eq old (PStr v)
        | None => false
        end
     then ret false
     else
       lift (check_new_value (PDict i) (PStr v)) ;;;
       t <~ lift (Py.subscript (PDict i) "type") ;;
       new_value_entry <~ lift (_clean t (PStr v)) ;;
       _update_value_val name item new_value_entry ;;;
       cat_item <~ _read_item_val name item ;;
       refresh_cached_item name item (Return cat_item) ;;;
       _run_callbacks name ;;;
       ret true) (snd (ConfigurationCache.contains name s)).
Proof.
  intros (Gr & Vr & Gi) Hc Ho. unfold set_category_item_value_entry.
  unfold bindM at 1. destruct (Dict.get name (cache s)) as [e|] eqn:G.
  - destruct (Hc e G) as (row' & Gr' & Ve). rewrite Gr in Gr'. injection Gr' as <-.
    rewrite (CacheReadFacts.contains_hit _ _ _ G). cbv beta iota. cbn [snd].
    unfold bindM at 1. unfold bindM at 1.
    unfold cached_value at 1. unfold bindM at 1. unfold gets at 1. cbv beta iota.
    cbn [cache with_cache]. rewrite get_set_same. cbn [value]. rewrite Ve, Vr.
    unfold ret at 1. cbv beta iota.
    unfold bindM at 1. unfold lift at 1. cbn [Py.contains]. unfold Dict.mem. rewrite Gi.
    cbn [negb]. unfold bindM at 1. unfold lift at 1. cbn [Py.subscript]. rewrite Gi.
    unfold bindM at 1. unfold lift at 1. cbn [Py.subscript]. rewrite Ho.
    destruct (Py.eq old (PStr v)); reflexivity.
  - rewrite (CacheReadFacts.contains_miss _ _ G). cbv beta iota. cbn [snd].
    unfold bindM at 1. unfold bindM at 1.
    unfold _read_item_val at 1. unfold bindM at 1. unfold gets at 1. cbv beta iota.
    cbn [configuration with_hit_miss]. rewrite Gr. unfold ret at 1. cbv beta iota.
    rewrite Vr. cbn [json_path]. rewrite Gi. cbn [Py.is_None].
    rewrite py_eq_dict_str. reflexivity.
Qed.

(** X14. A value that the validation of the item rejects (for an
    enumeration: the empty string or a value that is not among the
    options; otherwise a value that is not of the type of the item) and
    that, when the category is cached, differs from the value the item
    has, makes [set_category_item_value_entry] raise the error of the
    validation; storage, the audit trail and the callbacks are left as
    they were. On a cached category a value equal to the one the item has
    is not validated: the call returns before the validation and raises
    nothing. *)
Theorem set_rejected_value_writes_nothing (name item v : string) (s : State)
    (row : Row) (d i : Dict.t pyval) (old : pyval) (e : exn) :
  stored_item name item s row d i ->
  coherent_at name s ->
  Dict.get "value" i = Some old ->
  check_new_value (PDict i) (PStr v) = Raise e ->
  (Dict.get name (cache s) = None \/ Py.eq old (PStr v) = false ->
   exists s',
     set_category_item_value_entry name item (PStr v) s = (Raise e, s')
     /\ same_storage_and_logs s s')
  /\ (Dict.get name (cache s) <> None -> Py.eq old (PStr v) = true ->
      exists s',
        set_category_item_value_entry name item (PStr v) s = (Return false, s')
        /\ same_storage_and_logs s s').
Proof.
  intros Hs Hc Ho Hch.
  rewrite (set_known_item_unfold name item v s row d i old Hs Hc Ho).
  assert (Raises : forall s0, exists s',
            (lift (check_new_value (PDict i) (PStr v)) ;;;
             t <~ lift (Py.subscript (PDict i) "type") ;;
             new_value_entry <~ lift (_clean t (PStr v)) ;;
             _update_value_val name item new_value_entry ;;;
             cat_item <~ _read_item_val name item ;;
             refresh_cached_item name item (Return cat_item) ;;;
             _run_callbacks name ;;;
             ret true) s0 = (Raise e, s') /\ s' = s0).
  { intros s0. unfold bindM at 1. unfold lift at 1. rewrite Hch. eauto. }
  split.
  - intros Hne.
    assert (F : match Dict.get name (cache s) with
                | Some _ => Py.eq old (PStr v) | None => false end = false).
    { destruct (Dict.get name (cache s)); [|reflexivity].
      destruct Hne as [Hne|Hne]; [discriminate|exact Hne]. }
    rewrite F.
    destruct (Raises (snd (ConfigurationCache.contains name s))) as (s' & -> & ->).
    eexists. split; [reflexivity|]. apply BulkFacts.contains_same.
  - intros Hin Heq. destruct (Dict.get name (cache s)); [|contradiction]. rewrite Heq.
    eexists. split; [reflexivity|]. apply BulkFacts.contains_same.
Qed.

(** X15. When the category is cached and the item has the value already,
    [set_category_item_value_entry] returns early: it writes nothing,
    audits nothing and runs no callback. *)
Theorem set_cached_value_again_writes_nothing (name item v : string) (s : State)
    (row : Row) (d i : Dict.t pyval) (old : pyval) :
  stored_item name item s row d i ->
  coherent_at name s ->
  Dict.get "value" i = Some old ->
  Dict.get name (cache s) <> None ->
  Py.eq old (PStr v) = true ->
  exists s',
    set_category_item_value_entry name item (PStr v) s = (Return false, s')
    /\ same_storage_and_logs s s'
    /\ coherent_at name s'.
Proof.
  intros Hs Hc Ho Hin Heq.
  rewrite (set_known_item_unfold name item v s row d i old Hs Hc Ho).
  destruct (Dict.get name (cache s)) as [e|] eqn:G; [|contradiction].
  rewrite Heq. eexists. split; [reflexivity|]. split; [apply BulkFacts.contains_same|].
  rewrite (CacheReadFacts.contains_hit _ _ _ G). cbn [snd]. intros e' Ge'.
  cbn [cache with_cache] in Ge'. rewrite get_set_same in Ge'. injection Ge' as <-.
  cbn [value configuration with_cache with_clock with_hit_miss]. apply Hc. exact G.
Qed.

End SetItem.

Lemma set_unknown_item_raises_purge :
  exists s',
    set_category_item_value_entry "PURGE" "size" (PStr "1")
      (started_on "PURGE" (PDict [("age", stored_age_item "72" "72")]))
    = (Raise (ValueError "No detail found for the category_name and item_name"), s')
    /\ same_storage_and_logs
         (started_on "PURGE" (PDict [("age", stored_age_item "72" "72")])) s'.
Proof.
  apply (@set_unknown_item_raises builtins "PURGE" "size" (PStr "1")
           (started_on "PURGE" (PDict [("age", stored_age_item "72" "72")]))).
  intros row E. injection E as <-. reflexivity.
Defined.

Lemma set_rejected_value_writes_nothing_purge :
  (Dict.get "PURGE"
     (cache (state_after (create_category "PURGE" (purge "72") "" false None) empty)) = None
   \/ Py.eq (PStr "72") (PStr "soon") = false ->
   exists s',
     set_category_item_value_entry "PURGE" "age" (PStr "soon")
       (state_after (create_category "PURGE" (purge "72") "" false None) empty)
     = (Raise (TypeError "Unrecognized value name for item_name"), s')
     /\ same_storage_and_logs
          (state_after (create_category "PURGE" (purge "72") "" false None) empty) s')
  /\ (Dict.get "PURGE"
        (cache (state_after (create_category "PURGE" (purge "72") "" false None) empty))
      <> None ->
      Py.eq (PStr "72") (PStr "soon") = true ->
      exists s',
        set_category_item_value_entry "PURGE" "age" (PStr "soon")
          (state_after (create_category "PURGE" (purge "72") "" false None) empty)
        = (Return false, s')
        /\ same_storage_and_logs
             (state_after (create_category "PURGE" (purge "72") "" false None) empty) s').
Proof.
  apply (@set_rejected_value_writes_nothing builtins "PURGE" "age" "soon"
           (state_after (create_category "PURGE" (purge "72") "" false None) empty)
           {| row_description := ""; row_value := PDict [("age", stored_age_item "72" "72")];
              row_display_name := "PURGE" |}
           [("age", stored_age_item "72" "72")]
           [("description", PStr "d"); ("type", PStr "integer");
            ("default", PStr "72"); ("value", PStr "72")]
           (PStr "72")).
  - repeat split.
  - intros e Ge. vm_compute in Ge. injection Ge as <-.
    eexists. split; reflexivity.
  - reflexivity.
  - reflexivity.
Defined.

Lemma set_cached_value_again_writes_nothing_purge :
  exists s',
    set_category_item_value_entry "PURGE" "age" (PStr "72")
      (state_after (create_category "PURGE" (purge "72") "" false None) empty)
    = (Return false, s')
    /\ same_storage_and_logs
         (state_after (create_category "PURGE" (purge "72") "" false None) empty) s'
    /\ coherent_at "PURGE" s'.
Proof.
  apply (@set_cached_value_again_writes_nothing builtins "PURGE" "age" "72"
           (state_after (create_category "PURGE" (purge "72") "" false None) empty)
           {| row_description := ""; row_value := PDict [("age", stored_age_item "72" "72")];
              row_display_name := "PURGE" |}
           [("age", stored_age_item "72" "72")]
           [("description", PStr "d"); ("type", PStr "integer");
            ("default", PStr "72"); ("value", PStr "72")]
           (PStr "72")).
  - repeat split.
  - intros e Ge. vm_compute in Ge. injection Ge as <-.
    eexists. split; reflexivity.
  - reflexivity.
  - discriminate.
  - reflexivity.
Defined.


End SetItemFacts.

(* ================================================================== *)
(** ** Scheduler: start, stop and the completion of a task *)

Module SchedulerStartFacts.
Import Scheduler SchedulerSpec SchedulerStart.

Section Facts.
Variable timed_advance : Q -> Z -> Q.

(** X17. After [stop()] has returned [True], [start()] is accepted again
    and schedules the main loop, but it leaves [_paused] set: the
    restarted scheduler advances no schedule, since [_schedule_next_task]
    returns [False] for all of them. A second [start()] raises
    [RuntimeError] and changes nothing. *)
Theorem start_after_stop_stays_paused
    (during_sleep : list Completion) (s s' : State) (eff : list Effect) (now : Q) :
  stop timed_advance during_sleep s = (Return true, s', eff) ->
  ~ (now == 0)%Q ->
  exists s'',
    start now s' = (Return tt, s'', [EnsureFutureMain])
    /\ _start_time s'' = Some now
    /\ _paused s'' = true
    /\ _active_task_count s'' = 0%Z
    /\ (forall now' schedule,
          _schedule_next_task timed_advance now' schedule s'' = (Return false, s''))
    /\ (forall now', start now' s'' = (Raise RuntimeError, s'', [])).
Proof.
  intros Hs Hn. unfold stop in Hs.
  destruct (terminate_all (set_paused true s)
              (Dict.keys (_schedule_executions (set_paused true s)))) as [[u|e] sent];
    [|discriminate].
  destruct (SchedulerFacts.run_completions_frame timed_advance during_sleep (set_paused true s))
    as (P & _ & _).
  set (s2 := run_completions timed_advance during_sleep (set_paused true s)) in *.
  destruct (Z.eqb_spec (_active_task_count s2) 0) as [Z0|NZ]; cbn [negb] in Hs;
    [|discriminate].
  injection Hs as <- <-.
  exists (set_start_time (Some now) (set_start_time None s2)).
  split; [reflexivity|]. split; [reflexivity|]. split; [exact P|]. split; [exact Z0|].
  split.
  - intros now' schedule. unfold _schedule_next_task.
    destruct (repeat_seconds schedule); [|reflexivity].
    cbn [_paused set_start_time]. cbn [_paused set_paused] in P. rewrite P. reflexivity.
  - intros now'. unfold start. cbn [_start_time set_start_time].
    destruct (Qeq_bool now 0) eqn:E; [|reflexivity].
    apply Qeq_bool_iff in E. contradiction.
Qed.

(** X19. The completion handler of a task whose process is known and
    whose execution has a next start returns, removes exactly this task
    from the tasks of its schedule, lowers the count of active tasks by
    one unless it is zero, and leaves the executions of the other
    schedules alone; for a schedule that is not exclusive the next start
    stays and the main loop is not woken. *)
Theorem task_completion_removes_the_task
    (now : Q) (schedule : Schedule) (task_id : string) (s : State)
    (args : list string) (e : ScheduleExecution) (t : Q) :
  Dict.get (scheduled_process_name schedule) (_scheduled_processes s) = Some args ->
  Dict.get (id schedule) (_schedule_executions s) = Some e ->
  next_start_time e = Some t ->
  Dict.mem task_id (task_processes e) = true ->
  exists s' eff e',
    _on_task_completion timed_advance now schedule task_id s = (Return tt, s', eff)
    /\ Dict.get (id schedule) (_schedule_executions s') = Some e'
    /\ task_processes e' = Dict.pop task_id (task_processes e)
    /\ next_start_time e' <> None
    /\ _active_task_count s'
       = (if (_active_task_count s =? 0)%Z then 0 else _active_task_count s - 1)%Z
    /\ (forall other, other <> id schedule ->
          Dict.get other (_schedule_executions s')
          = Dict.get other (_schedule_executions s))
    /\ (exclusive schedule = false -> next_start_time e' = Some t /\ eff = []).
Proof.
  intros Hp He Hn Hm. unfold _on_task_completion. rewrite Hp.
  set (s1 := if (_active_task_count s =? 0)%Z then s
             else set_count (_active_task_count s - 1) s).
  assert (E1 : _schedule_executions s1 = _schedule_executions s)
    by (subst s1; destruct (_active_task_count s =? 0)%Z; reflexivity).
  assert (P1 : _paused s1 = _paused s)
    by (subst s1; destruct (_active_task_count s =? 0)%Z; reflexivity).
  assert (C1 : _active_task_count s1
               = (if (_active_task_count s =? 0)%Z then 0 else _active_task_count s - 1)%Z).
  { subst s1. destruct (Z.eqb_spec (_active_task_count s) 0) as [Z0|NZ]; [exact Z0|reflexivity]. }
  clearbody s1. rewrite E1, He.
  assert (N : exists r s2 e2,
            (if exclusive schedule
             then _schedule_next_task timed_advance now schedule s1
             else (Return false, s1)) = (Return r, s2)
            /\ Dict.get (id schedule) (_schedule_executions s2) = Some e2
            /\ task_processes e2 = task_processes e
            /\ next_start_time e2 <> None
            /\ _active_task_count s2 = _active_task_count s1
            /\ (forall other, other <> id schedule ->
                  Dict.get other (_schedule_executions s2)
                  = Dict.get other (_schedule_executions s))
            /\ (exclusive schedule = false -> next_start_time e2 = Some t /\ r = false)).
  { destruct (exclusive schedule) eqn:X.
    - unfold _schedule_next_task. destruct (repeat_seconds schedule) as [repeat|].
      + destruct (_paused s1).
        * exists false, s1, e. split; [reflexivity|]. rewrite E1.
          repeat split; auto; try congruence; discriminate.
        * rewrite E1, He, Hn. eexists _, _, _. split; [reflexivity|].
          cbn [_schedule_executions set_executions _active_task_count].
          split; [apply DictFacts.get_set_same|]. split; [reflexivity|].
          split; [discriminate|]. split; [reflexivity|]. split; [|discriminate].
          intros other N. rewrite DictFacts.get_set_other by exact N. reflexivity.
      + exists false, s1, e. split; [reflexivity|]. rewrite E1.
        repeat split; auto; try congruence; discriminate.
    - exists false, s1, e. split; [reflexivity|]. rewrite E1.
      repeat split; auto; congruence. }
  destruct N as (r & s2 & e2 & -> & G2 & T2 & Nn & C2 & O2 & X2).
  rewrite G2. destruct (next_start_time e2) as [t2|] eqn:N2; [|contradiction].
  rewrite T2, Hm. eexists _, _, _. split; [reflexivity|].
  cbn [_schedule_executions set_executions _active_task_count].
  split; [apply DictFacts.get_set_same|]. split; [reflexivity|].
  cbn [next_start_time].
  split; [discriminate|]. split; [rewrite C2; exact C1|]. split.
  - intros other N. rewrite DictFacts.get_set_other by exact N. apply O2, N.
  - intros X. destruct (X2 X) as (Et & ->). split; [congruence|reflexivity].
Qed.
End Facts.

Lemma start_after_stop_stays_paused_idle :
  exists s'',
    start 200%Q (set_start_time None (set_paused true idle))
    = (Return tt, s'', [EnsureFutureMain])
    /\ _start_time s'' = Some 200%Q
    /\ _paused s'' = true
    /\ _active_task_count s'' = 0%Z
    /\ (forall now' schedule,
          _schedule_next_task (fun t _ => t) now' schedule s'' = (Return false, s''))
    /\ (forall now', start now' s'' = (Raise RuntimeError, s'', [])).
Proof.
  apply (start_after_stop_stays_paused (fun t _ => t) [] idle
           (set_start_time None (set_paused true idle)) [Sleep (1 # 10)%Q] 200%Q).
  - reflexivity.
  - intros H. discriminate H.
Defined.

Lemma task_completion_removes_the_task_of_two :
  exists s' eff e',
    _on_task_completion (fun t _ => t) 5%Q every_ten_seconds "t1" (waiting 0%Q two_tasks)
    = (Return tt, s', eff)
    /\ Dict.get (id every_ten_seconds) (_schedule_executions s') = Some e'
    /\ task_processes e' = Dict.pop "t1" two_tasks
    /\ next_start_time e' <> None
    /\ _active_task_count s'
       = (if (_active_task_count (waiting 0%Q two_tasks) =? 0)%Z then 0
          else _active_task_count (waiting 0%Q two_tasks) - 1)%Z
    /\ (forall other, other <> id every_ten_seconds ->
          Dict.get other (_schedule_executions s')
          = Dict.get other (_schedule_executions (waiting 0%Q two_tasks)))
    /\ (exclusive every_ten_seconds = false -> next_start_time e' = Some 0%Q /\ eff = []).
Proof.
  apply (task_completion_removes_the_task (fun t _ => t) 5%Q every_ten_seconds "t1"
           (waiting 0%Q two_tasks) ["backup.sh"]
           {| next_start_time := Some 0%Q; task_processes := two_tasks |} 0%Q);
    reflexivity.
Defined.

End SchedulerStartFacts.

(* ================================================================== *)
(** ** Creating a category and reading it back *)

Module CreateReadFacts.
Import DictFacts ManagerSpec CacheSpec Example.

Lemma cache_update_get name v d s :
  cache_dated s ->
  exists s',
    ConfigurationCache.update name v d s = (Return tt, s')
    /\ same_storage_and_logs s s'
    /\ cache_hit s' = cache_hit s /\ cache_miss s' = cache_miss s
    /\ Dict.get name (cache s')
       = Some {| date_accessed := Some (clock s); value := v;
                 displayName := match d with None => name | Some x => x end;
                 hit := None |}.
Proof.
  intros Hd. destruct (RecreateFacts.cache_update_returns name v d s Hd) as (s' & U & Same).
  exists s'. split; [exact U|]. split; [exact Same|].
  unfold ConfigurationCache.update, ConfigurationCache.remove_oldest,
    bindM, gets, modify, ret, now, lift, raise in U. cbv beta iota in U.
  destruct (negb _ && _) in U.
  - destruct (ConfigurationCache.oldest _ _ _) as [[o|]|] in U; try discriminate.
    injection U as <-. split; [reflexivity|]. split; [reflexivity|]. apply get_set_same.
  - injection U as <-. split; [reflexivity|]. split; [reflexivity|]. apply get_set_same.
Qed.

Section Create.
Context {B : Builtins}.

Lemma create_new_category_stores name prepared kept description display_name s :
  Dict.get name (configuration s) = None ->
  drop_deprecated prepared = Return kept ->
  cache_dated s ->
  exists s0,
    _create_new_category name (PDict prepared) description display_name s = (Return tt, s0)
    /\ configuration s0
       = Dict.set name {| row_description := description; row_value := PDict kept;
                          row_display_name := stored_display_name name display_name |}
           (configuration s)
    /\ storage_writes s0 = storage_writes s ++ [InsertConfiguration name]
    /\ audit_log s0
       = audit_log s ++ [("CONAD", PDict [("name", PStr name); ("category", PDict kept)])]
    /\ callback_log s0 = callback_log s
    /\ _registered_interests s0 = _registered_interests s
    /\ cache_hit s0 = cache_hit s /\ cache_miss s0 = cache_miss s
    /\ exists e, Dict.get name (cache s0) = Some e /\ value e = PDict kept.
Proof.
  intros G D Hd. unfold _create_new_category.
  erewrite RecreateFacts.except_message_return.
  2:{ unfold insert_configuration, audit_information, log_write.
      unfold bindM at 1. unfold lift at 1. rewrite D.
      cbn [bind]. unfold bindM, modify, gets, ret. cbv beta iota.
      cbn [configuration with_audit]. unfold Dict.mem. rewrite G. reflexivity. }
  match goal with |- context [ConfigurationCache.update ?a ?b ?c ?st] =>
    destruct (cache_update_get a b c st Hd) as (s' & -> & Same & Hh & Hm & Gc) end.
  destruct Same as (Ec & Ech & Ew & Ea & Eb & Ei).
  exists s'. split; [reflexivity|]. rewrite Ec, Ew, Ea, Eb, Ei, Hh, Hm.
  repeat split. eexists. split; [exact Gc|reflexivity].
Qed.

End Create.


End CreateReadFacts.

(* ================================================================== *)
(** ** Validation of a category value *)

Module ValidationFacts.
Import DictFacts ManagerSpec Example ValidationSpec.

Section Validation.
Context {B : Builtins}.

Lemma check_entry_inv raw n v e e' :
  check_entry true raw n v e = Return e' ->
  n <> "value"
  /\ (n = "type" -> exists s, v = PStr s /\ In s _valid_type_strings)
  /\ (Dict.get n e <> None \/ n = "options" \/ In n optional_item_entries)
  /\ (forall m, m <> n -> Dict.get m e' = Dict.get m e)
  /\ Dict.get n e' = Some M1.
Proof.
  unfold check_entry. intros H.
  apply RecreateFacts.bind_Return in H. destruct H as (b & _ & H).
  apply RecreateFacts.bind_Return in H. destruct H as (e1 & H1 & H).
  apply RecreateFacts.bind_Return in H. destruct H as (e2 & H2 & H3).
  assert (A1 : e1 = e \/ (n = "options" /\ exists x, e1 = Dict.set n x e)).
  { unfold check_enumeration in H1. destruct b.
    - destruct (negb (Dict.mem "options" raw)); [discriminate|].
      destruct (String.eqb_spec n "options") as [->|N].
      + destruct v as [| |[|o l]|]; try discriminate.
        apply RecreateFacts.bind_Return in H1. destruct H1 as (d & _ & H1).
        apply RecreateFacts.bind_Return in H1. destruct H1 as (p & _ & H1).
        destruct p; [|discriminate]. injection H1 as <-. right. eauto.
      + apply RecreateFacts.bind_Return in H1. destruct H1 as (u & _ & H1).
        injection H1 as <-. auto.
    - apply RecreateFacts.bind_Return in H1. destruct H1 as (u & _ & H1).
      injection H1 as <-. auto. }
  assert (A2 : e2 = e1 \/ (In n optional_item_entries /\ exists x, e2 = Dict.set n x e1)).
  { unfold check_optional in H2.
    destruct (existsb (String.eqb n) optional_item_entries) eqn:E.
    - apply RecreateFacts.bind_Return in H2. destruct H2 as (u & _ & H2).
      injection H2 as <-. right. split; [|eauto].
      apply InterestFacts.existsb_eqb_In, E.
    - injection H2 as <-. auto. }
  unfold count_entry in H3. cbn [andb] in H3.
  destruct (String.eqb_spec n "value") as [->|Nv]; [discriminate|].
  destruct (Dict.get n e2) as [x|] eqn:G2; [|discriminate].
  split; [exact Nv|]. split.
  { intros ->. cbn [String.eqb Ascii.eqb Bool.eqb andb] in H3.
    destruct v as [|s| |]; try discriminate.
    destruct (existsb (String.eqb s) _valid_type_strings) eqn:E; [|discriminate].
    exists s. split; [reflexivity|]. apply InterestFacts.existsb_eqb_In, E. }
  assert (H3' : e' = Dict.set n M1 e2).
  { destruct (String.eqb n "type" && _); [discriminate|]. injection H3 as <-. reflexivity. }
  subst e'. split; [|split].
  - destruct A2 as [->|(Ho & x2 & ->)]; [|auto].
    destruct A1 as [->|(Ho & x1 & ->)]; [|auto].
    left. rewrite G2. discriminate.
  - intros m N. rewrite get_set_other by exact N.
    destruct A2 as [->|(_ & x2 & ->)]; [|rewrite get_set_other by exact N];
      (destruct A1 as [->|(_ & x1 & ->)]; [|rewrite get_set_other by exact N]); reflexivity.
  - apply get_set_same.
Qed.

Lemma check_entries_inv raw : forall L e e',
  check_entries true raw L e = Return e' ->
  known_entries e ->
  (forall n v, In (n, v) L ->
     n <> "value" /\ allowed_entry n
     /\ (n = "type" -> exists s, v = PStr s /\ In s _valid_type_strings))
  /\ (forall m, ~ In m (Dict.keys L) -> Dict.get m e' = Dict.get m e).
Proof.
  induction L as [|[n v] r IH]; intros e e' H K.
  - injection H as <-. split; [intros n v []|reflexivity].
  - cbn [check_entries] in H. apply RecreateFacts.bind_Return in H.
    destruct H as (e1 & H1 & H).
    destruct (check_entry_inv _ _ _ _ _ H1) as (Nv & Ty & Rec & Oth & Same).
    assert (An : allowed_entry n).
    { destruct Rec as [Rec|[->|Rec]].
      - apply K, Rec.
      - left. simpl. tauto.
      - right. exact Rec. }
    assert (K1 : known_entries e1).
    { intros m Hm. destruct (String.eqb_spec m n) as [->|N]; [exact An|].
      apply K. rewrite <- Oth by exact N. exact Hm. }
    destruct (IH e1 e' H K1) as (All & Unt). split.
    + intros n' v' [E|Hin]; [injection E as <- <-; auto|apply All, Hin].
    + intros m Hm. cbn [Dict.keys map fst] in Hm.
      rewrite Unt by (intros X; apply Hm; right; exact X).
      apply Oth. intros ->. apply Hm. left. reflexivity.
Qed.

Lemma in_keys_get (V : Type) m (d : Dict.t V) : In m (Dict.keys d) <-> Dict.get m d <> None.
Proof.
  split.
  - intros H G. apply get_none_not_in in G. contradiction.
  - intros H. destruct (Dict.get m d) eqn:G; [eapply get_in_keys; exact G|contradiction].
Qed.

Lemma get_entry_val_inv raw k v : get_entry_val raw k = Return v -> Dict.get k raw = Some v.
Proof. unfold get_entry_val. destruct (Dict.get k raw); [congruence|discriminate]. Qed.

Lemma validated_item_accepted (item out : pyval) :
  validate_item true item = Return out ->
  exists raw item', item = PDict raw /\ out = PDict item' /\ accepted_item raw item'.
Proof.
  unfold validate_item. destruct item as [| | |raw]; try discriminate. intros H.
  cbn [negb app] in H.
  apply RecreateFacts.bind_Return in H. destruct H as (expected & Hce & H).
  apply RecreateFacts.bind_Return in H. destruct H as ([] & Hm & H).
  apply RecreateFacts.bind_Return in H. destruct H as (t & Ht & H).
  apply RecreateFacts.bind_Return in H. destruct H as (d & Hdf & H).
  apply RecreateFacts.bind_Return in H. destruct H as (r & Hv & H).
  apply RecreateFacts.bind_Return in H. destruct H as ([] & Hr & H).
  apply RecreateFacts.bind_Return in H. destruct H as (item1 & H1 & H).
  apply RecreateFacts.bind_Return in H. destruct H as (item2 & H2 & H).
  apply RecreateFacts.bind_Return in H. destruct H as (t2 & Ht2 & H).
  apply RecreateFacts.bind_Return in H. destruct H as (d2 & Hd2 & H).
  apply RecreateFacts.bind_Return in H. destruct H as (c & Hc & H).
  injection H as <-.
  apply get_entry_val_inv in Ht, Hdf.
  assert (K0 : known_entries [("description", M0); ("default", M0); ("type", M0)]).
  { intros m Hm0. left. apply in_keys_get in Hm0. simpl in Hm0. simpl. tauto. }
  destruct (check_entries_inv raw raw _ _ Hce K0) as (All & Unt).
  pose proof (RecreateFacts.check_missing_inv _ Hm) as NoM0.
  assert (Pres : forall m, In m ["description"; "default"; "type"] ->
                           Dict.get m raw <> None).
  { intros m Hin. apply in_keys_get.
    destruct (in_dec string_dec m (Dict.keys raw)) as [I|I]; [exact I|].
    exfalso. apply (NoM0 m). rewrite (Unt m I).
    simpl in Hin. destruct Hin as [<-|[<-|[<-|[]]]]; reflexivity. }
  assert (Same2 : forall n, n <> "readonly" -> n <> "deprecated" ->
                            Dict.get n item2 = Dict.get n raw).
  { intros n N1 N2.
    apply RecreateFacts.clean_boolean_entry_inv in H1, H2.
    destruct H2 as [(_ & ->)|(x & _ & ->)]; [|rewrite get_set_other by exact N2];
      (destruct H1 as [(_ & ->)|(y & _ & ->)]; [|rewrite get_set_other by exact N1]);
      reflexivity. }
  exists raw, (Dict.set "value" c (Dict.set "default" c item2)).
  split; [reflexivity|]. split; [reflexivity|].
  destruct (All "type" t (get_in _ _ _ _ Ht) ) as (_ & _ & Ty).
  destruct (Ty eq_refl) as (ts & -> & Hts).
  split; [apply Pres; simpl; tauto|]. split.
  { exists ts, d, r, c.
    assert (E2 : t2 = PStr ts /\ d2 = d).
    { cbn [Py.subscript] in Ht2, Hd2.
      rewrite Same2 in Ht2, Hd2 by discriminate. rewrite Ht in Ht2. rewrite Hdf in Hd2.
      split; congruence. }
    destruct E2 as (-> & ->).
    split; [exact Ht|]. split; [exact Hts|]. split; [exact Hdf|]. split; [exact Hv|].
    split; [unfold reject_False in Hr; destruct (is_False r); [discriminate|reflexivity]|].
    split; [exact Hc|]. split; [apply get_set_same|].
    rewrite get_set_other by discriminate. apply get_set_same. }
  split.
  { destruct (Dict.get "value" raw) as [x|] eqn:G; [|reflexivity].
    destruct (All "value" x (get_in _ _ _ _ G)) as (N & _). contradiction. }
  split.
  { intros n Hn. apply in_map_iff in Hn. destruct Hn as ([n' v'] & <- & Hin).
    apply (All n' v' Hin). }
  intros n N1 N2 N3 N4. rewrite !get_set_other by assumption. apply Same2; assumption.
Qed.

(** X21. A category value that [_validate_category_val] accepts for
    creation is a dictionary of items, and the result has the same item
    names in the same order. Every accepted item is a dictionary with a
    [description], a [type] among the valid types and a [default] that the
    validation of the type does not reject; it has no [value] entry of its
    own and no entry with an unknown name. In the result [value] and
    [default] are the cleaned default, and the entries other than
    [readonly] and [deprecated] are as given. *)
Theorem validated_category_is_well_formed (v out : pyval) :
  _validate_category_val v true = Return out ->
  exists items items',
    v = PDict items /\ out = PDict items'
    /\ Dict.keys items' = Dict.keys items
    /\ Forall2 (fun x y =>
                  fst x = fst y
                  /\ exists raw item', snd x = PDict raw /\ snd y = PDict item'
                                       /\ accepted_item raw item') items items'.
Proof.
  unfold _validate_category_val. destruct v as [| | |items]; try discriminate. intros H.
  apply RecreateFacts.bind_Return in H. destruct H as (items' & H & E). injection E as <-.
  exists items, items'. split; [reflexivity|]. split; [reflexivity|].
  revert items' H. induction items as [|[k it] r IH]; intros items' H.
  - injection H as <-. split; [reflexivity|constructor].
  - cbn [validate_items] in H.
    apply RecreateFacts.bind_Return in H. destruct H as (it' & Hi & H).
    apply RecreateFacts.bind_Return in H. destruct H as (r' & Hr & H). injection H as <-.
    destruct (IH r' Hr) as (Ek & Hf).
    destruct (validated_item_accepted _ _ Hi) as (raw & item' & -> & -> & Ha).
    split; [unfold Dict.keys in *; cbn [map fst]; rewrite Ek; reflexivity|].
    constructor; [|exact Hf]. split; [reflexivity|]. exists raw, item'. auto.
Qed.
End Validation.

Lemma validated_category_is_well_formed_purge :
  exists items items',
    purge "72" = PDict items /\ PDict [("age", stored_age_item "72" "72")] = PDict items'
    /\ Dict.keys items' = Dict.keys items
    /\ Forall2 (fun x y =>
                  fst x = fst y
                  /\ exists raw item', snd x = PDict raw /\ snd y = PDict item'
                                       /\ accepted_item raw item') items items'.
Proof.
  apply (@validated_category_is_well_formed builtins (purge "72")
           (PDict [("age", stored_age_item "72" "72")])).
  reflexivity.
Defined.

End ValidationFacts.

(* ================================================================== *)
(** ** Merging: the items that only the storage has *)

Module MergeKeepFacts.
Import DictFacts ManagerSpec CacheSpec Example.

Lemma get_fold_set_in (V : Type) k (v : V) : forall (kvs : list (string * V)) d,
  NoDup (Dict.keys kvs) -> Dict.get k kvs = Some v ->
  Dict.get k (fold_left (fun d kv => Dict.set (fst kv) (snd kv) d) kvs d) = Some v.
Proof.
  induction kvs as [|[k0 v0] r IH]; intros d Hn G; [discriminate|].
  cbn [fold_left fst snd]. inversion Hn as [|? ? Hnot Hn']; subst. simpl in G.
  destruct (String.eqb_spec k k0) as [->|N].
  - injection G as ->. rewrite get_fold_set by exact Hnot. apply get_set_same.
  - apply IH; assumption.
Qed.

(** X22. Merging new items with the stored ones treats an item that only
    the storage has according to [keep_original_items]: with [True] the
    merged category holds it with its stored content, with [False] the
    merged category does not hold it. *)
Theorem merge_keeps_or_drops_stored_only_items
    (name : string) (new_items storage_items : Dict.t pyval) (keep : bool) (s : State)
    (item_name : string) (stored : pyval) :
  NoDup (Dict.keys storage_items) ->
  prepared_items new_items ->
  dict_items storage_items ->
  Dict.get item_name storage_items = Some stored ->
  Dict.get item_name new_items = None ->
  exists merged s',
    _merge_category_vals (PDict new_items) (PDict storage_items) keep name s
    = (Return (PDict merged), s')
    /\ Dict.get item_name merged = (if keep then Some stored else None).
Proof.
  intros Ns Hp Hd Gs Gn.
  destruct (MergeFacts.merge_items_spec name new_items storage_items s Hp Hd Ns)
    as (items' & storage' & deps & s' & Hm & _).
  destruct (MergeFacts.merge_items_inv name _ _ _ _ _ _ _ Hm) as (Ek & Hg & Hdp & Hn & _).
  assert (Nk : ~ In item_name (Dict.keys new_items)).
  { intros Hin. apply ValidationFacts.in_keys_get in Hin. contradiction. }
  unfold _merge_category_vals, bindM. rewrite Hm. cbv beta iota. unfold ret.
  assert (G1 : Dict.get item_name (fold_left (fun d item => Dict.pop item d) deps items')
               = None).
  { rewrite get_fold_pop by (intros X; apply Nk, Hdp, X).
    apply get_none_not_in. rewrite Ek. exact Nk. }
  eexists _, s'. split; [reflexivity|]. destruct keep; [|exact G1].
  apply get_fold_set_in; [apply Hn, Ns|]. rewrite Hg by exact Nk. exact Gs.
Qed.

Lemma merge_keeps_or_drops_stored_only_items_purge :
  exists merged s',
    _merge_category_vals (PDict [("age", stored_age_item "72" "72")])
      (PDict [("age", stored_age_item "72" "100"); ("size", stored_age_item "5" "9")])
      true "PURGE" empty
    = (Return (PDict merged), s')
    /\ Dict.get "size" merged = (if true then Some (stored_age_item "5" "9") else None).
Proof.
  apply (merge_keeps_or_drops_stored_only_items "PURGE"
           [("age", stored_age_item "72" "72")]
           [("age", stored_age_item "72" "100"); ("size", stored_age_item "5" "9")]
           true empty "size" (stored_age_item "5" "9")).
  - cbn. repeat (constructor; [simpl; intuition discriminate|]). constructor.
  - repeat constructor. eexists. split; [reflexivity|discriminate].
  - repeat constructor; eexists; reflexivity.
  - reflexivity.
  - reflexivity.
Defined.

End MergeKeepFacts.

(* ================================================================== *)
(** ** Bulk update: refused items and stored values *)

Module BulkStoreFacts.
Import DictFacts ManagerSpec CacheSpec Example CacheReadFacts SetItemFacts BulkSpec.

Section Refused.
Context {B : Builtins}.

Lemma bulk_collect_raises cat_info item new_val e after : forall before updates audit_items,
  (forall i v, In (i, v) before -> exists checked, bulk_check_item cat_info i v = Return checked) ->
  bulk_check_item cat_info item new_val = Raise e ->
  bulk_collect cat_info (before ++ (item, new_val) :: after) updates audit_items = Raise e.
Proof.
  induction before as [|[i v] r IH]; intros updates audit_items Hb He.
  - cbn [app bulk_collect]. rewrite He. reflexivity.
  - cbn [app bulk_collect].
    destruct (Hb i v (or_introl eq_refl)) as ([old new'] & ->). cbn [bind].
    destruct (negb (Py.eq old new')); apply IH; auto;
      intros i' v' Hin; apply Hb; right; exact Hin.
Qed.

End Refused.


Lemma dict_ext (V : Type) : forall (d d' : Dict.t V),
  Dict.keys d = Dict.keys d' -> NoDup (Dict.keys d) ->
  (forall k, Dict.get k d = Dict.get k d') -> d = d'.
Proof.
  induction d as [|[k v] r IH]; intros [|[k' v'] r'] Ek Hn Hg; try discriminate;
    [reflexivity|].
  cbn in Ek. injection Ek as <- Ek. inversion Hn as [|? ? Hnot Hn']; subst.
  pose proof (Hg k) as Hk. cbn in Hk. rewrite String.eqb_refl in Hk. injection Hk as <-.
  f_equal. apply IH; [exact Ek|exact Hn'|]. intros x. specialize (Hg x). cbn in Hg.
  destruct (String.eqb_spec x k) as [E|N]; [subst x|exact Hg].
  apply get_none_not_in in Hnot. rewrite Hnot. symmetry. apply get_none_not_in.
  unfold Dict.keys in Ek |- *. rewrite <- Ek. apply get_none_not_in. exact Hnot.
Qed.

Lemma keys_set_present (V : Type) k (v x : V) : forall d,
  Dict.get k d = Some x -> Dict.keys (Dict.set k v d) = Dict.keys d.
Proof.
  induction d as [|[k0 v0] r IH]; cbn; [discriminate|].
  destruct (String.eqb_spec k k0) as [->|N]; [reflexivity|].
  intros H. cbn. f_equal. apply IH, H.
Qed.

Lemma set_set_same (V : Type) k (v : V) d : Dict.set k v (Dict.set k v d) = Dict.set k v d.
Proof. apply set_get_id, get_set_same. Qed.

Lemma in_keys_value (V : Type) k (d : Dict.t V) : In k (Dict.keys d) -> exists v, In (k, v) d.
Proof.
  unfold Dict.keys. intros H. apply in_map_iff in H. destruct H as ([k' v] & E & H).
  cbn in E. subst. eauto.
Qed.

Lemma in_value_keys (V : Type) k (v : V) (d : Dict.t V) : In (k, v) d -> In k (Dict.keys d).
Proof. intros H. unfold Dict.keys. apply in_map_iff. exists (k, v). auto. Qed.

Lemma NoDup_keys_functional (V : Type) k (v v' : V) : forall d,
  NoDup (Dict.keys d) -> In (k, v) d -> In (k, v') d -> v = v'.
Proof.
  induction d as [|[k0 v0] r IH]; intros Hn H H'; [destruct H|].
  inversion Hn as [|? ? Hnot Hn']; subst.
  destruct H as [E|H], H' as [E'|H'].
  - congruence.
  - injection E as <- <-. exfalso. apply Hnot. eapply in_value_keys, H'.
  - injection E' as <- <-. exfalso. apply Hnot. eapply in_value_keys, H.
  - apply IH; assumption.
Qed.

(** What [jsonb_set] leaves of a category after a list of updates on
    different items. *)
Lemma apply_json_updates_spec : forall updates d,
  NoDup (Dict.keys updates) ->
  (forall k n, In (k, n) updates -> exists it, Dict.get k d = Some (PDict it)) ->
  exists stored,
    apply_json_updates (PDict d) updates = PDict stored
    /\ Dict.keys stored = Dict.keys d
    /\ (forall k, ~ In k (Dict.keys updates) -> Dict.get k stored = Dict.get k d)
    /\ (forall k n, In (k, n) updates ->
          exists it, Dict.get k d = Some (PDict it)
                     /\ Dict.get k stored = Some (PDict (Dict.set "value" n it))).
Proof.
  induction updates as [|[k0 n0] r IH]; intros d Hn Hd.
  - exists d. repeat split; auto. intros k n [].
  - inversion Hn as [|? ? Hnot Hn']; subst.
    destruct (Hd k0 n0 (or_introl eq_refl)) as (it0 & G0).
    unfold apply_json_updates. cbn [fold_left fst snd json_set_value]. rewrite G0.
    set (d1 := Dict.set k0 (PDict (Dict.set "value" n0 it0)) d).
    assert (O : forall k, k <> k0 -> Dict.get k d1 = Dict.get k d)
      by (intros k N; apply get_set_other, N).
    destruct (IH d1 Hn') as (stored & E & Ek & Ho & Hu).
    { intros k n Hin. destruct (Hd k n (or_intror Hin)) as (it & G). exists it.
      rewrite O; [exact G|]. intros ->. apply Hnot. eapply in_value_keys, Hin. }
    exists stored. split; [exact E|]. split.
    { rewrite Ek. eapply keys_set_present, G0. }
    split.
    + intros k Hk. rewrite Ho by (intros X; apply Hk; right; exact X).
      apply O. intros ->. apply Hk. left. reflexivity.
    + intros k n [Eq|Hin].
      * injection Eq as <- <-. exists it0. split; [exact G0|].
        rewrite Ho by exact Hnot. apply get_set_same.
      * destruct (Hu k n Hin) as (it & G & Gs). exists it. split; [|exact Gs].
        rewrite <- O; [exact G|]. intros ->. apply Hnot. eapply in_value_keys, Hin.
Qed.

(** The bulk update refreshes the cached items one by one from the value
    read back from storage. *)
Lemma bulk_refresh_spec name (stored : Dict.t pyval) : forall items s e c,
  Dict.get name (cache s) = Some e ->
  value e = PDict c ->
  (forall k, In k (Dict.keys items) ->
     exists it n, Dict.get k c = Some (PDict it)
                  /\ Dict.get k stored = Some (PDict (Dict.set "value" n it))) ->
  exists s' e' c',
    bulk_refresh name (PDict stored) items s = (Return tt, s')
    /\ Dict.get name (cache s') = Some e'
    /\ value e' = PDict c'
    /\ Dict.keys c' = Dict.keys c
    /\ (forall k, In k (Dict.keys items) -> Dict.get k c' = Dict.get k stored)
    /\ (forall k, ~ In k (Dict.keys items) -> Dict.get k c' = Dict.get k c)
    /\ same_storage_and_logs s s'.
Proof.
  induction items as [|[k0 v0] r IH]; intros s e c Ge Ve Hk.
  - exists s, e, c. cbn [bulk_refresh]. repeat split; auto. intros k [].
  - destruct (Hk k0 (or_introl eq_refl)) as (it & n & Gc & Gs).
    cbn [bulk_refresh]. unfold bindM at 1.
    unfold refresh_cached_item, cached_value, set_cached_value, bindM, gets, lift, ret, raise.
    cbv beta iota. rewrite (get_mem _ _ _ _ Ge). rewrite Ge. cbv beta iota. rewrite Ve.
    cbn [Py.contains Py.subscript bind]. rewrite (get_mem _ _ _ _ Gc), Gc, Gs.
    cbv beta iota. cbn [bind Py.subscript]. rewrite get_set_same. cbv beta iota.
    cbn [bind Py.set_item]. cbv beta iota. rewrite Ge. unfold modify. cbv beta iota.
    set (c1 := Dict.set k0 (PDict (Dict.set "value" n it)) c).
    set (e1 := {| date_accessed := date_accessed e; value := PDict c1;
                  displayName := displayName e; hit := hit e |}).
    set (s1 := with_cache (Dict.set name e1 (cache s)) s).
    assert (O : forall k, k <> k0 -> Dict.get k c1 = Dict.get k c)
      by (intros k N; apply get_set_other, N).
    destruct (IH s1 e1 c1) as (s' & e' & c' & R & Ge' & Ve' & Ek & Hin & Hout & Same).
    { apply get_set_same. }
    { reflexivity. }
    { intros k Hr. destruct (String.eqb_spec k k0) as [->|N].
      - exists (Dict.set "value" n it), n. split; [apply get_set_same|].
        rewrite set_set_same. exact Gs.
      - destruct (Hk k (or_intror Hr)) as (it' & n' & G1 & G2). exists it', n'.
        rewrite O by exact N. auto. }
    exists s', e', c'. split; [exact R|]. split; [exact Ge'|]. split; [exact Ve'|].
    split; [rewrite Ek; eapply keys_set_present, Gc|]. split; [|split].
    + intros k Hx. destruct (in_dec string_dec k (Dict.keys r)) as [I|I]; [apply Hin, I|].
      destruct Hx as [<-|Hx]; [|contradiction]. cbn [fst]. rewrite Hout by exact I.
      rewrite Gs. apply get_set_same.
    + intros k Hx. rewrite Hout by (intros X; apply Hx; right; exact X).
      apply O. intros ->. apply Hx. left. reflexivity.
    + destruct Same as (a & b & c0 & d & f & g). repeat split; assumption.
Qed.

(** A read through the cache of a stored category whose cached copy, if
    any, agrees with storage. *)
Lemma get_category_all_items_coherent name row items s :
  Dict.get name (configuration s) = Some row ->
  row_value row = PDict items ->
  coherent_at name s ->
  cache_dated s ->
  exists s0 e,
    get_category_all_items name s = (Return (PDict items), s0)
    /\ same_storage_and_logs s s0
    /\ Dict.get name (cache s0) = Some e
    /\ value e = PDict items.
Proof.
  intros Gr Vr Hc Hd. destruct (Dict.get name (cache s)) as [e|] eqn:G.
  - destruct (Hc e G) as (row' & Gr' & Ve). rewrite Gr in Gr'. injection Gr' as <-.
    unfold get_category_all_items. unfold bindM at 1. rewrite (contains_hit _ _ _ G).
    unfold cached_value, bindM, gets, ret. cbv beta iota. fields. rewrite get_set_same.
    fields. rewrite Ve, Vr. eexists _, _. split; [reflexivity|].
    split; [repeat split|]. fields. split; [apply get_set_same|]. fields. congruence.
  - assert (Hd1 : cache_dated (with_hit_miss (cache_hit s) (S (cache_miss s)) s)) by exact Hd.
    destruct (CreateReadFacts.cache_update_get name (PDict items) None _ Hd1)
      as (s1 & U & Same & _ & _ & Gc).
    unfold get_category_all_items. unfold bindM at 1. rewrite (contains_miss _ _ G).
    unfold _read_category_val, bindM, gets, ret. cbv beta iota. fields. rewrite Gr, Vr.
    cbn [Py.is_None negb]. rewrite U. eexists _, _. split; [reflexivity|].
    split; [exact Same|]. split; [exact Gc|reflexivity].
Qed.

Section Collect.
Context {B : Builtins}.

(** An item that passes the checks of the bulk update is a dictionary of
    the category, and the old value is its [value] entry. *)
Lemma bulk_check_item_inv items i v old new' :
  bulk_check_item (PDict items) i v = Return (old, new') ->
  exists it, Dict.get i items = Some (PDict it) /\ Dict.get "value" it = Some old.
Proof.
  unfold bulk_check_item. cbn [Py.contains bind]. unfold Dict.mem.
  destruct (Dict.get i items) as [item|] eqn:G; cbn [negb]; [|discriminate].
  cbn [Py.subscript]. rewrite G. cbn [bind]. intros H.
  apply RecreateFacts.bind_Return in H. destruct H as (t & Ht & H).
  apply RecreateFacts.bind_Return in H. destruct H as (u & _ & H).
  apply RecreateFacts.bind_Return in H. destruct H as (u' & _ & H).
  apply RecreateFacts.bind_Return in H. destruct H as (o & Ho & H).
  apply RecreateFacts.bind_Return in H. destruct H as (t' & _ & H).
  apply RecreateFacts.bind_Return in H. destruct H as (n & _ & H).
  injection H as <- <-.
  destruct item as [| | |it]; try discriminate. exists it. split; [reflexivity|].
  cbn [Py.subscript] in Ho. destruct (Dict.get "value" it); [|discriminate].
  injection Ho as ->. reflexivity.
Qed.

Lemma bulk_collect_spec cat_info : forall items updates audit_items,
  NoDup (Dict.keys items) ->
  (forall i v, In (i, v) items ->
     exists old new', bulk_check_item cat_info i v = Return (old, new')) ->
  exists updates' audit_items',
    bulk_collect cat_info items updates audit_items
    = Return (updates ++ updates', audit_items')
    /\ NoDup (Dict.keys updates')
    /\ (forall i, In i (Dict.keys updates') -> In i (Dict.keys items))
    /\ (forall i n, In (i, n) updates' <-> exists old, changes cat_info items i old n)
    /\ (forall i old n, changes cat_info items i old n ->
          Dict.get i audit_items'
          = Some (PDict [("oldValue", old); ("newValue", n)]))
    /\ (forall i, ~ In i (Dict.keys updates') ->
          Dict.get i audit_items' = Dict.get i audit_items).
Proof.
  induction items as [|[i0 v0] r IH]; intros updates audit_items Hn Hc.
  - exists [], audit_items. cbn [bulk_collect]. rewrite app_nil_r.
    split; [reflexivity|]. split; [constructor|]. split; [auto|]. split; [|split; [|auto]].
    + intros i n. split; [intros []|]. intros (old & v & [] & _).
    + intros i old n (v & [] & _).
  - inversion Hn as [|? ? Hnot Hn']; subst.
    destruct (Hc i0 v0 (or_introl eq_refl)) as (old0 & new0 & C0).
    assert (Hc' : forall i v, In (i, v) r ->
              exists old new', bulk_check_item cat_info i v = Return (old, new'))
      by (intros i v Hin; apply Hc; right; exact Hin).
    assert (Tail : forall i old n, changes cat_info ((i0, v0) :: r) i old n ->
              (i = i0 /\ old = old0 /\ n = new0 /\ Py.eq old0 new0 = false)
              \/ (i <> i0 /\ changes cat_info r i old n)).
    { intros i old n (v & [E|Hin] & Cv & Ne).
      - injection E as <- <-. rewrite C0 in Cv. injection Cv as <- <-. left. auto.
      - right. split; [intros ->; apply Hnot; eapply in_value_keys, Hin|].
        exists v. auto. }
    cbn [bulk_collect]. rewrite C0. cbn [bind].
    destruct (Py.eq old0 new0) eqn:E0; cbn [negb].
    + destruct (IH updates audit_items Hn' Hc') as (u' & a' & R & Nu & Ku & Iu & Au & Ou).
      exists u', a'. split; [exact R|]. split; [exact Nu|].
      split; [intros i Hi; right; apply Ku, Hi|]. split; [|split; [|exact Ou]].
      * intros i n. rewrite Iu. split.
        -- intros (old & v & Hin & Cv & Ne). exists old, v. split; [right; exact Hin|auto].
        -- intros (old & Ch). destruct (Tail _ _ _ Ch) as [(_ & _ & _ & X)|(_ & Ch')];
             [discriminate|]. exists old. exact Ch'.
      * intros i old n Ch. destruct (Tail _ _ _ Ch) as [(_ & _ & _ & X)|(_ & Ch')];
          [discriminate|]. apply Au, Ch'.
    + destruct (IH (updates ++ [(i0, new0)])
                  (Dict.set i0 (PDict [("oldValue", old0); ("newValue", new0)]) audit_items)
                  Hn' Hc') as (u' & a' & R & Nu & Ku & Iu & Au & Ou).
      assert (Ni : ~ In i0 (Dict.keys u')) by (intros X; apply Hnot, Ku, X).
      exists ((i0, new0) :: u'), a'. split; [rewrite R, <- app_assoc; reflexivity|].
      split; [cbn; constructor; assumption|].
      split; [intros i [<-|Hi]; [left; reflexivity|right; apply Ku, Hi]|].
      split; [|split].
      * intros i n. split.
        -- intros [E|Hin].
           ++ injection E as <- <-. exists old0, v0. split; [left; reflexivity|auto].
           ++ apply Iu in Hin. destruct Hin as (old & v & Hin & Cv & Ne).
              exists old, v. split; [right; exact Hin|auto].
        -- intros (old & Ch). destruct (Tail _ _ _ Ch) as [(-> & _ & -> & _)|(_ & Ch')];
             [left; reflexivity|]. right. apply Iu. exists old. exact Ch'.
      * intros i old n Ch. destruct (Tail _ _ _ Ch) as [(-> & -> & -> & _)|(_ & Ch')].
        -- rewrite Ou by exact Ni. apply get_set_same.
        -- apply Au, Ch'.
      * intros i Hi. rewrite Ou by (intros X; apply Hi; right; exact X).
        apply get_set_other. intros ->. apply Hi. left. reflexivity.
Qed.
End Collect.

Lemma update_item_values_stored name updates row s :
  Dict.get name (configuration s) = Some row ->
  update_item_values name updates s
  = (Return tt,
     with_configuration
       (Dict.set name {| row_description := row_description row;
                         row_value := apply_json_updates (row_value row) updates;
                         row_display_name := row_display_name row |}
          (configuration s))
       (with_writes (storage_writes s ++ [UpdateItemValues name updates]) s)).
Proof.
  intros G. unfold update_item_values, log_write, bindM, modify, set_row_value.
  cbv beta iota. fields. rewrite G. reflexivity.
Qed.

Section BulkStore.
Context {B : Builtins}.

End BulkStore.


End BulkStoreFacts.

(* ================================================================== *)
(** ** Reading one item *)

Module ItemReadFacts.
Import DictFacts ManagerSpec CacheSpec Example CacheReadFacts SetItemFacts.

(** X25. In a cache all of whose entries have their access time,
    [get_category_item] of a stored category whose cached copy, if any,
    agrees with storage returns the item as storage has it, and [None]
    for an item the category does not have. It only reads: storage and
    the logs are as they were, the cached copy still agrees with storage,
    and after the read of an item that exists the category is cached. *)
Theorem get_category_item_returns_the_stored_item
    (name item : string) (row : Row) (items : Dict.t pyval) (s : State) :
  Dict.get name (configuration s) = Some row ->
  row_value row = PDict items ->
  coherent_at name s ->
  cache_dated s ->
  exists s',
    get_category_item name item s = (Return (json_path (PDict items) item), s')
    /\ same_storage_and_logs s s'
    /\ coherent_at name s'
    /\ (json_path (PDict items) item <> PNone ->
        exists e, Dict.get name (cache s') = Some e /\ value e = PDict items).
Proof.
  intros Gr Vr Hc Hd. destruct (Dict.get name (cache s)) as [e|] eqn:G.
  - destruct (Hc e G) as (row' & Gr' & Ve). rewrite Gr in Gr'. injection Gr' as <-.
    unfold get_category_item. unfold bindM at 1. rewrite (contains_hit _ _ _ G).
    unfold cached_value, bindM, gets, lift, ret. cbv beta iota. fields.
    rewrite get_set_same. fields. rewrite Ve, Vr. cbn [Py.contains Py.subscript json_path].
    unfold Dict.mem.
    assert (Co : forall s', configuration s' = configuration s ->
              (exists e', Dict.get name (cache s') = Some e' /\ value e' = PDict items
                          /\ forall e'', Dict.get name (cache s') = Some e'' -> e'' = e') ->
              coherent_at name s').
    { intros s' Ec (e' & Ge' & Ve' & _) e'' Ge''. rewrite Ge' in Ge''. injection Ge'' as <-.
      exists row. rewrite Ec. split; [exact Gr|congruence]. }
    destruct (Dict.get item items) as [i|] eqn:Gi; cbn [negb]; eexists;
      (split; [reflexivity|]); (split; [repeat split|]);
      (split; [apply Co; [reflexivity|]; fields; eexists; split; [apply get_set_same|];
               split; [fields; congruence|intros e'' X; rewrite get_set_same in X; congruence]
              |]);
      intros _; fields; eexists; (split; [apply get_set_same|]); fields; congruence.
  - set (s0 := with_hit_miss (cache_hit s) (S (cache_miss s)) s).
    assert (C0 : configuration s0 = configuration s) by reflexivity.
    unfold get_category_item. unfold bindM at 1. rewrite (contains_miss _ _ G). fold s0.
    unfold bindM at 1. unfold bindM at 1.
    unfold _read_item_val at 1, bindM at 1, gets, ret. cbv beta iota.
    rewrite C0, Gr, Vr.
    destruct (Py.is_None (json_path (PDict items) item)) eqn:Nn; cbn [negb].
    + exists s0. unfold ret. split; [reflexivity|]. split; [repeat split|]. split.
      * intros e Ge. unfold s0 in Ge. fields_in Ge. rewrite G in Ge. discriminate.
      * intros X. destruct (json_path (PDict items) item); try discriminate. contradiction.
    + assert (Hd0 : cache_dated s0) by exact Hd.
      destruct (CreateReadFacts.cache_update_get name (PDict items) None s0 Hd0)
        as (s1 & U & Same & _ & _ & Gc).
      unfold bindM at 1. unfold _read_category_val at 1, bindM at 1, gets, ret.
      cbv beta iota. rewrite C0, Gr, Vr. cbn [Py.is_None negb].
      unfold bindM at 1. rewrite U.
      unfold cached_value, set_cached_value, bindM, gets, lift, modify, raise, ret.
      cbv beta iota. rewrite Gc. fields. cbn [Py.set_item]. cbv beta iota. rewrite Gc.
      assert (Gi : Dict.get item items = Some (json_path (PDict items) item)).
      { cbn [json_path] in Nn |- *. destruct (Dict.get item items); [reflexivity|discriminate]. }
      rewrite (set_get_id _ _ _ _ Gi).
      destruct Same as (Sc & Sch & Sw & Sa & Sl & Si).
      eexists. split; [reflexivity|]. split; [repeat split; fields; assumption|]. split.
      * intros e Ge. fields_in Ge. rewrite get_set_same in Ge. injection Ge as <-.
        exists row. fields. rewrite Sc. unfold s0. fields. split; [exact Gr|]. congruence.
      * intros _. fields. eexists. split; [apply get_set_same|reflexivity].
Qed.

Lemma get_category_item_returns_the_stored_item_purge :
  exists s',
    get_category_item "PURGE" "age"
      (started_on "PURGE" (PDict [("age", stored_age_item "72" "80")]))
    = (Return (json_path (PDict [("age", stored_age_item "72" "80")]) "age"), s')
    /\ same_storage_and_logs
         (started_on "PURGE" (PDict [("age", stored_age_item "72" "80")])) s'
    /\ coherent_at "PURGE" s'
    /\ (json_path (PDict [("age", stored_age_item "72" "80")]) "age" <> PNone ->
        exists e, Dict.get "PURGE" (cache s') = Some e
                  /\ value e = PDict [("age", stored_age_item "72" "80")]).
Proof.
  apply (get_category_item_returns_the_stored_item "PURGE" "age"
           {| row_description := ""; row_display_name := "PURGE";
              row_value := PDict [("age", stored_age_item "72" "80")] |}
           [("age", stored_age_item "72" "80")]
           (started_on "PURGE" (PDict [("age", stored_age_item "72" "80")]))).
  - reflexivity.
  - reflexivity.
  - intros e H. discriminate H.
  - constructor.
Defined.

End ItemReadFacts.

(* ================================================================== *)
(** ** Groups of categories *)

Module GroupFacts.
Import DictFacts TreeSpec ChildSpec GroupSpec.

Lemma nested_unfold fuel s key description displayName :
  nested_children (S fuel) s (key, description, displayName)
  = match fst (get_category_child key s) with
    | Raise e => Some (Raise e)
    | Return next_children =>
        match nested_loop (nested_children fuel s) next_children with
        | None => None
        | Some (Raise e) => Some (Raise e)
        | Some (Return gs) => Some (Return (GroupNode key description displayName gs))
        end
    end.
Proof. reflexivity. Qed.

Lemma nested_loop_cons rec x r :
  nested_loop rec (x :: r)
  = match rec x with
    | None => None
    | Some (Raise e) => Some (Raise e)
    | Some (Return g) =>
        match nested_loop rec r with
        | None => None
        | Some (Raise e) => Some (Raise e)
        | Some (Return gs) => Some (Return (g :: gs))
        end
    end.
Proof. reflexivity. Qed.

Lemma fetch_loop_cons rec c r :
  fetch_loop rec (c :: r)
  = match rec c with
    | None => None
    | Some child_descendents =>
        match fetch_loop rec r with
        | None => None
        | Some descendents => Some (c :: child_descendents ++ descendents)
        end
    end.
Proof. reflexivity. Qed.

Lemma names_below_node key description displayName children :
  names_below (GroupNode key description displayName children)
  = flat_map (fun c => group_key c :: names_below c) children.
Proof.
  cbn [names_below]. induction children as [|c r IH]; [reflexivity|].
  cbn [flat_map]. rewrite IH. reflexivity.
Qed.

Lemma is_child_iff s k :
  existsb (String.eqb k) (list_child s) = true
  <-> exists p, In (p, k) (category_children s).
Proof.
  rewrite InterestFacts.existsb_eqb_In. unfold list_child. rewrite nodup_In, in_map_iff.
  split.
  - intros ([p c] & E & H). cbn in E. subst. eauto.
  - intros (p & H). exists (p, k). auto.
Qed.

(** The children that [get_category_child] lists when every child of the
    table is stored. *)
Lemma get_category_child_stored s key :
  all_stored s ->
  Dict.get key (configuration s) <> None ->
  exists l,
    get_category_child key s = (Return l, s)
    /\ map (fun x => fst (fst x)) l = _read_all_child_category_names key s
    /\ (forall x, In x l -> Dict.get (fst (fst x)) (configuration s) <> None).
Proof.
  intros (Hv & Hc) Hk. destruct (Dict.get key (configuration s)) as [row|] eqn:G;
    [|contradiction].
  assert (He : category_exists s key) by (exists row; split; [exact G|eapply Hv, G]).
  destruct (ChildFacts.read_existing key s He) as (v & R & Nn).
  unfold get_category_child. unfold bindM at 1. rewrite R, Nn.
  unfold bindM, gets. cbv beta iota. eexists. split; [reflexivity|]. split.
  - rewrite ChildFacts.read_child_info_keys.
    assert (H : forall c, In c (_read_all_child_category_names key s) ->
                          Dict.mem c (configuration s) = true).
    { intros c Hin. apply DeleteFacts.in_children in Hin. apply Hc in Hin. unfold Dict.mem.
      destruct (Dict.get c (configuration s)); [reflexivity|contradiction]. }
    induction (_read_all_child_category_names key s) as [|c r IH]; [reflexivity|].
    cbn [filter]. rewrite H by (left; reflexivity). f_equal. apply IH.
    intros c' Hin. apply H. right. exact Hin.
  - intros x Hin. unfold _read_child_info in Hin. apply in_flat_map in Hin.
    destruct Hin as (c & _ & Hin). destruct (Dict.get c (configuration s)) eqn:Gc;
      [|destruct Hin]. destruct Hin as [<-|[]]. cbn [fst]. rewrite Gc. discriminate.
Qed.

Section Tree.
Variables (rank : string -> nat) (s : State).
Hypothesis R : ranked rank s.
Hypothesis Stored : all_stored s.

Lemma nested_children_spec : forall fuel key description displayName,
  rank key < fuel ->
  Dict.get key (configuration s) <> None ->
  exists g,
    nested_children fuel s (key, description, displayName) = Some (Return g)
    /\ info g = (key, description, displayName)
    /\ well_grouped s g
    /\ _fetch_descendents fuel s key = Some (names_below g).
Proof.
  induction fuel as [|fuel IH]; intros key description displayName Hr Hk; [lia|].
  rewrite nested_unfold, DeleteFacts.fetch_unfold.
  destruct (get_category_child_stored s key Stored Hk) as (l & G & Kl & Hl).
  rewrite G. cbn [fst]. rewrite <- Kl.
  assert (Rl : forall x, In x l -> rank (fst (fst x)) < fuel).
  { intros x Hin. assert (X : In (fst (fst x)) (_read_all_child_category_names key s)).
    { rewrite <- Kl. apply in_map_iff. exists x. auto. }
    apply DeleteFacts.in_children in X. apply R in X. lia. }
  assert (Loop : exists gs,
            nested_loop (nested_children fuel s) l = Some (Return gs)
            /\ map info gs = l
            /\ Forall (well_grouped s) gs
            /\ fetch_loop (_fetch_descendents fuel s) (map (fun x => fst (fst x)) l)
               = Some (flat_map (fun c => group_key c :: names_below c) gs)).
  { clear G Kl. induction l as [|[[k d] n] r IHl].
    - exists []. repeat split. constructor.
    - destruct (IH k d n) as (g & Eg & Ig & Wg & Fg).
      { apply (Rl (k, d, n)). left. reflexivity. }
      { apply (Hl (k, d, n)). left. reflexivity. }
      destruct IHl as (gs & Egs & Igs & Wgs & Fgs).
      { intros x Hin. apply Hl. right. exact Hin. }
      { intros x Hin. apply Rl. right. exact Hin. }
      exists (g :: gs). cbn [map fst flat_map].
      rewrite nested_loop_cons, fetch_loop_cons, Eg, Egs, Fg, Fgs.
      split; [reflexivity|]. split; [congruence|].
      split; [constructor; assumption|]. unfold group_key. rewrite Ig. reflexivity. }
  destruct Loop as (gs & Egs & Igs & Wgs & Fgs). rewrite Egs, Fgs.
  eexists. split; [reflexivity|]. split; [reflexivity|]. split.
  - constructor; [rewrite Igs; exact G|exact Wgs].
  - rewrite names_below_node. reflexivity.
Qed.

Lemma nested_branches_spec fuel : forall rows,
  (forall x, In x rows -> rank (fst (fst x)) < fuel
                          /\ Dict.get (fst (fst x)) (configuration s) <> None) ->
  exists tree,
    nested_branches fuel s rows = Some (Return tree)
    /\ map info tree = rows
    /\ Forall (well_grouped s) tree
    /\ Forall (fun g => _fetch_descendents fuel s (group_key g) = Some (names_below g)) tree.
Proof.
  induction rows as [|[[k d] n] r IH]; intros H.
  - exists []. repeat split; constructor.
  - destruct (H (k, d, n) (or_introl eq_refl)) as (Hr & Hk). cbn [fst] in Hr, Hk.
    destruct (nested_children_spec fuel k d n Hr Hk) as (g & Eg & Ig & Wg & Fg).
    destruct IH as (tree & Et & It & Wt & Ft); [intros x Hin; apply H; right; exact Hin|].
    exists (g :: tree). cbn [nested_branches]. rewrite Eg, Et.
    split; [reflexivity|]. split; [cbn [map]; congruence|].
    split; [constructor; assumption|]. constructor; [|exact Ft].
    unfold group_key. rewrite Ig. exact Fg.
Qed.
End Tree.

Lemma read_all_groups_flat fuel root s :
  exists rows,
    _read_all_groups fuel root false s = Some (Return (Flat rows))
    /\ forall x, In x rows -> Dict.get (fst (fst x)) (configuration s) <> None.
Proof.
  unfold _read_all_groups. cbv zeta. eexists. split; [reflexivity|].
  intros x Hx.
  assert (Hin : In x (map (fun kr => (fst kr, row_description (snd kr),
                                      row_display_name (snd kr))) (configuration s)))
    by (destruct root; apply filter_In in Hx; tauto).
  apply in_map_iff in Hin. destruct Hin as ([k row] & <- & Hin). cbn [fst snd].
  intros X. apply get_none_not_in in X. apply X. unfold Dict.keys.
  apply in_map_iff. exists (k, row). auto.
Qed.

Lemma read_all_groups_nested fuel root s rows :
  _read_all_groups fuel root false s = Some (Return (Flat rows)) ->
  _read_all_groups fuel root true s
  = match nested_branches fuel s rows with
    | None => None
    | Some (Raise e) => Some (Raise e)
    | Some (Return tree) => Some (Return (Nested tree))
    end.
Proof. unfold _read_all_groups. cbv zeta. intros H. injection H as <-. reflexivity. Qed.

(** X26. Without the children, [get_all_category_names] lists the
    categories of the configuration table in table order: all of them for
    [root=None], those that are no child of any category for [root=True]
    and those that are a child of some category for [root=False]. Every
    category is in exactly one of the last two lists. *)
Theorem category_names_split_into_roots_and_children (fuel : nat) (s : State) :
  exists all roots others,
    get_all_category_names fuel None false s = Some (Return (Flat all))
    /\ get_all_category_names fuel (Some true) false s = Some (Return (Flat roots))
    /\ get_all_category_names fuel (Some false) false s = Some (Return (Flat others))
    /\ map (fun x => fst (fst x)) all = Dict.keys (configuration s)
    /\ (forall x, In x roots
                  <-> In x all /\ ~ exists p, In (p, fst (fst x)) (category_children s))
    /\ (forall x, In x others
                  <-> In x all /\ exists p, In (p, fst (fst x)) (category_children s))
    /\ List.length all = List.length roots + List.length others.
Proof.
  unfold get_all_category_names, _read_all_groups, _read_all_category_names, bindM, gets, ret.
  cbv beta iota zeta. cbn [fst].
  set (all := map (fun kr => (fst kr, row_description (snd kr), row_display_name (snd kr)))
                (configuration s)).
  eexists _, _, _. split; [reflexivity|]. split; [reflexivity|]. split; [reflexivity|].
  split.
  { unfold all, Dict.keys. rewrite map_map. reflexivity. }
  split; [|split].
  - intros x. rewrite filter_In, negb_true_iff, <- is_child_iff.
    destruct (existsb (String.eqb (fst (fst x))) (list_child s));
      split; intros (H & X); (split; [exact H|]); congruence.
  - intros x. rewrite filter_In, <- is_child_iff. reflexivity.
  - induction all as [|x r IH]; [reflexivity|]. cbn [filter List.length].
    destruct (existsb (String.eqb (fst (fst x))) (list_child s)); cbn [negb List.length];
      rewrite IH; lia.
Qed.

(** X27. With the children, on a children table without a cycle in
    which every category is stored with a value and every child is a
    category, [get_all_category_names] returns a tree whose top nodes
    are, in order, the categories the call without the children lists.
    Every node of the tree has the children [get_category_child] lists for
    its key, and the keys below a top node are, in order, the descendants
    [_fetch_descendents] returns for it. *)
Theorem category_tree_follows_the_children_table
    (rank : string -> nat) (fuel : nat) (root : bool) (s : State) :
  ranked rank s ->
  (forall k, Dict.get k (configuration s) <> None -> rank k < fuel) ->
  all_stored s ->
  exists rows tree,
    get_all_category_names fuel (Some root) false s = Some (Return (Flat rows))
    /\ get_all_category_names fuel (Some root) true s = Some (Return (Nested tree))
    /\ map info tree = rows
    /\ Forall (well_grouped s) tree
    /\ Forall (fun g => _fetch_descendents fuel s (group_key g) = Some (names_below g)) tree.
Proof.
  intros R Hf Stored. unfold get_all_category_names.
  destruct (read_all_groups_flat fuel root s) as (rows & Hflat & Hin).
  rewrite (read_all_groups_nested fuel root s rows Hflat), Hflat.
  destruct (nested_branches_spec rank s R Stored fuel rows) as (tree & Et & It & Wt & Ft).
  { intros x Hx. apply Hin in Hx. split; [apply Hf, Hx|exact Hx]. }
  exists rows, tree. rewrite Et. repeat split; assumption.
Qed.

Lemma family_stored : all_stored family.
Proof.
  split.
  - intros k row G. cbn in G.
    repeat (destruct (String.eqb k _) in G; [injection G as <-; discriminate|]).
    discriminate.
  - intros p c [H|[H|[H|[]]]]; injection H as <- <-; discriminate.
Defined.

Lemma category_tree_follows_the_children_table_family :
  exists rows tree,
    get_all_category_names 3 (Some true) false family = Some (Return (Flat rows))
    /\ get_all_category_names 3 (Some true) true family = Some (Return (Nested tree))
    /\ map info tree = rows
    /\ Forall (well_grouped family) tree
    /\ Forall (fun g => _fetch_descendents 3 family (group_key g) = Some (names_below g))
         tree.
Proof.
  apply (category_tree_follows_the_children_table family_rank 3 true family).
  - exact TreeFacts.family_ranked.
  - intros k _. unfold family_rank.
    destruct (String.eqb k "A"); [lia|]. destruct (String.eqb k "B"); lia.
  - exact family_stored.
Defined.

End GroupFacts.

(* ================================================================== *)
(** ** create_category on a stored category *)

Module UpdatePathFacts.
Import DictFacts ManagerSpec CacheSpec Example CacheReadFacts SetItemFacts UpdateSpec.

Lemma with_audit_id s : with_audit (audit_log s) s = s.
Proof. destruct s. reflexivity. Qed.

Lemma audits_only_bind (A C : Type) (m : M A) (f : A -> M C) :
  audits_only m -> (forall a, audits_only (f a)) -> audits_only (bindM m f).
Proof.
  unfold audits_only. intros Hm Hf s. unfold bindM. specialize (Hm s).
  destruct (m s) as [[a|e] s1]; cbn [snd] in Hm |- *; [|exact Hm].
  rewrite (Hf a s1). rewrite Hm at 2. reflexivity.
Qed.

Lemma audits_only_ret (A : Type) (a : A) : audits_only (ret a).
Proof. intros s. symmetry. apply with_audit_id. Qed.

Lemma audits_only_lift (A : Type) (o : outcome A) : audits_only (lift o).
Proof. intros s. symmetry. apply with_audit_id. Qed.

Lemma audits_only_audit code details : audits_only (audit_information code details).
Proof. intros s. reflexivity. Qed.

Section UpdatePath.
Context {B : Builtins}.

(** The first loop of the merge writes audit records and nothing else. *)
Lemma merge_items_audits_only name : forall items storage,
  audits_only (merge_items name items storage).
Proof.
  induction items as [|[k0 v0] r IH]; intros storage.
  - apply audits_only_ret.
  - cbn [merge_items]. apply audits_only_bind.
    + destruct (negb _); [|apply audits_only_ret].
      apply audits_only_bind; [apply audits_only_lift|]. intros v.
      apply audits_only_bind; [apply audits_only_lift|]. intros i. apply audits_only_ret.
    + intros [i st]. apply audits_only_bind; [apply audits_only_lift|]. intros dep.
      apply audits_only_bind.
      * destruct dep; [|apply audits_only_ret].
        apply audits_only_bind; [apply audits_only_lift|]. intros old.
        apply audits_only_audit.
      * intros _. apply audits_only_bind; [apply IH|].
        intros [[its sts] dps]. apply audits_only_ret.
Qed.

Lemma merge_category_vals_audits_only new stored keep name :
  audits_only (_merge_category_vals new stored keep name).
Proof.
  unfold _merge_category_vals.
  destruct new as [| | |new_items]; try apply (audits_only_lift _ (Raise AttributeError)).
  destruct stored as [| | |storage_items]; try apply (audits_only_lift _ (Raise AttributeError)).
  apply audits_only_bind; [apply merge_items_audits_only|].
  intros [[its sts] dps]. apply audits_only_ret.
Qed.

Lemma update_category_stores name merged description display_name row s :
  Dict.get name (configuration s) = Some row ->
  exists s' e,
    _update_category name (PDict merged) description display_name s = (Return tt, s')
    /\ configuration s'
       = Dict.set name
           {| row_description := description; row_value := PDict merged;
              row_display_name := match display_name with
                                  | Some d => d
                                  | None => name
                                  end |}
           (configuration s)
    /\ storage_writes s' = storage_writes s ++ [UpdateConfiguration name]
    /\ audit_log s' = audit_log s
    /\ callback_log s' = callback_log s
    /\ _registered_interests s' = _registered_interests s
    /\ Dict.get name (cache s') = Some e
    /\ value e = PDict merged
    /\ displayName e = match display_name with Some d => d | None => name end.
Proof.
  intros Gr. unfold _update_category.
  erewrite RecreateFacts.except_message_return.
  2:{ unfold update_configuration, log_write, bindM, modify. cbv beta iota. fields.
      rewrite (get_mem _ _ _ _ Gr). reflexivity. }
  unfold _read_category_val, bindM, gets, modify, ret. cbv beta iota. fields.
  rewrite get_set_same. fields.
  destruct (Dict.get name (cache s)) as [e0|] eqn:Gc;
    (eexists _, _; split; [reflexivity|]); fields;
    (split; [reflexivity|]); (split; [reflexivity|]); (split; [reflexivity|]);
    (split; [reflexivity|]); (split; [reflexivity|]);
    (split; [apply get_set_same|]); split; reflexivity.
Qed.

End UpdatePath.


End UpdatePathFacts.
